(** * Slip: gesture state machine and reorder index computation

    A shallow embedding of the Slip engine (the reordering part of
    react-slipmove) and the properties of its specification.

    Numbers.  A JavaScript number is a double, and every finite double is
    a rational: numbers are modelled by [Q].  Comparisons are exact.  The
    arithmetic on pointer coordinates, time stamps and bounding rectangles
    rounds its result to the nearest double, ties to even, as IEEE 754
    binary64 does ([fl]).  The layout arithmetic ([offsetTop + height/2])
    and the scroll bound of [updateScrolling] are on integers and halves,
    where doubles are exact.  [NaN] and the
    infinities, and with them overflow, are outside the model.  Layout
    integers ([offsetTop], [offsetHeight], parsed margins) are [Z]. *)

From Stdlib Require Import String List ZArith QArith Qabs Qround Qpower Lqa Lia Bool.
Import ListNotations.

Open Scope Q_scope.

(** ** Numbers *)

(** The strict comparison [a < b] of two JavaScript numbers. *)
Definition Qltb (a b : Q) : bool :=
  (Qnum a * QDen b <? Qnum b * QDen a)%Z.

(** [2^k], for an exponent of either sign. *)
Definition pow2 (k : Z) : Q := 2 ^ k.

(** The exponent of the leading bit of a positive number:
    [2^(ilog2 q) <= q < 2^(ilog2 q + 1)]. *)
Definition ilog2 (q : Q) : Z :=
  let k := (Z.log2 (Qnum q) - Z.log2 (QDen q))%Z in
  if Qle_bool (pow2 k) q then k else (k - 1)%Z.

(** The nearest integer of a number that is not negative, a tie going to
    the even one. *)
Definition roundEven (q : Q) : Z :=
  let f := Qfloor q in
  match Qcompare (q - inject_Z f) (1 # 2) with
  | Lt => f
  | Gt => (f + 1)%Z
  | Eq => if Z.even f then f else (f + 1)%Z
  end.

(** The double nearest to a positive number: 53 significant bits, the
    last of them worth [2^e]; below [2^-1022] the doubles are [2^-1074]
    apart (gradual underflow). *)
Definition fl_pos (q : Q) : Q :=
  let e := Z.max (ilog2 q - 52) (-1074) in
  Qred (inject_Z (roundEven (q / pow2 e)) * pow2 e).

(** Rounding to the nearest double, ties to even: what every arithmetic
    operation of JavaScript does to its exact result. *)
Definition fl (q : Q) : Q :=
  match Qnum q with
  | Z0 => 0
  | Zpos _ => fl_pos q
  | Zneg _ => - fl_pos (- q)
  end.

(** [a - b], [a + b] and [a * b] on JavaScript numbers. *)
Definition fsub (a b : Q) : Q := fl (a - b).

Definition fadd (a b : Q) : Q := fl (a + b).

Definition fmul (a b : Q) : Q := fl (a * b).

(** The literal [1.2], which is not a double: the double it denotes. *)
Definition literal_1_2 : Q := fl (12 # 10).

(** The multiples of [2^-1074], the smallest positive double; every double
    is one, and so is every integer. *)
Definition on_grid (q : Q) : Prop :=
  exists m : Z, q == inject_Z m * pow2 (-1074).

(** ** The DOM data the engine reads *)

(** A child of the container.  [node_id] stands for the identity of the DOM
    object ([===] on nodes); [marginTop] and [marginBottom] are the values
    [parseInt] gives for the computed margins. *)
Record DomNode := mkNode {
  node_id : nat;
  nodeType : nat;
  offsetTop : Z;
  offsetHeight : Z;
  marginTop : Z;
  marginBottom : Z
}.

(** [a === b] on DOM nodes. *)
Definition same_node (a b : DomNode) : bool := Nat.eqb (node_id a) (node_id b).

(** [nodes[i].nodeType === 1] *)
Definition isElement (n : DomNode) : bool := Nat.eqb (nodeType n) 1.

(** An entry of [otherNodes]: the sibling and its frozen [pos].  (The
    [baseTransform] string kept next to them only feeds style writes.) *)
Record OtherNode := mkOther {
  o_node : DomNode;
  pos : Q
}.

(** ** Reorder index computation ([reorder.onEnd], the two scans) *)

(** [for (i=0; i < otherNodes.length; i++) if (otherNodes[i].pos > move.y) break;]
    [rest] is [otherNodes] from index [i] on; the result is the final [i]. *)
Fixpoint scanUp (rest : list OtherNode) (move_y : Q) (i : nat) : nat :=
  match rest with
  | [] => i
  | o :: rest' =>
      if Qltb move_y (pos o) then i else scanUp rest' move_y (S i)
  end.

(** [for (i=otherNodes.length-1; i >= 0; i--) if (otherNodes[i].pos < move.y) break;]
    followed by [spliceIndex = i+1].  [upto_rev] is [otherNodes[0..i]]
    reversed, so that its head is [otherNodes[i]] and its length is [i+1];
    the result is [i+1]. *)
Fixpoint scanDown (upto_rev : list OtherNode) (move_y : Q) : nat :=
  match upto_rev with
  | [] => 0%nat
  | o :: below =>
      if Qltb (pos o) move_y then length upto_rev else scanDown below move_y
  end.

(** The value of the local [spliceIndex] at the end of the [if]/[else]. *)
Definition computeSpliceIndex (otherNodes : list OtherNode) (move_y : Q) : nat :=
  if Qltb move_y 0 then scanUp otherNodes move_y 0
  else scanDown (rev otherNodes) move_y.

(** The loop of [findIndex] over [nodes], carrying the locals
    [originalIndex] and [listCount]; [target_node] is [target.node]. *)
Fixpoint findIndex_loop (target_node : DomNode) (nodes : list DomNode)
    (originalIndex listCount : nat) : nat :=
  match nodes with
  | [] => originalIndex
  | n :: rest =>
      if isElement n then
        let listCount := S listCount in
        if same_node n target_node
        then findIndex_loop target_node rest (listCount - 1) listCount
        else findIndex_loop target_node rest originalIndex listCount
      else findIndex_loop target_node rest originalIndex listCount
  end.

(** [this.target.height]: [node.offsetHeight + Math.max(parseInt(marginTop), parseInt(marginBottom))]. *)
Definition measureHeight (n : DomNode) : Z :=
  (offsetHeight n + Z.max (marginTop n) (marginBottom n))%Z.

(** [zero = node.offsetTop + this.target.height/2] *)
Definition zeroPoint (n : DomNode) (height : Z) : Q :=
  inject_Z (offsetTop n) + inject_Z height / 2.

(** [pos: t + (t < zero ? nodes[i].offsetHeight : 0) - zero] with [t = nodes[i].offsetTop]. *)
Definition computePos (zero : Q) (sibling : DomNode) : Q :=
  let t := inject_Z (offsetTop sibling) in
  t + (if Qltb t zero then inject_Z (offsetHeight sibling) else 0) - zero.

(** The loop of [reorderStateInit] that fills [otherNodes]: text nodes and
    the dragged node are skipped. *)
Fixpoint buildOtherNodes (dragged : DomNode) (zero : Q) (nodes : list DomNode)
    : list OtherNode :=
  match nodes with
  | [] => []
  | n :: rest =>
      if negb (isElement n) || same_node n dragged
      then buildOtherNodes dragged zero rest
      else mkOther n (computePos zero n) :: buildOtherNodes dragged zero rest
  end.

(** The [detail] of the [slip:reorder] event. *)
Record ReorderDetail := mkDetail {
  spliceIndex : nat;
  originalIndex : nat;
  insertBefore : option DomNode
}.

(** The object literal passed to [dispatch] by [reorder.onEnd];
    [otherNodes[spliceIndex]] is [undefined] past the end of the array. *)
Definition reorderDetail (otherNodes : list OtherNode) (origIndex : nat)
    (move_y : Q) : ReorderDetail :=
  let i := computeSpliceIndex otherNodes move_y in
  mkDetail i origIndex
    (match nth_error otherNodes i with
     | Some o => Some (o_node o)
     | None => None
     end).

(** ** The engine and the world it runs in *)

(** [{x, y, time}]: a position sample, and also a movement. *)
Record Point := mkPoint { x : Q; y : Q; time : Q }.

(** [this.target]; [height] is filled in by the state constructors.  The
    scroll container is represented by its scroll offsets: the one captured
    by [setTarget] here, the current one in the world. *)
Record Target := mkTarget {
  originalTarget : DomNode;
  node : DomNode;
  origScrollTop : Q;
  origScrollHeight : Q;
  height : option Z
}.

(** [findIndex(target, nodes)] *)
Definition findIndex (target : Target) (nodes : list DomNode) : nat :=
  findIndex_loop (node target) nodes 0 0.

(** The state constructors, [this.states.idle] and so on; a committed state
    remembers its own in [ctor]. *)
Inductive Ctor := idle | undecided | reorder.

Definition Ctor_eqb (a b : Ctor) : bool :=
  match a, b with
  | idle, idle | undecided, undecided | reorder, reorder => true
  | _, _ => false
  end.

(** The object a state constructor returns, by the handlers and closure
    variables it has: [holdTimer] for undecided; [originalIndex],
    [otherNodes] and the mutable [mouseOutsideTimer] for reorder. *)
Inductive StateBody :=
| IdleState
| UndecidedState (holdTimer : option nat)
| ReorderState (origIndex : nat) (otherNodes : list OtherNode)
               (mouseOutsideTimer : option nat).

(** A state object.  [ref] is its identity as a JavaScript object: every
    call of a constructor allocates a new one, and [this.state === prevState]
    compares identities.  [ctor] is unset until [setState] commits. *)
Record State := mkState {
  ref : nat;
  ctor : option Ctor;
  body : StateBody
}.

Inductive EventName := ev_beforewait | ev_beforereorder | ev_reorder | ev_tap.

(** What a pending timer will run.  The grace timer of the reorder state
    writes the closure variable of the state object that armed it. *)
Inductive TimerCallback :=
| HoldTimer
| MouseOutsideTimer (owner : nat)
| AnimateDone (n : DomNode).

Record Timer := mkTimer {
  timer_id : nat;
  timer_cb : TimerCallback;
  timer_delay : nat
}.

(** Observable effects, logged newest first in [trace]. *)
Inductive Effect :=
| Dispatch (targetNode : DomNode) (name : EventName) (detail : option ReorderDetail)
| SetTimeout (id : nat) (cb : TimerCallback) (delay : nat)
| ClearTimeout (id : option nat)
| PreventDefault
| RequestAnimationFrame
| RemoveMouseHandlers
| Focus (n : DomNode)
| ContainerFocus
| Style (n : DomNode) (prop value : string)
| ClassAdd (n : DomNode) (cls : string)
| ClassRemove (n : DomNode) (cls : string).

(** What the engine reads and never writes in this model: the children of
    the container, the current [scrollTop] of the session's scroll
    container, and the verdict of the host's listeners on each dispatched
    event ([false] when a listener calls [preventDefault]).  Listeners are
    taken not to call back into the engine. *)
Record World := mkWorld {
  childNodes : list DomNode;
  scrollTop : Q;
  listeners : DomNode -> EventName -> bool;
  raised : bool;
  draggingClassName : option string
}.

(** The Slip instance together with the timers, the allocation counters
    and the log of effects. *)
Record Slip := mkSlip {
  state : option State;
  target : option Target;
  usingTouch : bool;
  mouseHandlersAttached : bool;
  startPosition : option Point;
  latestPosition : option Point;
  previousPosition : option Point;
  canPreventScrolling : bool;
  world : World;
  nextRef : nat;
  nextTimer : nat;
  timers : list Timer;
  trace : list Effect
}.

Definition set_state (v : option State) (e : Slip) : Slip :=
  mkSlip v (target e) (usingTouch e) (mouseHandlersAttached e)
    (startPosition e) (latestPosition e) (previousPosition e)
    (canPreventScrolling e) (world e) (nextRef e) (nextTimer e) (timers e) (trace e).

Definition set_target (v : option Target) (e : Slip) : Slip :=
  mkSlip (state e) v (usingTouch e) (mouseHandlersAttached e)
    (startPosition e) (latestPosition e) (previousPosition e)
    (canPreventScrolling e) (world e) (nextRef e) (nextTimer e) (timers e) (trace e).

Definition set_usingTouch (v : bool) (e : Slip) : Slip :=
  mkSlip (state e) (target e) v (mouseHandlersAttached e)
    (startPosition e) (latestPosition e) (previousPosition e)
    (canPreventScrolling e) (world e) (nextRef e) (nextTimer e) (timers e) (trace e).

Definition set_mouseHandlersAttached (v : bool) (e : Slip) : Slip :=
  mkSlip (state e) (target e) (usingTouch e) v
    (startPosition e) (latestPosition e) (previousPosition e)
    (canPreventScrolling e) (world e) (nextRef e) (nextTimer e) (timers e) (trace e).

Definition set_positions (s l p : option Point) (e : Slip) : Slip :=
  mkSlip (state e) (target e) (usingTouch e) (mouseHandlersAttached e)
    s l p
    (canPreventScrolling e) (world e) (nextRef e) (nextTimer e) (timers e) (trace e).

Definition set_canPreventScrolling (v : bool) (e : Slip) : Slip :=
  mkSlip (state e) (target e) (usingTouch e) (mouseHandlersAttached e)
    (startPosition e) (latestPosition e) (previousPosition e)
    v (world e) (nextRef e) (nextTimer e) (timers e) (trace e).

Definition set_nextRef (v : nat) (e : Slip) : Slip :=
  mkSlip (state e) (target e) (usingTouch e) (mouseHandlersAttached e)
    (startPosition e) (latestPosition e) (previousPosition e)
    (canPreventScrolling e) (world e) v (nextTimer e) (timers e) (trace e).

Definition set_timers (next : nat) (v : list Timer) (e : Slip) : Slip :=
  mkSlip (state e) (target e) (usingTouch e) (mouseHandlersAttached e)
    (startPosition e) (latestPosition e) (previousPosition e)
    (canPreventScrolling e) (world e) (nextRef e) next v (trace e).

Definition set_trace (v : list Effect) (e : Slip) : Slip :=
  mkSlip (state e) (target e) (usingTouch e) (mouseHandlersAttached e)
    (startPosition e) (latestPosition e) (previousPosition e)
    (canPreventScrolling e) (world e) (nextRef e) (nextTimer e) (timers e) v.

(** ** A state and error monad for the methods

    A method either returns a value and the updated engine, or raises the
    [TypeError] of a property read on [null] or [undefined]. *)
Inductive Result (A : Type) :=
| Ok (a : A)
| TypeError.
Arguments Ok {A} a.
Arguments TypeError {A}.

Definition M (A : Type) : Type := Slip -> Result (A * Slip).

Definition ret {A} (a : A) : M A := fun e => Ok (a, e).

Definition bind {A B} (m : M A) (k : A -> M B) : M B :=
  fun e => match m e with
           | Ok (a, e') => k a e'
           | TypeError => TypeError
           end.

Definition throw {A} : M A := fun _ => TypeError.

Definition gets {A} (f : Slip -> A) : M A := fun e => Ok (f e, e).

Definition modify (f : Slip -> Slip) : M unit := fun e => Ok (tt, f e).

Declare Scope slip_scope.
Delimit Scope slip_scope with slip.
Notation "v <- m ;; k" := (bind m (fun v => k))
  (at level 61, m at next level, right associativity) : slip_scope.
Notation "m ;; k" := (bind m (fun _ => k))
  (at level 61, right associativity) : slip_scope.
Open Scope slip_scope.

(** Reading a property of [this.target], [this.state] or a position that
    may be [null]. *)
Definition deref {A} (f : Slip -> option A) : M A :=
  fun e => match f e with
           | Some a => Ok (a, e)
           | None => TypeError
           end.

Definition emit (ef : Effect) : M unit :=
  modify (fun e => set_trace (ef :: trace e) e).

Fixpoint emits (efs : list Effect) : M unit :=
  match efs with
  | [] => ret tt
  | ef :: rest => emit ef ;; emits rest
  end.

(** [setTimeout(cb, delay)]: a fresh timer id, the timer pending. *)
Definition setTimeout (cb : TimerCallback) (delay : nat) : M nat :=
  fun e =>
    let id := nextTimer e in
    Ok (id, set_trace (SetTimeout id cb delay :: trace e)
              (set_timers (S id) (timers e ++ [mkTimer id cb delay]) e)).

Definition drop_timer (id : nat) (ts : list Timer) : list Timer :=
  filter (fun t => negb (Nat.eqb (timer_id t) id)) ts.

(** [clearTimeout(id)]; an [undefined] id clears nothing. *)
Definition clearTimeout (id : option nat) : M unit :=
  fun e =>
    let ts := match id with
              | Some i => drop_timer i (timers e)
              | None => timers e
              end in
    Ok (tt, set_trace (ClearTimeout id :: trace e) (set_timers (nextTimer e) ts e)).

(** [dispatch(targetNode, eventName, detail)]: the event is delivered and
    the listeners' verdict returned. *)
Definition dispatch (targetNode : DomNode) (name : EventName)
    (detail : option ReorderDetail) : M bool :=
  emit (Dispatch targetNode name detail) ;;
  gets (fun e => listeners (world e) targetNode name).

(** ** Geometry helpers *)

(** [getTotalMovement]: [undefined] without a session.  Each difference
    is rounded, and so is the sum [latest.y - start.y + scrollOffset],
    taken from the left. *)
Definition getTotalMovement : M (option Point) :=
  fun e =>
    match target e with
    | None => Ok (None, e)
    | Some t =>
        let scrollOffset := fsub (scrollTop (world e)) (origScrollTop t) in
        match latestPosition e, startPosition e with
        | Some latest, Some start =>
            Ok (Some (mkPoint (fsub (x latest) (x start))
                              (fadd (fsub (y latest) (y start)) scrollOffset)
                              (fsub (time latest) (time start))), e)
        | _, _ => TypeError
        end
    end.

(** [getAbsoluteMovement]; reading [move.x] of [undefined] raises.  The
    direction labels of the result are not used by the engine. *)
Definition getAbsoluteMovement : M Point :=
  m <- getTotalMovement ;;
  match m with
  | Some move => ret (mkPoint (Qabs (x move)) (Qabs (y move)) (time move))
  | None => throw
  end.

(** ** The state constructors *)

(** The object literal a constructor returns: a new object. *)
Definition alloc (b : StateBody) : M State :=
  fun e => Ok (mkState (nextRef e) None b, set_nextRef (S (nextRef e)) e).

Definition removeMouseHandlers : M unit :=
  attached <- gets mouseHandlersAttached ;;
  if attached : bool
  then modify (set_mouseHandlersAttached false) ;; emit RemoveMouseHandlers
  else ret tt.

Definition idleStateInit : M State :=
  removeMouseHandlers ;;
  t <- gets target ;;
  match t with
  | Some tg =>
      emit (Style (node tg) "willChange" EmptyString) ;;
      modify (set_target None)
  | None => ret tt
  end ;;
  modify (set_usingTouch false) ;;
  alloc IdleState.

(** [this.target.height = ...], on the session object. *)
Definition measured (tg : Target) : Target :=
  mkTarget (originalTarget tg) (node tg) (origScrollTop tg)
           (origScrollHeight tg) (Some (measureHeight (node tg))).

Definition measureTarget : M Target :=
  tg <- deref target ;;
  modify (set_target (Some (measured tg))) ;;
  ret (measured tg).

(** The style writes of the sibling loop of [reorderStateInit]; [i] is the
    index in [childNodes]. *)
Fixpoint siblingStyles (dragged : DomNode) (origIndex : nat) (nodes : list DomNode)
    (i : nat) : list Effect :=
  match nodes with
  | [] => []
  | n :: rest =>
      if negb (isElement n) || same_node n dragged
      then siblingStyles dragged origIndex rest (S i)
      else Style n "transition" "transform 0.2s ease-in-out"
           :: (if Nat.ltb origIndex i
               then [Style n "willChange" "transform"] else [])
           ++ siblingStyles dragged origIndex rest (S i)
  end.

Definition reorderStateInit : M State :=
  tg0 <- deref target ;;
  emit (Focus (node tg0)) ;;
  tg <- measureTarget ;;
  nodes <- gets (fun e => childNodes (world e)) ;;
  let origIndex := findIndex tg nodes in
  let zero := zeroPoint (node tg) (measureHeight (node tg)) in
  let otherNodes := buildOtherNodes (node tg) zero nodes in
  emits (siblingStyles (node tg) origIndex nodes 0) ;;
  emit (ClassAdd (node tg) "slip-dragging") ;;
  cls <- gets (fun e => draggingClassName (world e)) ;;
  match cls with
  | Some c => emit (ClassAdd (node tg) c)
  | None => ret tt
  end ;;
  shadow <- gets (fun e => raised (world e)) ;;
  (if shadow : bool then emit (ClassAdd (node tg) "slip-shadow") else ret tt) ;;
  emit (Style (node tg) "zIndex" "99999") ;;
  emit (Style (node tg) "userSelect" "none") ;;
  emit RequestAnimationFrame ;;
  alloc (ReorderState origIndex otherNodes None).

(** [undecidedStateInit]; [setState_reorder] is the call
    [this.setState(this.states.reorder)]. *)
Definition undecidedStateInit (setState_reorder : M unit) : M State :=
  tg <- measureTarget ;;
  emit (Style (node tg) "willChange" "transform") ;;
  emit (Style (node tg) "transition" EmptyString) ;;
  waitOk <- dispatch (originalTarget tg) ev_beforewait None ;;
  holdTimer <-
    (if negb waitOk then
       tg1 <- deref target ;;
       reorderOk <- dispatch (originalTarget tg1) ev_beforereorder None ;;
       (if reorderOk : bool then setState_reorder else ret tt) ;;
       ret None
     else
       id <- setTimeout HoldTimer 300 ;;
       ret (Some id)) ;;
  alloc (UndecidedState holdTimer).

(** ** Leaving a state, and [setState] *)

(** [animateToZero(callback)]: the transform is reset now, the rest runs
    from a 100ms timer. *)
Definition animateToZero : M unit :=
  tg <- deref target ;;
  emit (Style (node tg) "transform" "translate(0,0)") ;;
  _ <- setTimeout (AnimateDone (node tg)) 100 ;;
  ret tt.

Definition restoreSibling (o : OtherNode) : list Effect :=
  [Style (o_node o) "transform" "original";
   Style (o_node o) "willChange" "null";
   Style (o_node o) "transition" EmptyString].

(** [this.state.leaveState.call(this)] when the state has the handler. *)
Definition leaveState (s : State) : M unit :=
  match body s with
  | IdleState => ret tt
  | UndecidedState holdTimer => clearTimeout holdTimer
  | ReorderState _ otherNodes mouseOutsideTimer =>
      match mouseOutsideTimer with
      | Some id => clearTimeout (Some id)
      | None => ret tt
      end ;;
      emit ContainerFocus ;;
      tg <- deref target ;;
      emit (Style (node tg) "userSelect" EmptyString) ;;
      animateToZero ;;
      emits (flat_map restoreSibling otherNodes)
  end.

(** [this.state === prevState] *)
Definition same_state (a b : option State) : bool :=
  match a, b with
  | None, None => true
  | Some s1, Some s2 => Nat.eqb (ref s1) (ref s2)
  | _, _ => false
  end.

(** [this.state.ctor === newStateCtor] *)
Definition has_ctor (s : State) (c : Ctor) : bool :=
  match ctor s with
  | Some c' => Ctor_eqb c' c
  | None => false
  end.

(** The second half of [setState], from [const prevState = this.state]. *)
Definition enterState (newStateCtor : Ctor) (init : M State) : M unit :=
  prevState <- gets state ;;
  nextState <- init ;;
  cur <- gets state ;;
  if same_state cur prevState
  then modify (set_state (Some (mkState (ref nextState) (Some newStateCtor)
                                        (body nextState))))
  else ret tt.

(** [setState(newStateCtor)], with the body of the constructor passed
    along: [init] is [newStateCtor.call(this)]. *)
Definition setStateTo (newStateCtor : Ctor) (init : M State) : M unit :=
  cur <- gets state ;;
  match cur with
  | Some s =>
      if has_ctor s newStateCtor then ret tt
      else leaveState s ;; enterState newStateCtor init
  | None => enterState newStateCtor init
  end.

(** [newStateCtor.call(this)].  The only constructor that calls [setState]
    is the undecided one, for [this.states.reorder]. *)
Definition callCtor (c : Ctor) : M State :=
  match c with
  | idle => idleStateInit
  | reorder => reorderStateInit
  | undecided => undecidedStateInit (setStateTo reorder reorderStateInit)
  end.

Definition setState (newStateCtor : Ctor) : M unit :=
  setStateTo newStateCtor (callCtor newStateCtor).

(** [this.cancel = this.setState.bind(this, this.states.idle)] *)
Definition cancel : M unit := setState idle.

(** ** The handlers of the states *)

(** [true] when the state object has the handler ([if (this.state.onMove)]). *)
Definition has_onMove (s : State) : bool :=
  match body s with IdleState => false | _ => true end.

Definition has_onEnd (s : State) : bool :=
  match body s with IdleState => false | _ => true end.

Definition has_onLeave (s : State) : bool :=
  match body s with IdleState => false | _ => true end.

(** [undecided.onMove]: [Some false] is [return false], [None] is falling
    off the end of the function.  The product [move.y*1.2] is rounded. *)
Definition undecided_onMove : M (option bool) :=
  move <- getAbsoluteMovement ;;
  (if Qltb 20 (y move) then setState idle else ret tt) ;;
  if Qltb (fmul (y move) literal_1_2) (x move) then ret (Some false) else ret None.

Definition undecided_onLeave : M unit := setState idle.

Definition undecided_onEnd : M (option bool) :=
  tg <- deref target ;;
  allowDefault <- dispatch (originalTarget tg) ev_tap None ;;
  setState idle ;;
  ret (Some allowDefault).

(** [reorder.onMove]: the visual update is handed to
    [requestAnimationFrame]; the frame callback only touches styles, the
    scroll offset and the grace timer and is not part of this model. *)
Definition reorder_onMove : M (option bool) :=
  emit RequestAnimationFrame ;;
  ret (Some false).

(** Writing the closure variable [mouseOutsideTimer] of state object [s]. *)
Definition set_mouseOutsideTimer (s : State) (v : option nat) : M unit :=
  match body s with
  | ReorderState oi others _ =>
      modify (set_state (Some (mkState (ref s) (ctor s) (ReorderState oi others v))))
  | _ => ret tt
  end.

Definition reorder_onLeave (s : State) (mouseOutsideTimer : option nat) : M unit :=
  match mouseOutsideTimer with
  | Some id => clearTimeout (Some id)
  | None => ret tt
  end ;;
  id <- setTimeout (MouseOutsideTimer (ref s)) 700 ;;
  set_mouseOutsideTimer s (Some id).

Definition reorder_onEnd (origIndex : nat) (otherNodes : list OtherNode)
    : M (option bool) :=
  m <- getTotalMovement ;;
  match m with
  | None => throw
  | Some move =>
      tg <- deref target ;;
      _ <- dispatch (node tg) ev_reorder
             (Some (reorderDetail otherNodes origIndex (y move))) ;;
      setState idle ;;
      ret (Some false)
  end.

(** [this.state.onMove.call(this)] and its two siblings, for a state that
    has the handler. *)
Definition call_onMove (s : State) : M (option bool) :=
  match body s with
  | IdleState => ret None
  | UndecidedState _ => undecided_onMove
  | ReorderState _ _ _ => reorder_onMove
  end.

Definition call_onEnd (s : State) : M (option bool) :=
  match body s with
  | IdleState => ret None
  | UndecidedState _ => undecided_onEnd
  | ReorderState origIndex otherNodes _ => reorder_onEnd origIndex otherNodes
  end.

Definition call_onLeave (s : State) : M unit :=
  match body s with
  | IdleState => ret tt
  | UndecidedState _ => undecided_onLeave
  | ReorderState _ _ mouseOutsideTimer => reorder_onLeave s mouseOutsideTimer
  end.

(** [handler() === false] *)
Definition is_false (r : option bool) : bool :=
  match r with Some false => true | _ => false end.

(** ** Entry points *)

Definition startAtPosition (p : Point) : M unit :=
  modify (set_positions (Some p) (Some p) (Some p)) ;;
  setState undecided.

(** [updatePosition(e, pos)]; [e.preventDefault()] is logged.  The
    difference of the two time stamps is rounded before it is compared. *)
Definition updatePosition (p : Point) : M unit :=
  fun e =>
    match target e with
    | None => Ok (tt, e)
    | Some _ =>
        (modify (fun e => set_positions (startPosition e) (Some p) (previousPosition e) e) ;;
         s <- deref state ;;
         (if has_onMove s then
            r <- call_onMove s ;;
            if is_false r then emit PreventDefault else ret tt
          else ret tt) ;;
         latest <- deref latestPosition ;;
         previous <- deref previousPosition ;;
         if Qltb 100 (fsub (time latest) (time previous))
         then modify (fun e => set_positions (startPosition e) (latestPosition e)
                                             (latestPosition e) e)
         else ret tt) e
    end.

Definition onMouseMove (p : Point) : M unit := updatePosition p.

Definition onTouchMove (p : Point) : M unit :=
  updatePosition p ;;
  modify (set_canPreventScrolling false).

Definition endGesture : M unit :=
  s <- deref state ;;
  if has_onEnd s then
    r <- call_onEnd s ;;
    if is_false r then emit PreventDefault else ret tt
  else ret tt.

Definition onMouseUp (button : nat) : M unit :=
  touch <- gets usingTouch ;;
  if (touch : bool) || negb (Nat.eqb button 0) then ret tt else endGesture.

Definition onTouchEnd (touches : nat) : M unit :=
  if Nat.ltb 1 touches then cancel else endGesture.

(** [onMouseLeave]; [atDocument] is the test on [e.target] and
    [e.relatedTarget]. *)
Definition onMouseLeave (atDocument : bool) : M unit :=
  touch <- gets usingTouch ;;
  if touch : bool then ret tt
  else if atDocument then
    s <- deref state ;;
    if has_onLeave s then call_onLeave s else ret tt
  else ret tt.

(** ** Timers *)

Definition holdTimerFired : M unit :=
  move <- getAbsoluteMovement ;;
  can <- gets canPreventScrolling ;;
  if (can : bool) && Qltb (x move) 15 && Qltb (y move) 25 then
    tg <- deref target ;;
    reorderOk <- dispatch (originalTarget tg) ev_beforereorder None ;;
    if reorderOk : bool then setState reorder else ret tt
  else ret tt.

(** The grace timer: [mouseOutsideTimer = null; this.cancel()].  The
    variable belongs to the state object that armed the timer. *)
Definition mouseOutsideTimerFired (owner : nat) : M unit :=
  cur <- gets state ;;
  match cur with
  | Some s => if Nat.eqb (ref s) owner then set_mouseOutsideTimer s None else ret tt
  | None => ret tt
  end ;;
  cancel.

(** The second half of [animateToZero].  [draggingClassName] may be
    [undefined]; [classList.remove] is then a removal of nothing. *)
Definition animateDone (n : DomNode) : M unit :=
  emit (Style n "transition" EmptyString) ;;
  emit (Style n "transform" "original") ;;
  cls <- gets (fun e => draggingClassName (world e)) ;;
  match cls with
  | Some c => emit (ClassRemove n c)
  | None => ret tt
  end ;;
  emit (ClassRemove n "slip-dragging") ;;
  emit (ClassRemove n "slip-shadow") ;;
  emit (ClassAdd n "slip-dropping") ;;
  emit (Style n "zIndex" EmptyString).

Definition runCallback (cb : TimerCallback) : M unit :=
  match cb with
  | HoldTimer => holdTimerFired
  | MouseOutsideTimer owner => mouseOutsideTimerFired owner
  | AnimateDone n => animateDone n
  end.

(** A pending timer fires: it leaves the pending set and its callback
    runs.  A timer that is not pending does not fire. *)
Definition fireTimer (id : nat) : M unit :=
  ts <- gets timers ;;
  match find (fun t => Nat.eqb (timer_id t) id) ts with
  | Some t =>
      modify (fun e => set_timers (nextTimer e) (drop_timer id (timers e)) e) ;;
      runCallback (timer_cb t)
  | None => ret tt
  end.

(** What can happen to the engine between two pointer-downs: the events
    the engine listens to and its timers.  ([selectionchange] on iOS and
    [detach] do what [Cancel] does; the animation frame callback of the
    reorder state, not modelled, returns at once without a session.) *)
Inductive Input :=
| MouseMove (p : Point)
| TouchMove (p : Point)
| MouseUp (button : nat)
| TouchEnd (touches : nat)
| MouseLeave (atDocument : bool)
| Cancel
| TimerFires (id : nat).

Definition handle (i : Input) : M unit :=
  match i with
  | MouseMove p => onMouseMove p
  | TouchMove p => onTouchMove p
  | MouseUp b => onMouseUp b
  | TouchEnd n => onTouchEnd n
  | MouseLeave a => onMouseLeave a
  | Cancel => cancel
  | TimerFires id => fireTimer id
  end.

(** A run of inputs, one handler after the other; it stops at the first
    handler that raises. *)
Fixpoint run (inputs : list Input) : M unit :=
  match inputs with
  | [] => ret tt
  | i :: rest => handle i ;; run rest
  end.

(** ** Vocabulary of the statements *)

(** The events dispatched so far, newest first. *)
Definition dispatched (tr : list Effect)
    : list (DomNode * EventName * option ReorderDetail) :=
  flat_map (fun ef => match ef with
                      | Dispatch n name d => [(n, name, d)]
                      | _ => []
                      end) tr.

(** The log [tr'] continues the log [tr]. *)
Definition extends (tr tr' : list Effect) : Prop :=
  exists l, tr' = l ++ tr.

(** The pointer samples, the scroll-prevention flag and the world are the
    same in [e'] as in [e]. *)
Definition samePointer (e e' : Slip) : Prop :=
  startPosition e' = startPosition e /\
  latestPosition e' = latestPosition e /\
  previousPosition e' = previousPosition e /\
  canPreventScrolling e' = canPreventScrolling e /\
  world e' = world e.

(** The engine is in the state built by constructor [c]. *)
Definition inState (c : Ctor) (e : Slip) : Prop :=
  exists s, state e = Some s /\ ctor s = Some c.

(** A reorder state is only ever active during a session. *)
Definition consistent (e : Slip) : Prop :=
  forall s oi others mot,
    state e = Some s -> body s = ReorderState oi others mot -> target e <> None.

(** No gesture is under way: the active state, if any, is an idle one. *)
Definition atRest (e : Slip) : Prop :=
  forall s, state e = Some s -> ctor s = Some idle /\ body s = IdleState.

(** State objects are allocated from [nextRef] upwards. *)
Definition fresh (e : Slip) : Prop :=
  forall s, state e = Some s -> (ref s < nextRef e)%nat.

(** The engine is idle, holds no session, and no hold timer is pending. *)
Definition quiescent (e : Slip) : Prop :=
  (exists r, state e = Some (mkState r (Some idle) IdleState)) /\
  target e = None /\
  (forall t, In t (timers e) -> timer_cb t <> HoldTimer).

(** [setState(c)] on [e] gets past its guard and the [leaveState] handler
    of the active state, and reaches [const prevState = this.state] with
    the engine as [e1]. *)
Definition reachesCtor (c : Ctor) (e e1 : Slip) : Prop :=
  match state e with
  | Some s => has_ctor s c = false /\ leaveState s e = Ok (tt, e1)
  | None => e1 = e
  end.

(** The object [setState] commits: the constructor's, tagged with it. *)
Definition committed (c : Ctor) (obj : State) : State :=
  mkState (ref obj) (Some c) (body obj).

(** The engine after [this.latestPosition = pos]. *)
Definition moved (p : Point) (e : Slip) : Slip :=
  set_positions (startPosition e) (Some p) (previousPosition e) e.

(** The last lines of [updatePosition]: the velocity sample. *)
Definition resample : M unit :=
  latest <- deref latestPosition ;;
  previous <- deref previousPosition ;;
  if Qltb 100 (fsub (time latest) (time previous))
  then modify (fun e => set_positions (startPosition e) (latestPosition e)
                                      (latestPosition e) e)
  else ret tt.

(** The entry [otherNodes] gets for sibling [n]. *)
Definition snapshotEntry (zero : Q) (n : DomNode) : OtherNode :=
  mkOther n (computePos zero n).

(** What the reorder constructor freezes in its closure: the original
    index and the sibling snapshot; next to them the grace timer variable. *)
Definition snapshotWith (tg : Target) (nodes : list DomNode)
    (mouseOutsideTimer : option nat) : StateBody :=
  ReorderState
    (findIndex tg nodes)
    (buildOtherNodes (node tg) (zeroPoint (node tg) (measureHeight (node tg))) nodes)
    mouseOutsideTimer.

(** What the reorder constructor returns. *)
Definition snapshotOf (tg : Target) (nodes : list DomNode) : StateBody :=
  snapshotWith tg nodes None.

(** ** Scenarios and sample engines *)

(** The [i]-th of a column of elements of height [H] without margins. *)
Definition item (H : Z) (i : nat) : DomNode :=
  mkNode i 1 (Z.of_nat i * H) H 0 0.

(** A container with five such elements and nothing else. *)
Definition fiveItems (H : Z) : list DomNode :=
  [item H 0; item H 1; item H 2; item H 3; item H 4].

(** The snapshot taken when the item at index 2 is dragged. *)
Definition fiveSnapshot (H : Z) : list OtherNode :=
  buildOtherNodes (item H 2) (zeroPoint (item H 2) (measureHeight (item H 2)))
                  (fiveItems H).

(** The snapshot of four siblings of height 40 around a dragged third. *)
Definition sample_snapshot : list OtherNode :=
  [ mkOther (mkNode 0 1 0 40 0 0) (-60);
    mkOther (mkNode 1 1 40 40 0 0) (-20);
    mkOther (mkNode 3 1 120 40 0 0) 20;
    mkOther (mkNode 4 1 160 40 0 0) 60 ].

(** The pointer-down sample of the sample gestures. *)
Definition origin : Point := mkPoint 0 0 0.

(** Listeners that reject before-wait and nothing else. *)
Definition skip_wait (n : DomNode) (name : EventName) : bool :=
  match name with ev_beforewait => false | _ => true end.

(** Listeners that reject nothing. *)
Definition accept_all (n : DomNode) (name : EventName) : bool := true.

(** Five items of height 40, nothing scrolled, the default options. *)
Definition sample_world (verdict : DomNode -> EventName -> bool) : World :=
  mkWorld (fiveItems 40) 0 verdict true None.

(** The session of a pointer-down on the third item. *)
Definition sample_target : Target :=
  mkTarget (item 40 2) (item 40 2) 0 200 None.

(** Idle, the session just set up by a mouse-down on the third item. *)
Definition sample_idle (verdict : DomNode -> EventName -> bool) : Slip :=
  mkSlip (Some (mkState 0 (Some idle) IdleState)) (Some sample_target)
         false true (Some origin) (Some origin) (Some origin) true
         (sample_world verdict) 1 1 [] [].

(** Undecided, the hold timer pending. *)
Definition sample_undecided : Slip :=
  mkSlip (Some (mkState 1 (Some undecided) (UndecidedState (Some 1%nat))))
         (Some (measured sample_target))
         false true (Some origin) (Some origin) (Some origin) true
         (sample_world accept_all) 2 2 [mkTimer 1 HoldTimer 300] [].

(** Reordering, the pointer at [latest]. *)
Definition sample_reorder (latest : Point) : Slip :=
  mkSlip (Some (mkState 2 (Some reorder)
                        (snapshotWith sample_target (fiveItems 40) None)))
         (Some (measured sample_target))
         false true (Some origin) (Some latest) (Some origin) true
         (sample_world accept_all) 3 2 [] [].

(** Reordering, the velocity sample taken at the time stamp [0.2]. *)
Definition sample_resampled : Slip :=
  set_positions (Some origin) (Some origin) (Some (mkPoint 0 0 (fl (2 # 10))))
                (sample_reorder origin).

(** ** Autoscroll and the visual update of the reorder state *)

(** [Math.max] and [Math.min] on numbers. *)
Definition Math_max (a b : Q) : Q := if Qltb a b then b else a.

Definition Math_min (a b : Q) : Q := if Qltb b a then b else a.

(** What [updateScrolling] measures: the bounding rectangles of the scroll
    container and of the dragged node, [window.innerHeight] and the
    container's [clientHeight]. *)
Record ScrollGeometry := mkGeometry {
  containerTop : Q;
  containerBottom : Q;
  targetTop : Q;
  targetBottom : Q;
  innerHeight : Q;
  clientHeight : Q
}.

(** The local [offset] of [updateScrolling] after its [if]/[else if];
    [bottomOffset], [topOffset] and the two steps are rounded differences. *)
Definition autoscrollOffset (g : ScrollGeometry) : Q :=
  let triggerOffset := 40 in
  let bottomOffset :=
    fsub (Math_min (containerBottom g) (innerHeight g)) (targetBottom g) in
  let topOffset := fsub (targetTop g) (Math_max (containerTop g) 0) in
  if Qltb bottomOffset triggerOffset
  then Math_min triggerOffset (fsub triggerOffset bottomOffset)
  else if Qltb topOffset triggerOffset
       then Math_max (- triggerOffset) (fsub topOffset triggerOffset)
       else 0.

(** [updateScrolling]: the value assigned to [scrollable.scrollTop], from
    the scroll height captured by [setTarget] and the current offset. *)
Definition updateScrolling (g : ScrollGeometry) (origHeight current : Q) : Q :=
  let maxScrollTop := origHeight - Math_min (clientHeight g) (innerHeight g) in
  Math_max 0 (Math_min maxScrollTop (current + autoscrollOffset g)).

(** The local [off] of the [forEach] in the frame callback of
    [reorder.onMove], for [height = this.target.height]. *)
Definition siblingOffset (height : Q) (o : OtherNode) (move_y : Q) : Q :=
  if Qltb (pos o) 0 && Qltb move_y 0 && Qltb move_y (pos o) then height
  else if Qltb 0 (pos o) && Qltb 0 move_y && Qltb (pos o) move_y then - height
  else 0.

(** [off ? 'translate(0,'+off+'px) ' + ... : o.baseTransform.original]:
    the style write for one sibling.  The log keeps which of the two it
    was; the amount is [siblingOffset]. *)
Definition siblingTransform (height : Q) (move_y : Q) (o : OtherNode) : Effect :=
  if Qeq_bool (siblingOffset height o move_y) 0
  then Style (o_node o) "transform" "original"
  else Style (o_node o) "transform" "translate".

(** The scroll offset of the world, written by the frame callback and
    re-read when a session picks its scroll container. *)
Definition set_scrollTop (v : Q) (e : Slip) : Slip :=
  mkSlip (state e) (target e) (usingTouch e) (mouseHandlersAttached e)
    (startPosition e) (latestPosition e) (previousPosition e)
    (canPreventScrolling e)
    (mkWorld (childNodes (world e)) v (listeners (world e))
             (raised (world e)) (draggingClassName (world e)))
    (nextRef e) (nextTimer e) (timers e) (trace e).

(** The closure of a frame callback: [otherNodes] and [mouseOutsideTimer]
    of the reorder state object [owner] that requested the frame.  While
    that object is the active state they are read from it; once it is not,
    they are what the dead object last held, [staleNodes] and
    [staleTimer]. *)
Definition frameClosure (owner : nat) (staleNodes : list OtherNode)
    (staleTimer : option nat) (cur : option State)
    : option State * list OtherNode * option nat :=
  match cur with
  | Some s =>
      if Nat.eqb (ref s) owner then
        match body s with
        | ReorderState _ others mot => (Some s, others, mot)
        | _ => (None, staleNodes, staleTimer)
        end
      else (None, staleNodes, staleTimer)
  | None => (None, staleNodes, staleTimer)
  end.

(** The callback [reorder.onMove] hands to [requestAnimationFrame].
    [this.target.height] is [undefined] on a session that no constructor
    has measured yet; [off] is then [undefined] or [NaN], falsy like 0. *)
Definition frameCallback (owner : nat) (staleNodes : list OtherNode)
    (staleTimer : option nat) (g : ScrollGeometry) : M unit :=
  session <- gets target ;;
  match session with
  | None => ret tt
  | Some tg =>
      modify (fun e => set_scrollTop
                         (updateScrolling g (origScrollHeight tg) (scrollTop (world e))) e) ;;
      cur <- gets state ;;
      let '(live, otherNodes, mouseOutsideTimer) :=
        frameClosure owner staleNodes staleTimer cur in
      match mouseOutsideTimer with
      | Some id =>
          clearTimeout (Some id) ;;
          match live with
          | Some s => set_mouseOutsideTimer s None
          | None => ret tt
          end
      | None => ret tt
      end ;;
      m <- getTotalMovement ;;
      match m with
      | None => throw
      | Some move =>
          emit (Style (node tg) "transform" "translate") ;;
          let height := match height tg with
                        | Some h => inject_Z h
                        | None => 0
                        end in
          emits (map (siblingTransform height (y move)) otherNodes)
      end
  end.

(** ** Pointer-down *)

(** A node on the path from the event target up to the document, with what
    [findTargetNode] and [setTarget] ask of it: whether it is
    [this.container], whether it is [document.body], and its scroll
    metrics.  [a_overflowVisible] is [overflow-y === 'visible']. *)
Record Ancestor := mkAncestor {
  a_node : DomNode;
  a_isContainer : bool;
  a_isBody : bool;
  a_scrollHeight : Q;
  a_clientHeight : Q;
  a_overflowVisible : bool;
  a_scrollTop : Q
}.

(** A mouse-down or the first touch of a touch-start: [e.target], its
    [parentNode] chain in order (the last one has no parent),
    [document.body], and the pointer sample. *)
Record PointerDown := mkPointerDown {
  e_target : Ancestor;
  e_ancestors : list Ancestor;
  e_body : Ancestor;
  e_sample : Point
}.

(** [findTargetNode(targetNode)]: [chain] is [targetNode] followed by its
    ancestors; the result is the node the loop stops at, with the
    ancestors of that node, or [None] for [null]. *)
Fixpoint findTargetNode (chain : list Ancestor) : option (Ancestor * list Ancestor) :=
  match chain with
  | [] => None
  | n :: up =>
      match up with
      | p :: _ => if a_isContainer p then Some (n, up) else findTargetNode up
      | [] => None
      end
  end.

(** The scroll container loop of [setTarget], from [targetNode.parentNode]
    upwards, with [|| document.body] at the end. *)
Fixpoint findScrollContainer (up : list Ancestor) (body : Ancestor) : Ancestor :=
  match up with
  | [] => body
  | a :: rest =>
      if a_isBody a then a
      else if Qltb (a_clientHeight a) (a_scrollHeight a) && negb (a_overflowVisible a)
           then a
           else findScrollContainer rest body
  end.

(** [setTarget(e)].  The new session looks at its own scroll container, so
    the scroll offset of the world becomes that container's. *)
Definition setTarget (ev : PointerDown) : M bool :=
  match findTargetNode (e_target ev :: e_ancestors ev) with
  | None => setState idle ;; ret false
  | Some (targetNode, up) =>
      let scrollContainer := findScrollContainer up (e_body ev) in
      modify (set_target (Some (mkTarget (a_node (e_target ev)) (a_node targetNode)
                                         (a_scrollTop scrollContainer)
                                         (a_scrollHeight scrollContainer) None))) ;;
      modify (set_scrollTop (a_scrollTop scrollContainer)) ;;
      ret true
  end.

(** [addMouseHandlers]: the flag says whether the window listeners are on. *)
Definition addMouseHandlers : M unit :=
  attached <- gets mouseHandlersAttached ;;
  if attached : bool then ret tt else modify (set_mouseHandlersAttached true).

Definition onMouseDown (button : nat) (ev : PointerDown) : M unit :=
  touch <- gets usingTouch ;;
  if (touch : bool) || negb (Nat.eqb button 0) then ret tt
  else
    found <- setTarget ev ;;
    if found : bool then
      addMouseHandlers ;;
      modify (set_canPreventScrolling true) ;;
      startAtPosition (e_sample ev)
    else ret tt.

(** [onTouchStart]; [e.touches.length] is [1 + moreTouches]. *)
Definition onTouchStart (moreTouches : nat) (ev : PointerDown) : M unit :=
  modify (set_usingTouch true) ;;
  modify (set_canPreventScrolling true) ;;
  if Nat.ltb 1 (S moreTouches) then setState idle
  else
    found <- setTarget ev ;;
    if found : bool then startAtPosition (e_sample ev) else ret tt.

(** ** The life of an engine *)

(** The fields of a new instance, from the prototype. *)
Definition blank (w : World) : Slip :=
  mkSlip None None false false None None None false w 0 0 [] [].

(** [new Slip(container)] for a container that exists:
    [this.setState(this.states.idle)].  ([attach] only registers the
    listeners.) *)
Definition construct (w : World) : Result (unit * Slip) :=
  setState idle (blank w).

(** Everything that can call into the engine. *)
Inductive Event :=
| Listened (i : Input)
| MouseDown (button : nat) (ev : PointerDown)
| TouchStart (moreTouches : nat) (ev : PointerDown)
| Frame (owner : nat) (staleNodes : list OtherNode) (staleTimer : option nat)
        (g : ScrollGeometry).

Definition deliver (ev : Event) : M unit :=
  match ev with
  | Listened i => handle i
  | MouseDown button d => onMouseDown button d
  | TouchStart more d => onTouchStart more d
  | Frame owner nodes timer g => frameCallback owner nodes timer g
  end.

Fixpoint deliverAll (evs : list Event) : M unit :=
  match evs with
  | [] => ret tt
  | ev :: rest => deliver ev ;; deliverAll rest
  end.

(** ** Invariants of the engine *)

(** A state object carries the constructor that built it. *)
Definition tagged (s : State) : Prop :=
  match body s with
  | IdleState => ctor s = Some idle
  | UndecidedState _ => ctor s = Some undecided
  | ReorderState _ _ _ => ctor s = Some reorder
  end.

(** There is an active state object, older than the next allocation and
    tagged; outside idle there is a session; a session has its three
    position samples; and a pending hold timer is the one of the active
    undecided state. *)
Definition steady (e : Slip) : Prop :=
  exists s,
    state e = Some s /\ (ref s < nextRef e)%nat /\ tagged s /\
    (body s <> IdleState -> target e <> None) /\
    (target e <> None ->
     startPosition e <> None /\ latestPosition e <> None /\
     previousPosition e <> None) /\
    (forall t, In t (timers e) -> timer_cb t = HoldTimer ->
               body s = UndecidedState (Some (timer_id t))).

(** [steady], and an idle engine holds no session. *)
Definition sound (e : Slip) : Prop :=
  steady e /\
  (forall s, state e = Some s -> body s = IdleState -> target e = None).

(** A gesture is under way that began at sample [p]: the engine is in the
    undecided or the reorder state, its three samples are [p], and the
    scroll origin of the session is the current scroll offset. *)
Definition started (p : Point) (e : Slip) : Prop :=
  (inState undecided e \/ inState reorder e) /\
  startPosition e = Some p /\ latestPosition e = Some p /\
  previousPosition e = Some p /\
  exists tg, target e = Some tg /\ origScrollTop tg = scrollTop (world e).

(** Where the scroll container loop of [setTarget] stops. *)
Definition stopsScroll (a : Ancestor) : bool :=
  a_isBody a ||
  (Qltb (a_clientHeight a) (a_scrollHeight a) && negb (a_overflowVisible a)).

(** The container of the five items, and the page around it, scrolled by
    15px. *)
Definition sample_container : Ancestor :=
  mkAncestor (mkNode 100 1 0 200 0 0) true false 200 200 true 0.

Definition sample_page : Ancestor :=
  mkAncestor (mkNode 101 1 0 2000 0 0) false true 2000 600 true 15.

(** A pointer-down on the third item. *)
Definition sample_down : PointerDown :=
  mkPointerDown (mkAncestor (item 40 2) false false 40 40 true 0)
                [sample_container; sample_page] sample_page (mkPoint 10 90 0).

(** Idle, no gesture yet. *)
Definition sample_rest : Slip :=
  mkSlip (Some (mkState 0 (Some idle) IdleState)) None
         false false None None None false
         (sample_world accept_all) 1 0 [] [].


(** The dragged node in the middle of a container 300px high. *)
Definition sample_geometry : ScrollGeometry :=
  mkGeometry 0 300 100 140 600 300.

(** * Properties *)

(** ** Comparisons *)

Lemma Qltb_lt (a b : Q) : Qltb a b = true <-> a < b.
Proof. unfold Qltb, Qlt. apply Z.ltb_lt. Qed.

Lemma Qltb_nlt (a b : Q) : Qltb a b = false <-> ~ a < b.
Proof.
  rewrite <- Qltb_lt. destruct (Qltb a b); split; congruence.
Qed.

(** Case analysis on a comparison the code makes, leaving the order fact
    in the context. *)
Ltac case_Qltb a b :=
  let E := fresh "E" in
  destruct (Qltb a b) eqn:E;
  [ apply Qltb_lt in E | apply Qltb_nlt in E ].

(** ** Rounding *)

Lemma pow2_pos (k : Z) : 0 < pow2 k.
Proof. apply Qpower_0_lt. reflexivity. Qed.

Lemma pow2_plus (a b : Z) : pow2 (a + b) == pow2 a * pow2 b.
Proof. apply Qpower_plus. discriminate. Qed.

Lemma pow2_le (a b : Z) : (a <= b)%Z -> pow2 a <= pow2 b.
Proof. intros H. apply Qpower_le_compat_l; [exact H | discriminate]. Qed.

Lemma pow2_nat (k : Z) : (0 <= k)%Z -> pow2 k == inject_Z (2 ^ k).
Proof. intros H. unfold pow2. rewrite (Zpower_Qpower 2 k H). reflexivity. Qed.

Lemma roundEven_cases (q : Q) :
  roundEven q = Qfloor q \/ roundEven q = (Qfloor q + 1)%Z.
Proof.
  unfold roundEven.
  destruct (Qcompare _ _); [destruct (Z.even _)| |]; auto.
Qed.

Lemma roundEven_ge (q : Q) (k : Z) : inject_Z k <= q -> (k <= roundEven q)%Z.
Proof.
  intros H. apply Qfloor_resp_le in H. rewrite Qfloor_Z in H.
  destruct (roundEven_cases q) as [-> | ->]; lia.
Qed.

(** The exponent of the leading bit. *)
Lemma ilog2_spec (q : Q) :
  0 < q -> pow2 (ilog2 q) <= q /\ q < pow2 (ilog2 q + 1).
Proof.
  intros Hq.
  assert (Hn : (0 < Qnum q)%Z).
  { unfold Qlt in Hq. simpl in Hq. lia. }
  set (ln := Z.log2 (Qnum q)). set (ld := Z.log2 (QDen q)).
  assert (Hln : (0 <= ln)%Z) by apply Z.log2_nonneg.
  assert (Hld : (0 <= ld)%Z) by apply Z.log2_nonneg.
  destruct (Z.log2_spec (Qnum q) Hn) as [Hnlo Hnhi].
  destruct (Z.log2_spec (QDen q) (eq_refl : (0 < QDen q)%Z)) as [Hdlo Hdhi].
  fold ln in Hnlo, Hnhi. fold ld in Hdlo, Hdhi.
  replace (Z.succ ln) with (ln + 1)%Z in Hnhi by lia.
  replace (Z.succ ld) with (ld + 1)%Z in Hdhi by lia.
  assert (Pn : (0 < 2 ^ ln)%Z) by (apply Z.pow_pos_nonneg; lia).
  assert (Pd : (0 < 2 ^ ld)%Z) by (apply Z.pow_pos_nonneg; lia).
  assert (Pn1 : (0 < 2 ^ (ln + 1))%Z) by (apply Z.pow_pos_nonneg; lia).
  assert (Pd1 : (0 < 2 ^ (ld + 1))%Z) by (apply Z.pow_pos_nonneg; lia).
  assert (Hlow : pow2 (ln - ld - 1) <= q).
  { assert (E : pow2 (ln - ld - 1) * pow2 (ld + 1) == pow2 ln).
    { rewrite <- pow2_plus. replace (ln - ld - 1 + (ld + 1))%Z with ln by lia.
      reflexivity. }
    apply (Qmult_le_r _ _ _ (pow2_pos (ld + 1))). rewrite E.
    rewrite (pow2_nat ln Hln), (pow2_nat (ld + 1)) by lia.
    unfold Qle. simpl. rewrite Z.mul_1_r. nia. }
  assert (Hhigh : q < pow2 (ln - ld + 1)).
  { assert (E : pow2 (ln - ld + 1) * pow2 ld == pow2 (ln + 1)).
    { rewrite <- pow2_plus. replace (ln - ld + 1 + ld)%Z with (ln + 1)%Z by lia.
      reflexivity. }
    apply (Qmult_lt_r _ _ _ (pow2_pos ld)). rewrite E.
    rewrite (pow2_nat ld Hld), (pow2_nat (ln + 1)) by lia.
    unfold Qlt. simpl. rewrite Z.mul_1_r. nia. }
  unfold ilog2. fold ln ld.
  destruct (Qle_bool (pow2 (ln - ld)) q) eqn:E.
  - apply Qle_bool_iff in E. split; assumption.
  - assert (~ pow2 (ln - ld) <= q) as Hnot.
    { intros H. apply Qle_bool_iff in H. congruence. }
    replace (ln - ld - 1 + 1)%Z with (ln - ld)%Z by lia.
    split; [exact Hlow | lra].
Qed.

(** [2^(ilog2 q - 1)] is below a positive [q]. *)
Lemma ilog2_below (q : Q) : 0 < q -> pow2 (ilog2 q - 1) <= q.
Proof.
  intros Hq. destruct (ilog2_spec q Hq) as [Hlo _].
  eapply Qle_trans; [|exact Hlo]. apply pow2_le. lia.
Qed.

(** The last bit kept is worth no more than the number itself, unless the
    number is below the smallest double. *)
Lemma fl_pos_exponent (q : Q) :
  pow2 (-1074) <= q ->
  pow2 (Z.max (ilog2 q - 52) (-1074)) <= q.
Proof.
  intros H.
  assert (Hq : 0 < q) by (eapply Qlt_le_trans; [apply pow2_pos | exact H]).
  destruct (Z.max_spec (ilog2 q - 52) (-1074)) as [[_ ->] | [_ ->]].
  - exact H.
  - eapply Qle_trans; [|apply (ilog2_below q Hq)]. apply pow2_le. lia.
Qed.

Lemma fl_pos_eq (q : Q) :
  let e := Z.max (ilog2 q - 52) (-1074) in
  fl_pos q == inject_Z (roundEven (q / pow2 e)) * pow2 e.
Proof. intros e. unfold fl_pos. fold e. apply Qred_correct. Qed.

Lemma fl_pos_nonneg (q : Q) : 0 <= q -> 0 <= fl_pos q.
Proof.
  intros H. rewrite fl_pos_eq.
  set (e := Z.max _ _).
  apply Qmult_le_0_compat; [|apply Qlt_le_weak, pow2_pos].
  change 0 with (inject_Z 0). rewrite <- Zle_Qle.
  apply roundEven_ge.
  apply Qle_shift_div_l; [apply pow2_pos|].
  change (inject_Z 0) with 0. rewrite Qmult_0_l. exact H.
Qed.

Lemma fl_pos_positive (q : Q) : pow2 (-1074) <= q -> 0 < fl_pos q.
Proof.
  intros H. rewrite fl_pos_eq.
  set (e := Z.max _ _).
  apply Qmult_lt_0_compat; [|apply pow2_pos].
  change 0 with (inject_Z 0). rewrite <- Zlt_Qlt.
  assert (1 <= roundEven (q / pow2 e))%Z; [|lia].
  apply roundEven_ge.
  apply Qle_shift_div_l; [apply pow2_pos|].
  rewrite Qmult_1_l. apply fl_pos_exponent. exact H.
Qed.

Lemma fl_pos_grid (q : Q) : on_grid (fl_pos q).
Proof.
  set (e := Z.max (ilog2 q - 52) (-1074)).
  exists (roundEven (q / pow2 e) * 2 ^ (e + 1074))%Z.
  rewrite fl_pos_eq. fold e.
  rewrite inject_Z_mult, <- pow2_nat by lia.
  rewrite <- Qmult_assoc, <- pow2_plus.
  replace (e + 1074 + -1074)%Z with e by lia. reflexivity.
Qed.

Lemma roundEven_near (q : Q) :
  - (1 # 2) <= inject_Z (roundEven q) - q <= 1 # 2.
Proof.
  pose proof (Qfloor_le q) as Hlo. pose proof (Qlt_floor q) as Hhi.
  rewrite inject_Z_plus in Hhi. change (inject_Z 1) with 1 in Hhi.
  unfold roundEven.
  destruct (Qcompare (q - inject_Z (Qfloor q)) (1 # 2)) eqn:E.
  - apply Qeq_alt in E.
    destruct (Z.even (Qfloor q)); [|rewrite inject_Z_plus; change (inject_Z 1) with 1]; lra.
  - apply Qlt_alt in E. lra.
  - apply Qgt_alt in E. rewrite inject_Z_plus. change (inject_Z 1) with 1. lra.
Qed.

(** The result of rounding a positive number: a multiple [m * 2^e] of the
    weight of the last bit with at most 53 bits, within half that weight of
    the number. *)
Lemma fl_pos_nearest (q : Q) :
  0 < q ->
  let e := Z.max (ilog2 q - 52) (-1074) in
  exists m : Z,
    fl_pos q == inject_Z m * pow2 e /\
    (0 <= m <= 2 ^ 53)%Z /\
    Qabs (fl_pos q - q) <= pow2 e / 2.
Proof.
  intros Hq e.
  exists (roundEven (q / pow2 e)).
  pose proof (fl_pos_eq q) as Heq. simpl in Heq. fold e in Heq.
  pose proof (pow2_pos e) as He.
  pose proof (roundEven_near (q / pow2 e)) as Hnear.
  split; [exact Heq|]. split.
  - split.
    + apply roundEven_ge. change (inject_Z 0) with 0.
      apply Qle_shift_div_l; [exact He|]. lra.
    + destruct (ilog2_spec q Hq) as [_ Hhi].
      assert (q / pow2 e <= inject_Z (2 ^ 53)) as Hle.
      { apply Qle_shift_div_r; [exact He|].
        rewrite <- (pow2_nat 53) by lia. rewrite <- pow2_plus.
        apply Qlt_le_weak. eapply Qlt_le_trans; [exact Hhi|].
        apply pow2_le. unfold e. lia. }
      destruct (roundEven_cases (q / pow2 e)) as [-> | Hup].
      * apply Qfloor_resp_le in Hle. rewrite Qfloor_Z in Hle. exact Hle.
      * (* rounding up from below 2^53 stays at or below 2^53 *)
        destruct (Z_le_gt_dec (roundEven (q / pow2 e)) (2 ^ 53)) as [|Hgt]; [assumption|].
        exfalso.
        assert (inject_Z (2 ^ 53) + 1 <= inject_Z (roundEven (q / pow2 e))).
        { change 1 with (inject_Z 1). rewrite <- inject_Z_plus, <- Zle_Qle. lia. }
        lra.
  - rewrite Heq.
    assert (inject_Z (roundEven (q / pow2 e)) * pow2 e - q ==
            (inject_Z (roundEven (q / pow2 e)) - q / pow2 e) * pow2 e) as ->.
    { field. lra. }
    set (d := inject_Z (roundEven (q / pow2 e)) - q / pow2 e) in *.
    assert (pow2 e / 2 == pow2 e * (1 # 2)) as -> by (field; discriminate).
    apply Qabs_Qle_condition. split; nra.
Qed.

(** Zero is a double. *)
Lemma fl_zero (q : Q) : q == 0 -> fl q = 0.
Proof.
  intros H. unfold Qeq in H. simpl in H. rewrite Z.mul_1_r in H.
  unfold fl. rewrite H. reflexivity.
Qed.

(** Rounding keeps the sign, and only a number below the smallest double
    rounds to zero. *)
Lemma fl_nonneg (q : Q) : 0 <= q -> 0 <= fl q.
Proof.
  intros H. unfold fl. destruct (Qnum q) eqn:E.
  - apply Qle_refl.
  - apply fl_pos_nonneg. exact H.
  - exfalso. unfold Qle in H. simpl in H. lia.
Qed.

Lemma fl_nonpos (q : Q) : q <= 0 -> fl q <= 0.
Proof.
  intros H. unfold fl. destruct (Qnum q) eqn:E.
  - apply Qle_refl.
  - exfalso. unfold Qle in H. simpl in H. lia.
  - assert (0 <= fl_pos (- q)) by (apply fl_pos_nonneg; lra). lra.
Qed.

Lemma fl_positive (q : Q) : pow2 (-1074) <= q -> 0 < fl q.
Proof.
  intros H.
  assert (Hq : 0 < q) by (eapply Qlt_le_trans; [apply pow2_pos | exact H]).
  unfold fl. destruct (Qnum q) eqn:E.
  - exfalso. unfold Qlt in Hq. simpl in Hq. lia.
  - apply fl_pos_positive. exact H.
  - exfalso. unfold Qlt in Hq. simpl in Hq. lia.
Qed.

Lemma fl_negative (q : Q) : q <= - pow2 (-1074) -> fl q < 0.
Proof.
  intros H.
  assert (Hp := pow2_pos (-1074)).
  unfold fl. destruct (Qnum q) eqn:E.
  - exfalso. unfold Qle in H. simpl in H. unfold Qlt in Hp. simpl in *. lia.
  - exfalso. assert (0 < q) by (unfold Qlt; simpl; lia). lra.
  - assert (0 < fl_pos (- q)) by (apply fl_pos_positive; lra). lra.
Qed.

(** Every result of an arithmetic operation is on the grid. *)
Lemma fl_grid (q : Q) : on_grid (fl q).
Proof.
  unfold fl. destruct (Qnum q).
  - exists 0%Z. rewrite Qmult_0_l. reflexivity.
  - apply fl_pos_grid.
  - destruct (fl_pos_grid (- q)) as [m Hm]. exists (- m)%Z.
    rewrite Hm, inject_Z_opp. ring.
Qed.

(** Integers are on the grid of the doubles. *)
Lemma integer_grid (z : Z) : on_grid (inject_Z z).
Proof.
  exists (z * 2 ^ 1074)%Z.
  rewrite inject_Z_mult, <- pow2_nat by lia.
  rewrite <- Qmult_assoc, <- pow2_plus. simpl (1074 + -1074)%Z.
  change (pow2 0) with 1. ring.
Qed.

(** Two different points of the grid are a grid step apart, so their
    difference does not round to zero. *)
Lemma grid_gap (a b : Q) :
  on_grid a -> on_grid b -> a < b -> pow2 (-1074) <= b - a.
Proof.
  intros [ma Ha] [mb Hb] Hlt.
  assert (Hp := pow2_pos (-1074)).
  set (eps := pow2 (-1074)) in *.
  rewrite Ha, Hb in Hlt. rewrite Ha, Hb.
  assert (ma < mb)%Z.
  { destruct (Z_lt_le_dec ma mb) as [|Hge]; [assumption|].
    exfalso. rewrite Zle_Qle in Hge. nra. }
  assert (inject_Z ma + 1 <= inject_Z mb).
  { change 1 with (inject_Z 1). rewrite <- inject_Z_plus, <- Zle_Qle. lia. }
  nra.
Qed.

(** [a - b] is zero for equal operands, and has the sign of the exact
    difference when the operands are doubles. *)
Lemma fsub_same (a b : Q) : a == b -> fsub a b = 0.
Proof. intros H. apply fl_zero. lra. Qed.

Lemma fsub_positive (a b : Q) : on_grid a -> on_grid b -> b < a -> 0 < fsub a b.
Proof.
  intros Ha Hb Hlt. apply fl_positive. apply grid_gap; assumption.
Qed.

Lemma fsub_negative (a b : Q) : on_grid a -> on_grid b -> a < b -> fsub a b < 0.
Proof.
  intros Ha Hb Hlt. apply fl_negative.
  assert (H := grid_gap a b Ha Hb Hlt). lra.
Qed.

(** The rounding at work: differences and a product whose exact values
    lie on the other side of the constants the engine compares them with. *)
Example fl_samples :
  fsub (fl (201 # 10)) (fl (1 # 10)) = 20 /\
  fsub (fl (1002 # 10)) (fl (2 # 10)) = 100 /\
  fsub (fl (4805 # 100)) (fl (805 # 100)) = 40 /\
  fmul (fl (9 # 100)) literal_1_2 = fl (108 # 1000) /\
  fadd (fl (1 # 10)) (fl (2 # 10)) > fl (3 # 10).
Proof. vm_compute. repeat split. Qed.

(** ** The two scans *)

Lemma scanUp_bounds (rest : list OtherNode) (d : Q) :
  forall i, (i <= scanUp rest d i <= i + length rest)%nat.
Proof.
  induction rest as [|o rest IH]; intro i; simpl.
  - lia.
  - destruct (Qltb d (pos o)); [lia|].
    specialize (IH (S i)). lia.
Qed.

(** Every entry the forward scan walked over failed the test, and the
    entry it stopped at passed it. *)
Lemma scanUp_spec (rest : list OtherNode) (d : Q) :
  forall i,
    (forall j o, (j < scanUp rest d i - i)%nat ->
                 nth_error rest j = Some o -> ~ d < pos o) /\
    (forall o, nth_error rest (scanUp rest d i - i) = Some o -> d < pos o).
Proof.
  induction rest as [|o rest IH]; intro i; simpl.
  - split.
    + intros j o' Hj. lia.
    + intros o'. rewrite Nat.sub_diag. discriminate.
  - case_Qltb d (pos o).
    + split.
      * intros j o' Hj. lia.
      * intros o'. rewrite Nat.sub_diag. simpl. congruence.
    + destruct (IH (S i)) as [IH1 IH2].
      pose proof (scanUp_bounds rest d (S i)) as B.
      replace (scanUp rest d (S i) - i)%nat
        with (S (scanUp rest d (S i) - S i)) by lia.
      split.
      * intros [|j] o' Hj Hn; simpl in Hn.
        -- congruence.
        -- apply (IH1 j); [lia | exact Hn].
      * intros o' Hn. simpl in Hn. auto.
Qed.

Lemma scanDown_le (l : list OtherNode) (d : Q) :
  (scanDown l d <= length l)%nat.
Proof.
  induction l as [|o l IH]; simpl; [lia|].
  destruct (Qltb (pos o) d); simpl; lia.
Qed.

(** One more entry at the end of the array is the first one the backward
    scan looks at. *)
Lemma scanDown_snoc (l : list OtherNode) (o : OtherNode) (d : Q) :
  scanDown (rev (l ++ [o])) d =
  if Qltb (pos o) d then S (length l) else scanDown (rev l) d.
Proof.
  rewrite rev_app_distr. simpl. rewrite length_rev. reflexivity.
Qed.

Lemma scanDown_rev_le (l : list OtherNode) (d : Q) :
  (scanDown (rev l) d <= length l)%nat.
Proof.
  rewrite <- (length_rev l). apply scanDown_le.
Qed.

Lemma scanDown_spec (l : list OtherNode) (d : Q) :
  (forall j o, (scanDown (rev l) d <= j)%nat ->
               nth_error l j = Some o -> ~ pos o < d) /\
  (forall k, scanDown (rev l) d = S k ->
             exists o, nth_error l k = Some o /\ pos o < d).
Proof.
  induction l as [|o l IH] using rev_ind.
  - simpl. split.
    + intros [|j] o'; discriminate.
    + discriminate.
  - rewrite scanDown_snoc. destruct IH as [IH1 IH2].
    pose proof (scanDown_rev_le l d) as B.
    case_Qltb (pos o) d.
    + split.
      * intros j o' Hj Hn.
        assert (nth_error (l ++ [o]) j = None) as Hnone.
        { apply nth_error_None. rewrite length_app. simpl. lia. }
        congruence.
      * intros k Hk. injection Hk as <-. exists o. split; [|assumption].
        rewrite nth_error_app2 by lia. rewrite Nat.sub_diag. reflexivity.
    + split.
      * intros j o' Hj Hn.
        destruct (Nat.lt_ge_cases j (length l)) as [Hlt|Hge].
        -- rewrite nth_error_app1 in Hn by assumption. eauto.
        -- rewrite nth_error_app2 in Hn by assumption.
           destruct (j - length l)%nat as [|[|m]]; simpl in Hn; congruence.
      * intros k Hk. destruct (IH2 k Hk) as [o' [Hn Hlt]].
        exists o'. split; [|assumption].
        rewrite nth_error_app1; [assumption|].
        apply nth_error_Some. congruence.
Qed.

Lemma computeSpliceIndex_le (otherNodes : list OtherNode) (d : Q) :
  (computeSpliceIndex otherNodes d <= length otherNodes)%nat.
Proof.
  unfold computeSpliceIndex. destruct (Qltb d 0).
  - pose proof (scanUp_bounds otherNodes d 0). lia.
  - apply scanDown_rev_le.
Qed.

(** C1.  For every frozen sibling snapshot and every displacement [d], the
    splice index is: when [d < 0], the index of the first sibling whose
    [pos] is strictly greater than [d] (all siblings before it fail the
    test, and it is the sibling count when none passes); when [0 <= d], one
    plus the index of the last sibling whose [pos] is strictly less than [d]
    (all siblings from the splice index on fail the test, and it is 0 when
    none passes). *)
Theorem computeSpliceIndex_scan (otherNodes : list OtherNode) (d : Q) :
  (d < 0 ->
   (computeSpliceIndex otherNodes d <= length otherNodes)%nat /\
   (forall j o, (j < computeSpliceIndex otherNodes d)%nat ->
                nth_error otherNodes j = Some o -> ~ d < pos o) /\
   (forall o, nth_error otherNodes (computeSpliceIndex otherNodes d) = Some o ->
              d < pos o)) /\
  (0 <= d ->
   (computeSpliceIndex otherNodes d <= length otherNodes)%nat /\
   (forall j o, (computeSpliceIndex otherNodes d <= j)%nat ->
                nth_error otherNodes j = Some o -> ~ pos o < d) /\
   (forall k, computeSpliceIndex otherNodes d = S k ->
              exists o, nth_error otherNodes k = Some o /\ pos o < d)).
Proof.
  pose proof (computeSpliceIndex_le otherNodes d) as B.
  unfold computeSpliceIndex in *.
  case_Qltb d 0; split; intro Hd; try lra.
  - destruct (scanUp_spec otherNodes d 0) as [S1 S2].
    rewrite Nat.sub_0_r in S1, S2. auto.
  - destruct (scanDown_spec otherNodes d) as [S1 S2]. auto.
Qed.

Lemma computeSpliceIndex_scan_witness :
  (computeSpliceIndex sample_snapshot (-25) <= length sample_snapshot)%nat /\
  (computeSpliceIndex sample_snapshot 25 <= length sample_snapshot)%nat.
Proof.
  split.
  - apply (proj1 (computeSpliceIndex_scan sample_snapshot (-25))). reflexivity.
  - apply (proj2 (computeSpliceIndex_scan sample_snapshot 25)). discriminate.
Defined.

(** C5.  Whatever the displacement, also far outside the extent of the
    list, the splice index lies between 0 and the sibling count. *)
Theorem computeSpliceIndex_in_range (otherNodes : list OtherNode) (d : Q) :
  (0 <= computeSpliceIndex otherNodes d <= length otherNodes)%nat.
Proof.
  split; [lia | apply computeSpliceIndex_le].
Qed.

(** ** Monotonicity *)

Lemma scanUp_mono (rest : list OtherNode) (d1 d2 : Q) :
  d1 <= d2 ->
  forall i, (scanUp rest d1 i <= scanUp rest d2 i)%nat.
Proof.
  intros Hd. induction rest as [|o rest IH]; intro i; simpl; [lia|].
  case_Qltb d1 (pos o).
  - pose proof (scanUp_bounds (o :: rest) d2 i) as B. simpl in B. lia.
  - case_Qltb d2 (pos o); [lra | apply IH].
Qed.

Lemma scanDown_mono (l : list OtherNode) (d1 d2 : Q) :
  d1 <= d2 ->
  (scanDown l d1 <= scanDown l d2)%nat.
Proof.
  intros Hd. induction l as [|o l IH]; simpl; [lia|].
  case_Qltb (pos o) d1.
  - case_Qltb (pos o) d2; [lia | lra].
  - pose proof (scanDown_le l d1). destruct (Qltb (pos o) d2); lia.
Qed.

(** Where the two branches meet: a forward scan for a negative
    displacement never ends beyond a backward scan for a non-negative one. *)
Lemma scanUp_le_scanDown (otherNodes : list OtherNode) (d1 d2 : Q) :
  d1 < 0 -> 0 <= d2 ->
  (scanUp otherNodes d1 0 <= scanDown (rev otherNodes) d2)%nat.
Proof.
  intros H1 H2.
  destruct (scanUp_spec otherNodes d1 0) as [U _].
  destruct (scanDown_spec otherNodes d2) as [D _].
  pose proof (scanUp_bounds otherNodes d1 0) as B.
  rewrite Nat.sub_0_r in U.
  destruct (scanUp otherNodes d1 0) as [|k] eqn:Ek; [lia|].
  destruct (Nat.le_gt_cases (scanDown (rev otherNodes) d2) k) as [Hle|Hgt]; [|lia].
  destruct (nth_error otherNodes k) as [o|] eqn:En.
  - specialize (U k o (Nat.lt_succ_diag_r k) En).
    specialize (D k o Hle En). lra.
  - apply nth_error_None in En. simpl in B. lia.
Qed.

(** C3.  For a fixed sibling snapshot the splice index is non-decreasing
    in the displacement. *)
Theorem computeSpliceIndex_monotone (otherNodes : list OtherNode) (d1 d2 : Q) :
  d1 <= d2 ->
  (computeSpliceIndex otherNodes d1 <= computeSpliceIndex otherNodes d2)%nat.
Proof.
  intros Hd. unfold computeSpliceIndex.
  case_Qltb d1 0; case_Qltb d2 0.
  - apply scanUp_mono; assumption.
  - apply scanUp_le_scanDown; lra.
  - lra.
  - apply scanDown_mono; assumption.
Qed.

Lemma computeSpliceIndex_monotone_witness :
  (computeSpliceIndex sample_snapshot (-25) <= computeSpliceIndex sample_snapshot 25)%nat.
Proof.
  apply (computeSpliceIndex_monotone sample_snapshot (-25) 25). discriminate.
Defined.

(** ** The snapshot taken on entering the reorder state *)

Lemma same_node_false (a b : DomNode) :
  node_id a <> node_id b -> same_node a b = false.
Proof. intro H. unfold same_node. apply Nat.eqb_neq. exact H. Qed.

Lemma same_node_refl (a : DomNode) : same_node a a = true.
Proof. unfold same_node. apply Nat.eqb_refl. Qed.

Lemma buildOtherNodes_app (dragged : DomNode) (zero : Q) (l1 l2 : list DomNode) :
  buildOtherNodes dragged zero (l1 ++ l2) =
  buildOtherNodes dragged zero l1 ++ buildOtherNodes dragged zero l2.
Proof.
  induction l1 as [|n l1 IH]; simpl; [reflexivity|].
  destruct (negb (isElement n) || same_node n dragged); simpl; congruence.
Qed.

(** Away from the dragged node the snapshot keeps exactly the elements. *)
Lemma buildOtherNodes_others (dragged : DomNode) (zero : Q) (l : list DomNode) :
  (forall n, In n l -> node_id n <> node_id dragged) ->
  buildOtherNodes dragged zero l = map (snapshotEntry zero) (filter isElement l).
Proof.
  induction l as [|n l IH]; intros Hl; simpl; [reflexivity|].
  rewrite (same_node_false n dragged) by (apply Hl; left; reflexivity).
  rewrite orb_false_r.
  destruct (isElement n); simpl; rewrite IH; auto; intros; apply Hl; right; assumption.
Qed.

Lemma buildOtherNodes_dragged (dragged : DomNode) (zero : Q) (l : list DomNode) :
  buildOtherNodes dragged zero (dragged :: l) = buildOtherNodes dragged zero l.
Proof.
  simpl. rewrite same_node_refl, orb_true_r. reflexivity.
Qed.

Lemma findIndex_loop_others (dragged : DomNode) (l : list DomNode) :
  (forall n, In n l -> node_id n <> node_id dragged) ->
  forall oi lc, findIndex_loop dragged l oi lc = oi.
Proof.
  induction l as [|n l IH]; intros Hl oi lc; simpl; [reflexivity|].
  rewrite (same_node_false n dragged) by (apply Hl; left; reflexivity).
  destruct (isElement n); apply IH; intros; apply Hl; right; assumption.
Qed.

Lemma findIndex_loop_before (dragged : DomNode) (l rest : list DomNode) :
  (forall n, In n l -> node_id n <> node_id dragged) ->
  forall oi lc,
    findIndex_loop dragged (l ++ rest) oi lc =
    findIndex_loop dragged rest oi (lc + length (filter isElement l)).
Proof.
  induction l as [|n l IH]; intros Hl oi lc; simpl.
  - rewrite Nat.add_0_r. reflexivity.
  - rewrite (same_node_false n dragged) by (apply Hl; left; reflexivity).
    destruct (isElement n); simpl; rewrite IH by (intros; apply Hl; right; assumption);
      f_equal; lia.
Qed.

(** No other child of the container is the dragged node. *)
Lemma NoDup_siblings (dragged : DomNode) (before after : list DomNode) :
  NoDup (map node_id (before ++ dragged :: after)) ->
  (forall n, In n before -> node_id n <> node_id dragged) /\
  (forall n, In n after -> node_id n <> node_id dragged).
Proof.
  intros Hnd. rewrite map_app in Hnd. simpl in Hnd.
  apply NoDup_remove_2 in Hnd.
  split; intros n Hn Heq; apply Hnd; apply in_or_app; [left|right];
    rewrite <- Heq; apply in_map; exact Hn.
Qed.

(** The original index is the number of element siblings in front of the
    dragged node. *)
Lemma findIndex_loop_at (dragged : DomNode) (before after : list DomNode) :
  isElement dragged = true ->
  NoDup (map node_id (before ++ dragged :: after)) ->
  findIndex_loop dragged (before ++ dragged :: after) 0 0 =
  length (filter isElement before).
Proof.
  intros Hel Hnd.
  destruct (NoDup_siblings dragged before after Hnd) as [Hb Ha].
  rewrite findIndex_loop_before by exact Hb.
  simpl. rewrite Hel, same_node_refl.
  rewrite findIndex_loop_others by exact Ha. lia.
Qed.

(** ** Zero displacement *)

Lemma scanDown_skip (l1 l2 : list OtherNode) (d : Q) :
  (forall o, In o l1 -> ~ pos o < d) ->
  scanDown (l1 ++ l2) d = scanDown l2 d.
Proof.
  induction l1 as [|o l1 IH]; intros H; simpl; [reflexivity|].
  case_Qltb (pos o) d.
  - exfalso. apply (H o); [left; reflexivity | assumption].
  - apply IH. intros o' Ho'. apply H. right. assumption.
Qed.

Lemma scanDown_hit (l : list OtherNode) (d : Q) :
  (forall o, In o l -> pos o < d) ->
  scanDown l d = length l.
Proof.
  destruct l as [|o l]; intros H; simpl; [reflexivity|].
  case_Qltb (pos o) d; [reflexivity|].
  exfalso. apply E. apply H. left. reflexivity.
Qed.

(** With the siblings above on the negative side and the siblings below
    on the positive side, a displacement of zero splits the snapshot
    between them. *)
Lemma computeSpliceIndex_sides (above below : list OtherNode) (d : Q) :
  d == 0 ->
  (forall o, In o above -> pos o < 0) ->
  (forall o, In o below -> 0 < pos o) ->
  computeSpliceIndex (above ++ below) d = length above.
Proof.
  intros Hd Ha Hb. unfold computeSpliceIndex.
  case_Qltb d 0; [lra|].
  rewrite rev_app_distr, scanDown_skip.
  - rewrite scanDown_hit, length_rev; [reflexivity|].
    intros o Ho. apply in_rev in Ho. specialize (Ha o Ho). lra.
  - intros o Ho. apply in_rev in Ho. specialize (Hb o Ho). lra.
Qed.

Lemma snapshot_split (dragged : DomNode) (zero : Q) (before after : list DomNode) :
  NoDup (map node_id (before ++ dragged :: after)) ->
  buildOtherNodes dragged zero (before ++ dragged :: after) =
  map (snapshotEntry zero) (filter isElement before) ++
  map (snapshotEntry zero) (filter isElement after).
Proof.
  intros Hnd. destruct (NoDup_siblings dragged before after Hnd) as [Hb Ha].
  rewrite buildOtherNodes_app, buildOtherNodes_dragged.
  rewrite !buildOtherNodes_others by assumption. reflexivity.
Qed.

(** The payload for a drop at displacement zero: the dragged node goes
    back to where it was. *)
Lemma reorderDetail_zero (dragged : DomNode) (zero d : Q)
    (before after : list DomNode) :
  isElement dragged = true ->
  NoDup (map node_id (before ++ dragged :: after)) ->
  d == 0 ->
  (forall n, In n before -> isElement n = true -> computePos zero n < 0) ->
  (forall n, In n after -> isElement n = true -> 0 < computePos zero n) ->
  reorderDetail (buildOtherNodes dragged zero (before ++ dragged :: after))
                (findIndex_loop dragged (before ++ dragged :: after) 0 0) d =
  mkDetail (length (filter isElement before))
           (length (filter isElement before))
           (hd_error (filter isElement after)).
Proof.
  intros Hel Hnd Hd Hb Ha.
  rewrite findIndex_loop_at by assumption.
  rewrite snapshot_split by assumption.
  unfold reorderDetail.
  rewrite computeSpliceIndex_sides; try assumption.
  - rewrite length_map. f_equal.
    rewrite nth_error_app2 by (rewrite length_map; lia).
    rewrite length_map, Nat.sub_diag.
    destruct (filter isElement after); reflexivity.
  - intros o Ho. apply in_map_iff in Ho as [n [<- Hn]].
    apply filter_In in Hn as [Hn He]. simpl. auto.
  - intros o Ho. apply in_map_iff in Ho as [n [<- Hn]].
    apply filter_In in Hn as [Hn He]. simpl. auto.
Qed.

(** ** Running the methods *)

Ltac split_all := repeat match goal with |- _ /\ _ => split end.

Ltac unfold_m :=
  unfold bind, ret, gets, modify, emit, deref, throw, alloc,
    setTimeout, clearTimeout, dispatch.

Lemma extends_refl (tr : list Effect) : extends tr tr.
Proof. exists []. reflexivity. Qed.

Lemma extends_cons (tr tr' : list Effect) (ef : Effect) :
  extends tr tr' -> extends tr (ef :: tr').
Proof. intros [l ->]. exists (ef :: l). reflexivity. Qed.

Lemma extends_app (tr tr' l : list Effect) :
  extends tr tr' -> extends tr (l ++ tr').
Proof. intros [l' ->]. exists (l ++ l'). apply app_assoc. Qed.

Lemma extends_trans (tr1 tr2 tr3 : list Effect) :
  extends tr1 tr2 -> extends tr2 tr3 -> extends tr1 tr3.
Proof. intros [l1 ->] [l2 ->]. exists (l2 ++ l1). apply app_assoc. Qed.

Ltac solve_extends :=
  repeat first [ apply extends_cons | apply extends_app ]; apply extends_refl.

Lemma emits_eq (efs : list Effect) :
  forall e, emits efs e = Ok (tt, set_trace (rev efs ++ trace e) e).
Proof.
  induction efs as [|ef efs IH]; intro e; simpl.
  - destruct e; reflexivity.
  - unfold_m. cbn. rewrite IH. simpl. rewrite <- app_assoc. reflexivity.
Qed.

Lemma dispatched_app (l1 l2 : list Effect) :
  dispatched (l1 ++ l2) = dispatched l1 ++ dispatched l2.
Proof. apply flat_map_app. Qed.

Lemma dispatched_none (l : list Effect) :
  (forall ef, In ef l -> forall n name d, ef <> Dispatch n name d) ->
  dispatched l = [].
Proof.
  induction l as [|ef l IH]; intros H; simpl; [reflexivity|].
  rewrite IH by (intros; apply H; right; assumption).
  destruct ef; try reflexivity.
  exfalso. eapply H; [left; reflexivity | reflexivity].
Qed.

Lemma siblingStyles_quiet (dragged : DomNode) (oi : nat) (nodes : list DomNode) :
  forall i, dispatched (rev (siblingStyles dragged oi nodes i)) = [].
Proof.
  intros i. apply dispatched_none. intros ef Hin. apply in_rev in Hin.
  revert i Hin. induction nodes as [|n nodes IH]; intros i Hin; simpl in Hin.
  - contradiction.
  - destruct (negb (isElement n) || same_node n dragged); [eauto|].
    destruct Hin as [<-|Hin]; [discriminate|].
    apply in_app_or in Hin as [Hin|Hin]; [|eauto].
    destruct (Nat.ltb oi i); simpl in Hin; [|contradiction].
    destruct Hin as [<-|[]]. discriminate.
Qed.

Lemma restoreSibling_quiet (others : list OtherNode) :
  dispatched (rev (flat_map restoreSibling others)) = [].
Proof.
  apply dispatched_none. intros ef Hin. apply in_rev in Hin.
  apply in_flat_map in Hin as [o [_ Hin]].
  simpl in Hin. intuition (subst; discriminate).
Qed.

(** The idle constructor always returns, with a new idle object; it ends
    the session and touches neither the active state, the timers nor the
    listeners. *)
Lemma idleStateInit_runs (e : Slip) :
  exists e',
    idleStateInit e = Ok (mkState (nextRef e) None IdleState, e') /\
    state e' = state e /\ target e' = None /\
    nextRef e' = S (nextRef e) /\ timers e' = timers e /\
    samePointer e e' /\
    dispatched (trace e') = dispatched (trace e) /\
    extends (trace e) (trace e').
Proof.
  destruct e as [st tg ut mh sp lp pp cps w nr nt ts tr].
  unfold idleStateInit, removeMouseHandlers, samePointer. unfold_m. simpl.
  destruct mh, tg; simpl; eexists; (split; [reflexivity|]); simpl;
    split_all; try reflexivity; solve_extends.
Qed.

Lemma in_drop_timer (id : nat) (ts : list Timer) (t : Timer) :
  In t (drop_timer id ts) -> In t ts /\ timer_id t <> id.
Proof.
  unfold drop_timer. intros H. apply filter_In in H as [H1 H2].
  split; [assumption|]. apply negb_true_iff, Nat.eqb_neq in H2. assumption.
Qed.

(** Leaving a state returns (in the reorder state, as long as the session
    is there), keeps the active state object, the session and the pointer
    data, dispatches nothing, and arms no hold timer; the hold timer of an
    undecided state is cleared. *)
Lemma leaveState_runs (s : State) (e : Slip) :
  (forall oi others mot, body s = ReorderState oi others mot -> target e <> None) ->
  exists e',
    leaveState s e = Ok (tt, e') /\
    state e' = state e /\ target e' = target e /\
    nextRef e' = nextRef e /\ samePointer e e' /\
    dispatched (trace e') = dispatched (trace e) /\
    extends (trace e) (trace e') /\
    (forall t, In t (timers e') -> timer_cb t = HoldTimer ->
               In t (timers e) /\
               forall id, body s = UndecidedState (Some id) -> timer_id t <> id).
Proof.
  intros Htg.
  destruct e as [st tg ut mh sp lp pp cps w nr nt ts tr].
  unfold leaveState, samePointer.
  destruct (body s) as [|holdTimer|oi others mot] eqn:Eb.
  - eexists. split; [reflexivity|]. simpl. split_all; try reflexivity.
    + solve_extends.
    + intros t Hin Hcb. split; [assumption | discriminate].
  - unfold_m. simpl. eexists. split; [reflexivity|]. simpl.
    split_all; try reflexivity; [solve_extends|].
    intros t Hin Hcb. destruct holdTimer as [id|].
    + apply in_drop_timer in Hin as [Hin Hid]. split; [assumption|].
      intros id' [= <-]. assumption.
    + split; [assumption | discriminate].
  - specialize (Htg oi others mot eq_refl). simpl in Htg.
    destruct tg as [tg|]; [|congruence].
    unfold animateToZero. unfold_m.
    destruct mot as [id|]; cbn; rewrite emits_eq; cbn;
      (eexists; split; [reflexivity|]); simpl;
      rewrite dispatched_app, restoreSibling_quiet; simpl;
      split_all; try reflexivity; try solve_extends; intros t Hin Hcb;
      (split; [|discriminate]);
      apply in_app_or in Hin as [Hin|[<-|[]]]; try discriminate;
      try (apply in_drop_timer in Hin); tauto.
Qed.

Lemma same_state_refl (a : option State) : same_state a a = true.
Proof. destruct a; simpl; [apply Nat.eqb_refl | reflexivity]. Qed.

(** A request for the constructor of the active state returns at once. *)
Lemma setState_same (c : Ctor) (e : Slip) (s : State) :
  state e = Some s -> has_ctor s c = true ->
  setState c e = Ok (tt, e).
Proof.
  intros Hs Hc. unfold setState, setStateTo. unfold_m. rewrite Hs, Hc. reflexivity.
Qed.

Lemma has_ctor_idle (c : Ctor) (r : nat) (b : StateBody) :
  has_ctor (mkState r (Some c) b) c = true.
Proof. unfold has_ctor. simpl. destruct c; reflexivity. Qed.

(** From any other state, [setState(idle)] leaves that state, runs the
    idle constructor and commits its object. *)
Lemma setState_idle_from (e : Slip) :
  consistent e ->
  (forall s, state e = Some s -> has_ctor s idle = false) ->
  exists e',
    setState idle e = Ok (tt, e') /\
    state e' = Some (mkState (nextRef e) (Some idle) IdleState) /\
    target e' = None /\
    nextRef e' = S (nextRef e) /\ samePointer e e' /\
    dispatched (trace e') = dispatched (trace e) /\
    extends (trace e) (trace e') /\
    (forall t, In t (timers e') -> timer_cb t = HoldTimer ->
               In t (timers e) /\
               forall s id, state e = Some s -> body s = UndecidedState (Some id) ->
                            timer_id t <> id).
Proof.
  intros Hc Hn.
  assert (forall e1, state e1 = state e -> nextRef e1 = nextRef e ->
                     samePointer e e1 ->
                     dispatched (trace e1) = dispatched (trace e) ->
                     extends (trace e) (trace e1) ->
            exists e', enterState idle idleStateInit e1 = Ok (tt, e') /\
              state e' = Some (mkState (nextRef e) (Some idle) IdleState) /\
              target e' = None /\ nextRef e' = S (nextRef e) /\ samePointer e e' /\
              dispatched (trace e') = dispatched (trace e) /\
              extends (trace e) (trace e') /\
              timers e' = timers e1) as Henter.
  { intros e1 Hs1 Hr1 Hp1 Hd1 Hx1.
    destruct (idleStateInit_runs e1)
      as [e2 (Hrun & Hs2 & Ht2 & Hr2 & Hti2 & Hp2 & Hd2 & Hx2)].
    unfold enterState. unfold_m. rewrite Hrun. cbn. rewrite Hs2, same_state_refl.
    eexists. split; [reflexivity|].
    pose proof (extends_trans _ _ _ Hx1 Hx2) as Hx.
    destruct e2; simpl in *. unfold samePointer in *. simpl in *.
    rewrite Hr1. intuition congruence. }
  unfold setState, setStateTo. unfold_m.
  destruct (state e) as [s|] eqn:Es.
  - rewrite (Hn s eq_refl).
    destruct (leaveState_runs s e)
      as [e1 (Hrun & Hs1 & Ht1 & Hr1 & Hp1 & Hd1 & Hx1 & Hti1)].
    { intros oi others mot Hb. eapply Hc; eauto. }
    rewrite Hrun. rewrite Es in Hs1.
    destruct (Henter e1 Hs1 Hr1 Hp1 Hd1 Hx1)
      as [e' (Hrun' & H1 & H2 & H3 & H4 & H5 & H6 & H7)].
    exists e'. split; [exact Hrun'|]. split_all; try assumption.
    intros t Hin Hcb. rewrite H7 in Hin. destruct (Hti1 t Hin Hcb) as [Ha Hb].
    split; [assumption|]. intros s' id [= <-] Hbody. auto.
  - assert (samePointer e e) as Hp0 by (unfold samePointer; tauto).
    destruct (Henter e Es eq_refl Hp0 eq_refl (extends_refl _))
      as [e' (Hrun' & H1 & H2 & H3 & H4 & H5 & H6 & H7)].
    exists e'. split; [exact Hrun'|]. split_all; try assumption.
    intros t Hin Hcb. rewrite H7 in Hin. split; [assumption | discriminate].
Qed.

(** C9.  Calling [cancel()] twice is calling it once: the first call
    returns (a reorder state being active only during a session), and the
    second call returns the engine exactly as the first one left it, log of
    effects, timers and allocated objects included; it runs neither the
    idle constructor nor a [leaveState] handler. *)
Theorem cancel_twice (e : Slip) :
  consistent e ->
  exists e1, cancel e = Ok (tt, e1) /\ cancel e1 = Ok (tt, e1) /\
             (cancel ;; cancel) e = cancel e.
Proof.
  intros Hc.
  assert (exists e1, cancel e = Ok (tt, e1) /\ cancel e1 = Ok (tt, e1)) as [e1 [H1 H2]].
  { unfold cancel.
    destruct (state e) as [s|] eqn:Es;
      [destruct (has_ctor s idle) eqn:Ei|].
    - exists e. split; apply (setState_same idle e s Es Ei).
    - destruct (setState_idle_from e Hc) as [e1 (Hrun & Hs & _)].
      { intros s' Hs'. congruence. }
      exists e1. split; [assumption|].
      apply (setState_same idle e1 _ Hs). apply has_ctor_idle.
    - destruct (setState_idle_from e Hc) as [e1 (Hrun & Hs & _)].
      { intros s' Hs'. congruence. }
      exists e1. split; [assumption|].
      apply (setState_same idle e1 _ Hs). apply has_ctor_idle. }
  exists e1. split; [assumption|]. split; [assumption|].
  unfold bind. rewrite H1. assumption.
Qed.

Lemma updatePosition_idle (p : Point) (e : Slip) :
  target e = None -> updatePosition p e = Ok (tt, e).
Proof.
  intros Ht. unfold updatePosition. rewrite Ht. reflexivity.
Qed.

(** C10.  A move event without a session: [updatePosition] returns at
    once, with the engine (active state, position samples, timers, log of
    effects) untouched and without raising. *)
Theorem updatePosition_without_session (p : Point) (e : Slip) :
  target e = None ->
  updatePosition p e = Ok (tt, e) /\
  onMouseMove p e = Ok (tt, e).
Proof.
  intros Ht. split; apply updatePosition_idle; exact Ht.
Qed.

(** ** Entering the reorder state *)

Lemma reorderStateInit_runs (e : Slip) (tg : Target) :
  target e = Some tg ->
  exists e',
    reorderStateInit e =
      Ok (mkState (nextRef e) None (snapshotOf tg (childNodes (world e))), e') /\
    state e' = state e /\ target e' = Some (measured tg) /\
    nextRef e' = S (nextRef e) /\ timers e' = timers e /\
    nextTimer e' = nextTimer e /\
    samePointer e e' /\
    dispatched (trace e') = dispatched (trace e) /\
    extends (trace e) (trace e').
Proof.
  intros Ht.
  destruct e as [st tg0 ut mh sp lp pp cps w nr nt ts tr]. simpl in Ht. subst tg0.
  destruct w as [nodes scroll verdict shadow cls].
  unfold reorderStateInit, measureTarget, samePointer, snapshotOf. unfold_m. cbn.
  rewrite emits_eq. cbn.
  destruct cls, shadow; cbn;
    (eexists; split; [reflexivity|]); simpl;
    rewrite dispatched_app, siblingStyles_quiet;
    split_all; try reflexivity; solve_extends.
Qed.

(** From a state other than reorder and with a session, [setState(reorder)]
    commits the object the reorder constructor returns. *)
Lemma setState_reorder_from (e : Slip) (tg : Target) :
  target e = Some tg ->
  (forall s, state e = Some s -> has_ctor s reorder = false) ->
  exists e',
    setState reorder e = Ok (tt, e') /\
    state e' = Some (mkState (nextRef e) (Some reorder)
                             (snapshotOf tg (childNodes (world e)))) /\
    target e' = Some (measured tg) /\
    nextRef e' = S (nextRef e) /\ samePointer e e' /\
    dispatched (trace e') = dispatched (trace e) /\
    extends (trace e) (trace e') /\
    (forall t, In t (timers e') -> timer_cb t = HoldTimer ->
               In t (timers e) /\
               forall s id, state e = Some s -> body s = UndecidedState (Some id) ->
                            timer_id t <> id).
Proof.
  intros Ht Hn.
  assert (forall e1, state e1 = state e -> target e1 = Some tg ->
                     nextRef e1 = nextRef e -> samePointer e e1 ->
                     dispatched (trace e1) = dispatched (trace e) ->
                     extends (trace e) (trace e1) ->
            exists e', enterState reorder reorderStateInit e1 = Ok (tt, e') /\
              state e' = Some (mkState (nextRef e) (Some reorder)
                                       (snapshotOf tg (childNodes (world e)))) /\
              target e' = Some (measured tg) /\
              nextRef e' = S (nextRef e) /\ samePointer e e' /\
              dispatched (trace e') = dispatched (trace e) /\
              extends (trace e) (trace e') /\
              timers e' = timers e1) as Henter.
  { intros e1 Hs1 Ht1 Hr1 Hp1 Hd1 Hx1.
    destruct (reorderStateInit_runs e1 tg Ht1)
      as [e2 (Hrun & Hs2 & Ht2 & Hr2 & Hti2 & Hnt2 & Hp2 & Hd2 & Hx2)].
    unfold enterState. unfold_m. rewrite Hrun. cbn. rewrite Hs2, same_state_refl.
    eexists. split; [reflexivity|].
    pose proof (extends_trans _ _ _ Hx1 Hx2) as Hx.
    assert (world e1 = world e) as Hw by (unfold samePointer in Hp1; tauto).
    destruct e2; simpl in *. unfold samePointer in *. simpl in *.
    rewrite Hr1, Hw. intuition congruence. }
  unfold setState, setStateTo. unfold_m.
  destruct (state e) as [s|] eqn:Es.
  - rewrite (Hn s eq_refl).
    destruct (leaveState_runs s e)
      as [e1 (Hrun & Hs1 & Ht1 & Hr1 & Hp1 & Hd1 & Hx1 & Hti1)].
    { intros oi others mot Hb. congruence. }
    rewrite Hrun. rewrite Es in Hs1. rewrite Ht in Ht1.
    destruct (Henter e1 Hs1 Ht1 Hr1 Hp1 Hd1 Hx1)
      as [e' (Hrun' & H1 & H2 & H3 & H4 & H5 & H6 & H7)].
    exists e'. split; [exact Hrun'|]. split_all; try assumption.
    intros t Hin Hcb. rewrite H7 in Hin. destruct (Hti1 t Hin Hcb) as [Ha Hb].
    split; [assumption|]. intros s' id [= <-] Hbody. auto.
  - assert (samePointer e e) as Hp0 by (unfold samePointer; tauto).
    destruct (Henter e Es Ht eq_refl Hp0 eq_refl (extends_refl _))
      as [e' (Hrun' & H1 & H2 & H3 & H4 & H5 & H6 & H7)].
    exists e'. split; [exact Hrun'|]. split_all; try assumption.
    intros t Hin Hcb. rewrite H7 in Hin. split; [assumption | discriminate].
Qed.

(** ** Re-entrant transitions *)

(** C6.  When the constructor called by [setState(c)] returns and the
    active state is no longer the object it was just before the call
    (the constructor made a transition of its own), [setState(c)] returns
    the engine as the constructor left it: the inner transition's state
    stays.  Otherwise the constructor's own object is committed. *)
Theorem setState_reentrant (c : Ctor) (e e1 e2 : Slip) (obj : State) :
  reachesCtor c e e1 ->
  callCtor c e1 = Ok (obj, e2) ->
  (same_state (state e2) (state e1) = false -> setState c e = Ok (tt, e2)) /\
  (same_state (state e2) (state e1) = true ->
   setState c e = Ok (tt, set_state (Some (committed c obj)) e2)).
Proof.
  intros Hreach Hctor.
  assert (enterState c (callCtor c) e1 =
          if same_state (state e2) (state e1)
          then Ok (tt, set_state (Some (committed c obj)) e2)
          else Ok (tt, e2)) as Henter.
  { unfold enterState. unfold_m. rewrite Hctor.
    destruct (same_state (state e2) (state e1)); reflexivity. }
  assert (setState c e = enterState c (callCtor c) e1) as Hset.
  { unfold setState, setStateTo, reachesCtor in *. unfold_m.
    destruct (state e) as [s|].
    - destruct Hreach as [Hguard Hleave]. rewrite Hguard, Hleave. reflexivity.
    - subst e1. reflexivity. }
  rewrite Hset, Henter.
  split; intros ->; reflexivity.
Qed.

(** ** Entering the undecided state *)

Lemma undecided_entry (e : Slip) (tg : Target) :
  target e = Some tg -> atRest e -> fresh e ->
  exists e',
    setState undecided e = Ok (tt, e') /\
    if listeners (world e) (originalTarget tg) ev_beforewait then
      state e' = Some (mkState (nextRef e) (Some undecided)
                               (UndecidedState (Some (nextTimer e)))) /\
      timers e' = timers e ++ [mkTimer (nextTimer e) HoldTimer 300] /\
      dispatched (trace e') =
        (originalTarget tg, ev_beforewait, None) :: dispatched (trace e)
    else
      dispatched (trace e') =
        (originalTarget tg, ev_beforereorder, None)
        :: (originalTarget tg, ev_beforewait, None) :: dispatched (trace e) /\
      (forall t, In t (timers e') -> timer_cb t = HoldTimer -> In t (timers e)) /\
      if listeners (world e) (originalTarget tg) ev_beforereorder then
        state e' = Some (mkState (nextRef e) (Some reorder)
                                 (snapshotOf tg (childNodes (world e))))
      else
        state e' = Some (mkState (nextRef e) (Some undecided)
                                 (UndecidedState None)).
Proof.
  intros Ht Hrest Hfresh.
  assert (setState undecided e = enterState undecided (callCtor undecided) e) as ->.
  { unfold setState, setStateTo. unfold_m.
    destruct (state e) as [s|] eqn:Es; [|reflexivity].
    destruct (Hrest s Es) as [Hc Hb].
    unfold has_ctor, leaveState. rewrite Hc, Hb. reflexivity. }
  destruct e as [st tg0 ut mh sp lp pp cps w nr nt ts tr]. simpl in Ht. subst tg0.
  unfold enterState, callCtor, undecidedStateInit, measureTarget. unfold_m.
  cbn -[setStateTo reorderStateInit].
  destruct (listeners w (originalTarget tg) ev_beforewait) eqn:Ewait;
    cbn -[setStateTo reorderStateInit].
  - rewrite same_state_refl. eexists. split; [reflexivity|]. simpl.
    split_all; reflexivity.
  - destruct (listeners w (originalTarget tg) ev_beforereorder) eqn:Ereorder;
      cbn -[setStateTo reorderStateInit].
    + match goal with
      | |- context [setStateTo reorder reorderStateInit ?mid] =>
          destruct (setState_reorder_from mid (measured tg) eq_refl)
            as [e3 (Hrun & Hs3 & Ht3 & Hr3 & Hp3 & Hd3 & Hx3 & Hti3)]
      end.
      { simpl. intros s Hs. destruct (Hrest s Hs) as [Hc _].
        unfold has_ctor. rewrite Hc. reflexivity. }
      unfold setState in Hrun. simpl callCtor in Hrun. rewrite Hrun.
      cbn. rewrite Hs3. simpl in *.
      assert (match st with Some s0 => Nat.eqb nr (ref s0) | None => false end
              = false) as ->.
      { destruct st as [s0|]; [|reflexivity].
        apply Nat.eqb_neq. specialize (Hfresh s0 eq_refl). simpl in Hfresh. lia. }
      eexists. split; [reflexivity|]. simpl. rewrite Hs3, Hd3.
      split_all; try reflexivity.
      intros t Hin Hcb. apply (Hti3 t Hin Hcb).
    + rewrite same_state_refl. eexists. split; [reflexivity|]. simpl.
      split_all; try reflexivity. tauto.
Qed.

(** ** The hold timer *)

Lemma holdTimer_fires (e : Slip) (s : State) (tg : Target) (move : Point) :
  state e = Some s -> ctor s = Some undecided ->
  target e = Some tg ->
  getAbsoluteMovement e = Ok (move, e) ->
  exists e',
    holdTimerFired e = Ok (tt, e') /\
    if canPreventScrolling e && Qltb (x move) 15 && Qltb (y move) 25 then
      dispatched (trace e') =
        (originalTarget tg, ev_beforereorder, None) :: dispatched (trace e) /\
      if listeners (world e) (originalTarget tg) ev_beforereorder then
        state e' = Some (mkState (nextRef e) (Some reorder)
                                 (snapshotOf tg (childNodes (world e))))
      else state e' = state e
    else e' = e.
Proof.
  intros Hs Hc Ht Hmove.
  unfold holdTimerFired. unfold bind at 1. rewrite Hmove.
  unfold bind at 1. unfold gets at 1.
  destruct (canPreventScrolling e && Qltb (x move) 15 && Qltb (y move) 25).
  - unfold_m. rewrite Ht. cbn -[setState].
    destruct (listeners (world e) (originalTarget tg) ev_beforereorder).
    + match goal with
      | |- context [setState reorder ?mid] =>
          destruct (setState_reorder_from mid tg Ht)
            as [e3 (Hrun & Hs3 & Ht3 & Hr3 & Hp3 & Hd3 & Hx3 & Hti3)]
      end.
      { cbn. intros s' Hs'. rewrite Hs in Hs'. injection Hs' as <-.
        unfold has_ctor. rewrite Hc. reflexivity. }
      exists e3. split; [exact Hrun|]. split; assumption.
    + eexists. split; [reflexivity|]. split; reflexivity.
  - exists e. split; reflexivity.
Qed.

(** Entering the undecided state when no gesture is under way.  When
    a listener rejects before-wait, before-reorder is dispatched at once to
    the original event target and no hold timer is armed; when that is not
    rejected the engine is in the reorder state afterwards, else in the
    undecided state.  When before-wait is not rejected, nothing else is
    dispatched and a hold timer of 300ms is armed.  The hold timer, when it
    fires in the undecided state, dispatches before-reorder (and on
    acceptance enters reorder) when scrolling can still be prevented and
    the absolute movement is under 15px horizontally and 25px vertically;
    otherwise it does nothing. *)
Theorem undecided_entry_and_hold (e : Slip) (tg : Target) :
  target e = Some tg ->
  let ot := originalTarget tg in
  let verdict := listeners (world e) ot in
  (atRest e -> fresh e ->
   exists e',
     setState undecided e = Ok (tt, e') /\
     (verdict ev_beforewait = false ->
      dispatched (trace e') =
        (ot, ev_beforereorder, None) :: (ot, ev_beforewait, None)
        :: dispatched (trace e) /\
      (forall t, In t (timers e') -> timer_cb t = HoldTimer -> In t (timers e)) /\
      (verdict ev_beforereorder = true -> inState reorder e') /\
      (verdict ev_beforereorder = false -> inState undecided e')) /\
     (verdict ev_beforewait = true ->
      inState undecided e' /\
      timers e' = timers e ++ [mkTimer (nextTimer e) HoldTimer 300] /\
      dispatched (trace e') = (ot, ev_beforewait, None) :: dispatched (trace e))) /\
  (forall move,
   inState undecided e ->
   getAbsoluteMovement e = Ok (move, e) ->
   exists e',
     runCallback HoldTimer e = Ok (tt, e') /\
     (canPreventScrolling e = true -> x move < 15 -> y move < 25 ->
      dispatched (trace e') = (ot, ev_beforereorder, None) :: dispatched (trace e) /\
      (verdict ev_beforereorder = true -> inState reorder e') /\
      (verdict ev_beforereorder = false -> state e' = state e)) /\
     (~ (canPreventScrolling e = true /\ x move < 15 /\ y move < 25) -> e' = e)).
Proof.
  intros Ht ot verdict. subst ot verdict. split.
  - intros Hrest Hfresh.
    destruct (undecided_entry e tg Ht Hrest Hfresh) as [e' [Hrun Hcases]].
    exists e'. split; [exact Hrun|].
    destruct (listeners (world e) (originalTarget tg) ev_beforewait).
    + split; [discriminate|]. intros _.
      destruct Hcases as (Hs & Hti & Hd).
      split_all; try assumption. eexists. split; [exact Hs|reflexivity].
    + split; [|discriminate]. intros _.
      destruct Hcases as (Hd & Hti & Hs).
      split_all; try assumption;
        destruct (listeners (world e) (originalTarget tg) ev_beforereorder);
        try discriminate; intros _; eexists; (split; [exact Hs|reflexivity]).
  - intros move [s [Hs Hc]] Hmove.
    destruct (holdTimer_fires e s tg move Hs Hc Ht Hmove) as [e' [Hrun Hcases]].
    exists e'. split; [exact Hrun|].
    destruct (canPreventScrolling e) eqn:Ecan; simpl in Hcases.
    + case_Qltb (x move) 15; simpl in Hcases.
      * case_Qltb (y move) 25.
        -- split; [|tauto]. intros _ _ _.
           destruct Hcases as [Hd Hst]. split; [assumption|].
           destruct (listeners (world e) (originalTarget tg) ev_beforereorder).
           ++ split; [|discriminate]. intros _. eexists. split; [exact Hst|reflexivity].
           ++ split; [discriminate|]. intros _. exact Hst.
        -- split; [tauto|]. intros _. exact Hcases.
      * split; [tauto|]. intros _. exact Hcases.
    + split; [discriminate|]. intros _. exact Hcases.
Qed.

(** C8, where the code departs from it.  A pointer-down can arrive while
    a drag is under way: a touch on a device that also has a mouse, or a
    second mouse-down after a release the page never saw.  It enters the
    undecided state from the reorder state.  Here the listeners reject
    before-wait and accept before-reorder; a mouse-down starts a drag at
    once, and a touch-start follows.  Before-wait and before-reorder are
    dispatched again, before-reorder is accepted, and
    [this.setState(this.states.reorder)] is called; but [this.state] is
    still the reorder state being left, so the call returns at its test
    [this.state.ctor === newStateCtor].  The engine ends in the undecided
    state and not in the reorder state, without a hold timer. *)
Theorem undecided_entry_during_drag :
  let ot := a_node (e_target sample_down) in
  exists e0 e1 e2 r,
    construct (sample_world skip_wait) = Ok (tt, e0) /\
    deliver (MouseDown 0 sample_down) e0 = Ok (tt, e1) /\
    inState reorder e1 /\
    deliver (TouchStart 0 sample_down) e1 = Ok (tt, e2) /\
    dispatched (trace e2) =
      (ot, ev_beforereorder, None) :: (ot, ev_beforewait, None)
      :: dispatched (trace e1) /\
    listeners (world e2) ot ev_beforewait = false /\
    listeners (world e2) ot ev_beforereorder = true /\
    state e2 = Some (mkState r (Some undecided) (UndecidedState None)) /\
    ~ inState reorder e2 /\
    (forall t, In t (timers e2) -> timer_cb t <> HoldTimer).
Proof.
  intros ot. subst ot.
  eexists _, _, _, _.
  split; [vm_compute; reflexivity|].
  split; [vm_compute; reflexivity|].
  split; [eexists; split; vm_compute; reflexivity|].
  split; [vm_compute; reflexivity|].
  split; [vm_compute; reflexivity|].
  split; [reflexivity|]. split; [reflexivity|].
  split; [vm_compute; reflexivity|].
  split.
  - intros [s [Hs Hc]]. vm_compute in Hs. injection Hs as <-. discriminate Hc.
  - intros t Hin Hcb. vm_compute in Hin.
    repeat (destruct Hin as [<-|Hin]; [discriminate Hcb|]). exact Hin.
Qed.

(** ** After a gesture was abandoned *)

Lemma quiescent_cancel (e : Slip) : quiescent e -> cancel e = Ok (tt, e).
Proof.
  intros [[r Hs] _]. apply (setState_same idle e _ Hs). apply has_ctor_idle.
Qed.

Lemma quiescent_endGesture (e : Slip) : quiescent e -> endGesture e = Ok (tt, e).
Proof.
  intros [[r Hs] _]. unfold endGesture. unfold_m. rewrite Hs. reflexivity.
Qed.

Lemma animateDone_runs (n : DomNode) (e : Slip) :
  exists tr, animateDone n e = Ok (tt, set_trace tr e) /\
             dispatched tr = dispatched (trace e).
Proof.
  destruct e as [st tg ut mh sp lp pp cps w nr nt ts tr].
  destruct w as [nodes scroll verdict shadow cls].
  unfold animateDone. unfold_m. cbn.
  destruct cls; cbn; eexists; split; reflexivity.
Qed.

(** Until the next pointer-down nothing moves a quiescent engine out of
    the idle state, and nothing is dispatched. *)
Lemma handle_quiescent (i : Input) (e : Slip) :
  quiescent e ->
  exists e', handle i e = Ok (tt, e') /\ quiescent e' /\
             dispatched (trace e') = dispatched (trace e).
Proof.
  intros Hq. pose proof Hq as [[r Hs] [Ht Hti]].
  destruct i as [p|p|button|touches|atDocument| |id]; simpl.
  - exists e. unfold onMouseMove.
    rewrite updatePosition_idle by assumption. auto.
  - unfold onTouchMove. unfold bind.
    rewrite updatePosition_idle by assumption.
    eexists. split; [reflexivity|]. split; [|reflexivity]. exact Hq.
  - unfold onMouseUp. unfold bind, gets.
    destruct (usingTouch e || negb (button =? 0)%nat).
    + exists e. auto.
    + exists e. rewrite quiescent_endGesture by assumption. auto.
  - unfold onTouchEnd. destruct (1 <? touches)%nat.
    + exists e. rewrite quiescent_cancel by assumption. auto.
    + exists e. rewrite quiescent_endGesture by assumption. auto.
  - unfold onMouseLeave. unfold_m. destruct (usingTouch e); [exists e; auto|].
    destruct atDocument; [|exists e; auto].
    rewrite Hs. simpl. exists e. auto.
  - exists e. rewrite quiescent_cancel by assumption. auto.
  - unfold fireTimer. unfold bind at 1. unfold gets at 1.
    destruct (find (fun t => (timer_id t =? id)%nat) (timers e)) as [t|] eqn:Ef;
      [|exists e; auto].
    apply find_some in Ef as [Hin _]. specialize (Hti t Hin).
    set (e0 := set_timers (nextTimer e) (drop_timer id (timers e)) e).
    assert (quiescent e0) as Hq0.
    { split; [exists r; exact Hs|]. split; [exact Ht|].
      intros t' Hin'. simpl in Hin'. apply in_drop_timer in Hin' as [Hin' _].
      destruct Hq as [_ [_ Hq]]. auto. }
    unfold bind, modify. fold e0.
    destruct (timer_cb t) as [|owner|n]; [congruence| |]; simpl.
    + unfold mouseOutsideTimerFired. unfold bind at 1. unfold gets at 1.
      change (state e0) with (state e). rewrite Hs.
      unfold set_mouseOutsideTimer. simpl.
      destruct (r =? owner)%nat; unfold bind, ret;
        rewrite quiescent_cancel by assumption; exists e0; auto.
    + destruct (animateDone_runs n e0) as [tr [Hrun Hd]].
      rewrite Hrun. eexists. split; [reflexivity|]. split; [|exact Hd].
      exact Hq0.
Qed.

Lemma run_quiescent (inputs : list Input) :
  forall e, quiescent e ->
  exists e', run inputs e = Ok (tt, e') /\ quiescent e' /\
             dispatched (trace e') = dispatched (trace e).
Proof.
  induction inputs as [|i inputs IH]; intros e Hq; simpl.
  - exists e. auto.
  - destruct (handle_quiescent i e Hq) as [e1 (Hrun & Hq1 & Hd1)].
    destruct (IH e1 Hq1) as [e2 (Hrun2 & Hq2 & Hd2)].
    exists e2. unfold bind. rewrite Hrun. split; [exact Hrun2|].
    split; [exact Hq2 | congruence].
Qed.

(** ** Moves in the undecided state *)

Lemma resample_runs (e : Slip) (latest previous : Point) :
  latestPosition e = Some latest -> previousPosition e = Some previous ->
  exists sp lp pp, resample e = Ok (tt, set_positions sp lp pp e).
Proof.
  intros Hl Hp. unfold resample. unfold_m. rewrite Hl, Hp.
  destruct (Qltb 100 (fsub (time latest) (time previous))).
  - eexists _, _, _. reflexivity.
  - exists (startPosition e), (latestPosition e), (previousPosition e).
    destruct e; reflexivity.
Qed.

Lemma updatePosition_undecided (p : Point) (e : Slip) (s : State) (tg : Target)
    (ht : option nat) :
  state e = Some s -> body s = UndecidedState ht -> target e = Some tg ->
  updatePosition p e =
  (r <- undecided_onMove ;;
   (if is_false r then emit PreventDefault else ret tt) ;;
   resample) (moved p e).
Proof.
  intros Hs Hb Ht. unfold updatePosition. rewrite Ht.
  unfold bind at 1. unfold modify at 1. fold (moved p e).
  unfold bind at 1. unfold deref at 1.
  change (state (moved p e)) with (state e). rewrite Hs.
  unfold has_onMove, call_onMove. rewrite Hb.
  unfold resample, bind. destruct (undecided_onMove (moved p e)) as [[r e1]|];
    [|reflexivity].
  destruct (is_false r); reflexivity.
Qed.

(** C7, as the code has it.  A move in the undecided state, [move] being
    the absolute movement [getAbsoluteMovement] computes: when the
    vertical movement exceeds 20px the engine goes to idle and ends the
    session, and until the next pointer-down no input or timer takes it
    out of idle or dispatches anything, before-reorder included.  When
    the horizontal movement exceeds 1.2 times the vertical one, by the
    test [move.x > move.y*1.2] on doubles with its rounded product, the
    handler returns [false] and [updatePosition] calls [preventDefault]
    on the event; the active state is left as it was when the vertical
    movement is at most 20px. *)
Theorem undecided_move (p : Point) (e : Slip) (s : State) (tg : Target)
    (ht : option nat) (previous move : Point) :
  state e = Some s -> ctor s = Some undecided -> body s = UndecidedState ht ->
  target e = Some tg ->
  previousPosition e = Some previous ->
  getAbsoluteMovement (moved p e) = Ok (move, moved p e) ->
  (forall t, In t (timers e) -> timer_cb t = HoldTimer -> ht = Some (timer_id t)) ->
  exists e',
    updatePosition p e = Ok (tt, e') /\
    (20 < y move ->
     inState idle e' /\ target e' = None /\
     forall inputs, exists e'',
       run inputs e' = Ok (tt, e'') /\ inState idle e'' /\
       dispatched (trace e'') = dispatched (trace e)) /\
    (fmul (y move) literal_1_2 < x move ->
     exists l, trace e' = PreventDefault :: l ++ trace e) /\
    (fmul (y move) literal_1_2 < x move -> ~ 20 < y move ->
     state e' = state e /\ trace e' = PreventDefault :: trace e).
Proof.
  intros Hs Hc Hb Ht Hp Hmove Hown.
  rewrite (updatePosition_undecided p e s tg ht Hs Hb Ht).
  unfold undecided_onMove. unfold bind at 1. unfold bind at 1.
  rewrite Hmove. unfold bind at 1.
  case_Qltb 20 (y move).
  - (* the gesture is abandoned *)
    destruct (setState_idle_from (moved p e))
      as [e1 (Hrun & Hs1 & Ht1 & Hr1 & Hp1 & Hd1 & Hx1 & Hti1)].
    { intros s' oi others mot Hs' Hb'. simpl in Hs'. congruence. }
    { intros s' Hs'. simpl in Hs'. rewrite Hs in Hs'. injection Hs' as <-.
      unfold has_ctor. rewrite Hc. reflexivity. }
    rewrite Hrun.
    assert (forall t, In t (timers e1) -> timer_cb t <> HoldTimer) as Hquiet.
    { intros t Hin Hcb. destruct (Hti1 t Hin Hcb) as [Hin0 Hne].
      simpl in Hin0. specialize (Hown t Hin0 Hcb). subst ht.
      apply (Hne s (timer_id t)); [exact Hs | exact Hb | reflexivity]. }
    destruct Hp1 as (_ & Hl1 & Hpp1 & _). simpl in Hl1, Hpp1.
    rewrite Hp in Hpp1.
    assert (forall tr, dispatched tr = dispatched (trace e) ->
                       extends (trace e) tr ->
              exists sp lp pp,
                resample (set_trace tr e1) =
                  Ok (tt, set_positions sp lp pp (set_trace tr e1)) /\
                quiescent (set_positions sp lp pp (set_trace tr e1))) as Hend.
    { intros tr Hd Hx.
      destruct (resample_runs (set_trace tr e1) p previous Hl1 Hpp1)
        as (sp & lp & pp & Hres).
      exists sp, lp, pp. split; [exact Hres|].
      split; [eexists; exact Hs1|]. split; [exact Ht1 | exact Hquiet]. }
    unfold ret at 1.
    case_Qltb (fmul (y move) literal_1_2) (x move); unfold ret, bind, emit, modify; simpl.
    + destruct (Hend (PreventDefault :: trace e1)) as (sp & lp & pp & Hres & Hq).
      { simpl. exact Hd1. }
      { apply extends_cons. exact Hx1. }
      rewrite Hres. eexists. split; [reflexivity|]. split_all.
      * intros _. split; [eexists; split; [exact Hs1 | reflexivity]|].
        split; [exact Ht1|]. intros inputs.
        destruct (run_quiescent inputs _ Hq) as [e2 (Hrun2 & [[r Hs2] _] & Hd2)].
        exists e2. split; [exact Hrun2|].
        split; [eexists; split; [exact Hs2 | reflexivity]|].
        rewrite Hd2. simpl. exact Hd1.
      * intros _. simpl. destruct Hx1 as [l Hl]. exists l. simpl in Hl.
        rewrite Hl. reflexivity.
      * intros _ Hno. contradiction.
    + destruct (Hend (trace e1) Hd1 Hx1) as (sp & lp & pp & Hres & Hq).
      replace (set_trace (trace e1) e1) with e1 in Hres, Hq by (destruct e1; reflexivity).
      rewrite Hres. eexists. split; [reflexivity|]. split_all.
      * intros _. split; [eexists; split; [exact Hs1 | reflexivity]|].
        split; [exact Ht1|]. intros inputs.
        destruct (run_quiescent inputs _ Hq) as [e2 (Hrun2 & [[r Hs2] _] & Hd2)].
        exists e2. split; [exact Hrun2|].
        split; [eexists; split; [exact Hs2 | reflexivity]|].
        rewrite Hd2. simpl. exact Hd1.
      * intros Hlt. contradiction.
      * intros Hlt. contradiction.
  - (* the vertical movement is within 20px *)
    unfold ret at 1.
    case_Qltb (fmul (y move) literal_1_2) (x move); unfold ret, bind, emit, modify; simpl.
    + destruct (resample_runs (set_trace (PreventDefault :: trace e) (moved p e))
                              p previous eq_refl Hp) as (sp & lp & pp & Hres).
      simpl in Hres. rewrite Hres. eexists. split; [reflexivity|]. split_all.
      * intros Hlt. contradiction.
      * intros _. exists []. reflexivity.
      * intros _ _. split; reflexivity.
    + destruct (resample_runs (moved p e) p previous eq_refl Hp)
        as (sp & lp & pp & Hres).
      rewrite Hres. eexists. split; [reflexivity|]. split_all.
      * intros Hlt. contradiction.
      * intros Hlt. contradiction.
      * intros Hlt. contradiction.
Qed.

(** ** The end of a drag *)

(** Releasing the pointer in the reorder state: the reorder event goes to
    the dragged node with the payload computed from the frozen snapshot
    and the total vertical movement, the engine returns to idle, and the
    default action of the event is prevented. *)
Lemma reorder_end_dispatches (e : Slip) (s : State) (tg : Target)
    (oi : nat) (others : list OtherNode) (mot : option nat) (move : Point) :
  state e = Some s -> ctor s = Some reorder ->
  body s = ReorderState oi others mot ->
  target e = Some tg ->
  getTotalMovement e = Ok (Some move, e) ->
  exists e',
    endGesture e = Ok (tt, e') /\
    dispatched (trace e') =
      (node tg, ev_reorder, Some (reorderDetail others oi (y move)))
      :: dispatched (trace e) /\
    inState idle e' /\
    hd_error (trace e') = Some PreventDefault.
Proof.
  intros Hs Hc Hb Ht Hmove.
  unfold endGesture. unfold bind at 1. unfold deref at 1. rewrite Hs.
  unfold has_onEnd, call_onEnd. rewrite Hb.
  unfold reorder_onEnd. unfold bind at 1. unfold bind at 1. rewrite Hmove.
  unfold bind at 1. unfold deref at 1. rewrite Ht.
  unfold bind at 1. unfold dispatch, emit, modify, gets, bind at 1.
  unfold bind at 1.
  match goal with
  | |- context [setState idle ?mid] =>
      destruct (setState_idle_from mid)
        as [e1 (Hrun & Hs1 & Ht1 & Hr1 & Hp1 & Hd1 & Hx1 & Hti1)]
  end.
  { intros s' oi' others' mot' _ _. simpl. congruence. }
  { simpl. intros s' Hs'. rewrite Hs in Hs'. injection Hs' as <-.
    unfold has_ctor. rewrite Hc. reflexivity. }
  rewrite Hrun. unfold ret, emit, modify. simpl.
  eexists. split; [reflexivity|]. simpl. split_all.
  - exact Hd1.
  - eexists. split; [exact Hs1 | reflexivity].
  - reflexivity.
Qed.

(** C2.  A drag that ends with total vertical movement zero, the siblings
    in front of the dragged node having negative [pos] and those behind it
    positive [pos]: the reorder event carries, as splice index, the
    original index of the dragged node among the element children, and as
    [insertBefore] the element that followed the dragged node, or [null]
    when there is none. *)
Theorem drop_at_zero (e : Slip) (s : State) (tg : Target)
    (before after : list DomNode) (mot : option nat) (move : Point) :
  let nodes := before ++ node tg :: after in
  let zero := zeroPoint (node tg) (measureHeight (node tg)) in
  let k := length (filter isElement before) in
  state e = Some s -> ctor s = Some reorder ->
  body s = snapshotWith tg nodes mot ->
  target e = Some tg ->
  isElement (node tg) = true ->
  NoDup (map node_id nodes) ->
  (forall n, In n before -> isElement n = true -> computePos zero n < 0) ->
  (forall n, In n after -> isElement n = true -> 0 < computePos zero n) ->
  getTotalMovement e = Ok (Some move, e) ->
  y move == 0 ->
  findIndex tg nodes = k /\
  exists e',
    endGesture e = Ok (tt, e') /\
    dispatched (trace e') =
      (node tg, ev_reorder, Some (mkDetail k k (hd_error (filter isElement after))))
      :: dispatched (trace e).
Proof.
  intros nodes zero k Hs Hc Hb Ht Hel Hnd Hbefore Hafter Hmove Hy.
  split; [apply findIndex_loop_at; assumption|].
  destruct (reorder_end_dispatches e s tg _ _ mot move Hs Hc Hb Ht Hmove)
    as [e' (Hrun & Hd & _)].
  exists e'. split; [exact Hrun|].
  rewrite Hd. subst nodes zero k.
  rewrite reorderDetail_zero by assumption. reflexivity.
Qed.

(** ** Five items of equal height *)

Section EqualHeights.

Variable H : Z.
Hypothesis H_pos : (0 < H)%Z.

Let h : Q := inject_Z H.
Let zero : Q := zeroPoint (item H 2) (measureHeight (item H 2)).

Lemma h_pos : 0 < h.
Proof.
  unfold h. change 0 with (inject_Z 0). rewrite <- Zlt_Qlt. exact H_pos.
Qed.

Lemma zero_eq : zero == (5 # 2) * h.
Proof.
  unfold zero, zeroPoint, measureHeight, item.
  cbn [offsetTop offsetHeight marginTop marginBottom].
  rewrite Z.max_id, Z.add_0_r, inject_Z_mult. fold h.
  change (inject_Z (Z.of_nat 2)) with 2. field.
Qed.

Lemma item_pos (i : nat) :
  computePos zero (item H i) ==
  if Qltb (inject_Z (Z.of_nat i) * h) ((5 # 2) * h)
  then inject_Z (Z.of_nat i) * h + h - (5 # 2) * h
  else inject_Z (Z.of_nat i) * h - (5 # 2) * h.
Proof.
  pose proof zero_eq as Hz.
  unfold computePos, item at 1 2 3.
  cbn [offsetTop offsetHeight]. fold h.
  assert (inject_Z (Z.of_nat i * H) == inject_Z (Z.of_nat i) * h) as Ht
    by (unfold h; rewrite inject_Z_mult; reflexivity).
  case_Qltb (inject_Z (Z.of_nat i * H)) zero;
    case_Qltb (inject_Z (Z.of_nat i) * h) ((5 # 2) * h);
    rewrite ?Ht, ?Hz in *; try lra; try contradiction.
Qed.

(** The frozen positions of the four other items. *)
Lemma fiveSnapshot_pos :
  exists p0 p1 p3 p4,
    fiveSnapshot H =
      [mkOther (item H 0) p0; mkOther (item H 1) p1;
       mkOther (item H 3) p3; mkOther (item H 4) p4] /\
    p0 == - (3 # 2) * h /\ p1 == - (1 # 2) * h /\
    p3 == (1 # 2) * h /\ p4 == (3 # 2) * h.
Proof.
  pose proof h_pos as Hh.
  eexists _, _, _, _. split; [reflexivity|].
  fold zero.
  split_all; rewrite item_pos; simpl inject_Z; unfold inject_Z;
    match goal with
    | |- context [Qltb ?a ?b] => case_Qltb a b
    end; lra.
Qed.

End EqualHeights.

(** The payload for a drop exactly one and a half heights up, and for any
    drop further up. *)
Lemma fiveSnapshot_detail (H : Z) (oi : nat) (d : Q) :
  (0 < H)%Z ->
  (d == - (3 # 2) * inject_Z H ->
   reorderDetail (fiveSnapshot H) oi d = mkDetail 1 oi (Some (item H 1))) /\
  (d < - (3 # 2) * inject_Z H ->
   reorderDetail (fiveSnapshot H) oi d = mkDetail 0 oi (Some (item H 0))).
Proof.
  intros HH.
  destruct (fiveSnapshot_pos H HH) as (p0 & p1 & p3 & p4 & -> & E0 & E1 & E3 & E4).
  pose proof (h_pos H HH) as Hh.
  unfold reorderDetail, computeSpliceIndex.
  split; intros Hd; (case_Qltb d 0; [|lra]); simpl scanUp; cbn [pos].
  - case_Qltb d p0; [lra|]. case_Qltb d p1; [reflexivity|lra].
  - case_Qltb d p0; [reflexivity|lra].
Qed.

(** C4, as the code has it.  Five items of equal height [H], the one at
    index 2 dragged: the four others have [pos] -3H/2, -H/2, H/2 and 3H/2.
    A drag that ends with total vertical movement exactly -3H/2 dispatches
    splice index 1 with [insertBefore] the item originally at index 1 (the
    item at index 0 has [pos] equal to the movement, and the scan asks for
    strictly greater); any movement below -3H/2 gives splice index 0 with
    [insertBefore] the item originally at index 0. *)
Theorem equal_heights_drop (H : Z) (e : Slip) (s : State) (tg : Target)
    (mot : option nat) (move : Point) :
  (0 < H)%Z ->
  node tg = item H 2 ->
  state e = Some s -> ctor s = Some reorder ->
  body s = snapshotWith tg (fiveItems H) mot ->
  target e = Some tg ->
  getTotalMovement e = Ok (Some move, e) ->
  Forall2 (fun o q => pos o == q) (fiveSnapshot H)
          [- (3 # 2) * inject_Z H; - (1 # 2) * inject_Z H;
           (1 # 2) * inject_Z H; (3 # 2) * inject_Z H] /\
  exists e',
    endGesture e = Ok (tt, e') /\
    (y move == - (3 # 2) * inject_Z H ->
     dispatched (trace e') =
       (item H 2, ev_reorder, Some (mkDetail 1 2 (Some (item H 1))))
       :: dispatched (trace e)) /\
    (y move < - (3 # 2) * inject_Z H ->
     dispatched (trace e') =
       (item H 2, ev_reorder, Some (mkDetail 0 2 (Some (item H 0))))
       :: dispatched (trace e)).
Proof.
  intros HH Hnode Hs Hc Hb Ht Hmove. split.
  - destruct (fiveSnapshot_pos H HH) as (p0 & p1 & p3 & p4 & -> & E0 & E1 & E3 & E4).
    repeat constructor; assumption.
  - unfold snapshotWith, findIndex in Hb. rewrite Hnode in Hb.
    fold (fiveSnapshot H) in Hb.
    change (findIndex_loop (item H 2) (fiveItems H) 0 0) with 2%nat in Hb.
    destruct (reorder_end_dispatches e s tg _ _ mot move Hs Hc Hb Ht Hmove)
      as [e' (Hrun & Hd & _)].
    exists e'. split; [exact Hrun|]. rewrite Hd, Hnode.
    destruct (fiveSnapshot_detail H 2 (y move) HH) as [Heq Hlt].
    split; intros Hy; [rewrite (Heq Hy) | rewrite (Hlt Hy)]; reflexivity.
Qed.

(** ** The theorems at the sample engines *)

Lemma drop_at_zero_witness :
  exists e',
    endGesture (sample_reorder origin) = Ok (tt, e') /\
    dispatched (trace e') =
      [(item 40 2, ev_reorder, Some (mkDetail 2 2 (Some (item 40 3))))].
Proof.
  refine (proj2 (drop_at_zero (sample_reorder origin) _ (measured sample_target)
                   [item 40 0; item 40 1] [item 40 3; item 40 4] None
                   (mkPoint (0 - 0) (0 - 0 + (0 - 0)) (0 - 0))
                   eq_refl eq_refl eq_refl eq_refl eq_refl _ _ _ eq_refl _)).
  - repeat (constructor; [simpl; intuition discriminate|]). constructor.
  - intros n [<-|[<-|[]]] _; reflexivity.
  - intros n [<-|[<-|[]]] _; reflexivity.
  - reflexivity.
Defined.

Lemma equal_heights_drop_witness :
  exists e',
    endGesture (sample_reorder (mkPoint 0 (-60) 500)) = Ok (tt, e') /\
    dispatched (trace e') =
      [(item 40 2, ev_reorder, Some (mkDetail 1 2 (Some (item 40 1))))].
Proof.
  destruct (equal_heights_drop 40 (sample_reorder (mkPoint 0 (-60) 500)) _
              (measured sample_target) None
              (mkPoint (0 - 0) (-60 - 0 + (0 - 0)) (500 - 0))
              eq_refl eq_refl eq_refl eq_refl eq_refl eq_refl eq_refl)
    as [_ [e' [Hrun [Hexact _]]]].
  exists e'. split; [exact Hrun|]. apply Hexact. reflexivity.
Defined.

(** At exactly -3H/2 the splice index is not 0. *)
Lemma equal_heights_counterexample :
  ~ (spliceIndex (reorderDetail (fiveSnapshot 40) 2 (- (3 # 2) * inject_Z 40)) = 0%nat /\
     insertBefore (reorderDetail (fiveSnapshot 40) 2 (- (3 # 2) * inject_Z 40))
       = Some (item 40 0)).
Proof.
  intros [Hindex _]. vm_compute in Hindex. discriminate.
Qed.

Lemma setState_reentrant_witness :
  exists e2,
    setState undecided (sample_idle skip_wait) = Ok (tt, e2) /\
    inState reorder e2.
Proof.
  eexists. split.
  - refine (proj1 (setState_reentrant undecided (sample_idle skip_wait)
                     (sample_idle skip_wait) _ _ (conj eq_refl eq_refl) _) _).
    + vm_compute. reflexivity.
    + reflexivity.
  - eexists. split; reflexivity.
Defined.

Lemma undecided_entry_and_hold_witness :
  (exists e',
     setState undecided (sample_idle accept_all) = Ok (tt, e') /\
     inState undecided e' /\
     timers e' = [mkTimer 1 HoldTimer 300]) /\
  (exists e',
     setState undecided (sample_idle skip_wait) = Ok (tt, e') /\
     inState reorder e') /\
  (exists e',
     runCallback HoldTimer sample_undecided = Ok (tt, e') /\
     inState reorder e').
Proof.
  split; [|split].
  - destruct (proj1 (undecided_entry_and_hold (sample_idle accept_all)
                       sample_target eq_refl))
      as [e' [Hrun [_ Haccepted]]].
    + intros s [= <-]. split; reflexivity.
    + intros s [= <-]. simpl. lia.
    + exists e'. split; [exact Hrun|].
      destruct (Haccepted eq_refl) as (Hin & Hti & _). split; assumption.
  - destruct (proj1 (undecided_entry_and_hold (sample_idle skip_wait)
                       sample_target eq_refl))
      as [e' [Hrun [Hrejected _]]].
    + intros s [= <-]. split; reflexivity.
    + intros s [= <-]. simpl. lia.
    + exists e'. split; [exact Hrun|].
      destruct (Hrejected eq_refl) as (_ & _ & Hin & _). apply Hin. reflexivity.
  - destruct (proj2 (undecided_entry_and_hold sample_undecided
                       (measured sample_target) eq_refl)
                    (mkPoint (Qabs (0 - 0)) (Qabs (0 - 0 + (0 - 0))) (0 - 0)))
      as [e' [Hrun [Hfires _]]].
    + eexists. split; reflexivity.
    + reflexivity.
    + exists e'. split; [exact Hrun|].
      destruct (Hfires eq_refl eq_refl eq_refl) as (_ & Hin & _).
      apply Hin. reflexivity.
Defined.

Lemma undecided_move_witness :
  exists e',
    updatePosition (mkPoint 0 30 10) sample_undecided = Ok (tt, e') /\
    inState idle e' /\ target e' = None.
Proof.
  destruct (undecided_move (mkPoint 0 30 10) sample_undecided _
              (measured sample_target) (Some 1%nat) origin
              (mkPoint (Qabs (0 - 0)) (Qabs (30 - 0 + (0 - 0))) (10 - 0))
              eq_refl eq_refl eq_refl eq_refl eq_refl eq_refl)
    as [e' [Hrun [Hidle _]]].
  - intros t [<-|[]] _. reflexivity.
  - exists e'. split; [exact Hrun|].
    destruct (Hidle eq_refl) as (Hin & Ht & _). split; assumption.
Defined.

(** A sideways move in the undecided state, 30px to the right and none
    vertically: the default action of the event is prevented. *)
Lemma undecided_move_counterexample :
  ~ (forall e',
       updatePosition (mkPoint 30 0 10) sample_undecided = Ok (tt, e') ->
       ~ In PreventDefault (trace e') /\ state e' = state sample_undecided).
Proof.
  intros Hall.
  destruct (Hall _ eq_refl) as [Hnot _].
  apply Hnot. left. reflexivity.
Qed.

Lemma cancel_twice_witness :
  exists e1,
    cancel sample_undecided = Ok (tt, e1) /\ cancel e1 = Ok (tt, e1) /\
    (cancel ;; cancel) sample_undecided = cancel sample_undecided.
Proof.
  apply (cancel_twice sample_undecided).
  intros s oi others mot [= <-]. discriminate.
Defined.

Lemma updatePosition_without_session_witness :
  updatePosition (mkPoint 5 5 5) (set_target None (sample_idle accept_all)) =
  Ok (tt, set_target None (sample_idle accept_all)).
Proof.
  apply (updatePosition_without_session (mkPoint 5 5 5)
           (set_target None (sample_idle accept_all))).
  reflexivity.
Defined.

(** * Further properties of the code *)

(** ** [findIndex] and the snapshot *)

Lemma findIndex_loop_le (dragged : DomNode) (nodes : list DomNode) :
  forall oi lc,
    (findIndex_loop dragged nodes oi lc <=
     Nat.max oi (lc + length (filter isElement nodes) - 1))%nat.
Proof.
  induction nodes as [|n nodes IH]; intros oi lc; simpl; [lia|].
  destruct (isElement n); simpl.
  - destruct (same_node n dragged);
      match goal with
      | |- (findIndex_loop _ _ ?a ?b <= _)%nat => specialize (IH a b)
      end; lia.
  - apply IH.
Qed.

(** When the container has an element child, [findIndex] answers the
    index of one: a number below the count of element children.  It
    answers 0 when the container has no element child, where 0 is the
    index of no element, and when the target is not among the children. *)
Theorem findIndex_bounds (tg : Target) (nodes : list DomNode) :
  (filter isElement nodes <> [] ->
   (findIndex tg nodes < length (filter isElement nodes))%nat) /\
  (filter isElement nodes = [] -> findIndex tg nodes = 0%nat) /\
  ((forall n, In n nodes -> node_id n <> node_id (node tg)) ->
   findIndex tg nodes = 0%nat).
Proof.
  unfold findIndex.
  pose proof (findIndex_loop_le (node tg) nodes 0 0) as Hle.
  split_all.
  - intros Hsome. destruct (filter isElement nodes); [congruence|].
    simpl in *. lia.
  - intros Hnone. rewrite Hnone in Hle. simpl in Hle. lia.
  - intros Habsent. apply findIndex_loop_others. exact Habsent.
Qed.

Lemma findIndex_bounds_witness :
  (findIndex sample_target (fiveItems 40) < 5)%nat /\
  findIndex sample_target [mkNode 7 3 0 0 0 0] = 0%nat /\
  findIndex sample_target [item 40 0; item 40 1] = 0%nat.
Proof.
  split_all.
  - apply (proj1 (findIndex_bounds sample_target (fiveItems 40))). discriminate.
  - apply (proj1 (proj2 (findIndex_bounds sample_target [mkNode 7 3 0 0 0 0]))).
    reflexivity.
  - apply (proj2 (proj2 (findIndex_bounds sample_target [item 40 0; item 40 1]))).
    intros n [<-|[<-|[]]]; discriminate.
Defined.

(** The snapshot holds every element child but the dragged one, so the
    original index and every splice index are positions in it, its end
    included. *)
Theorem snapshot_indices (tg : Target) (before after : list DomNode)
    (zero move_y : Q) :
  isElement (node tg) = true ->
  NoDup (map node_id (before ++ node tg :: after)) ->
  let nodes := before ++ node tg :: after in
  let otherNodes := buildOtherNodes (node tg) zero nodes in
  S (length otherNodes) = length (filter isElement nodes) /\
  map o_node otherNodes = filter isElement before ++ filter isElement after /\
  (findIndex tg nodes <= length otherNodes)%nat /\
  (computeSpliceIndex otherNodes move_y <= length otherNodes)%nat.
Proof.
  intros Hel Hnd nodes otherNodes. subst nodes otherNodes.
  unfold findIndex. rewrite findIndex_loop_at by assumption.
  rewrite snapshot_split by assumption.
  rewrite filter_app. simpl. rewrite Hel.
  rewrite !length_app, !length_map. simpl.
  split_all.
  - lia.
  - rewrite map_app, !map_map. simpl. rewrite !map_id. reflexivity.
  - lia.
  - pose proof (computeSpliceIndex_le
                  (map (snapshotEntry zero) (filter isElement before) ++
                   map (snapshotEntry zero) (filter isElement after)) move_y) as B.
    rewrite length_app, !length_map in B. exact B.
Qed.

Lemma snapshot_indices_witness :
  S (length (fiveSnapshot 40)) = length (filter isElement (fiveItems 40)).
Proof.
  apply (snapshot_indices sample_target [item 40 0; item 40 1]
           [item 40 3; item 40 4]
           (zeroPoint (item 40 2) (measureHeight (item 40 2))) 0).
  - reflexivity.
  - repeat (constructor; [simpl; intuition discriminate|]). constructor.
Defined.

(** A sibling that ends above the vertical centre of the dragged node gets
    a negative [pos], its bottom edge relative to the centre; one that
    starts below the centre gets a positive [pos], its top edge relative
    to the centre. *)
Theorem computePos_sides (zero : Q) (sibling : DomNode) :
  (0 <= offsetHeight sibling)%Z ->
  (inject_Z (offsetTop sibling) + inject_Z (offsetHeight sibling) < zero ->
   computePos zero sibling ==
     inject_Z (offsetTop sibling) + inject_Z (offsetHeight sibling) - zero /\
   computePos zero sibling < 0) /\
  (zero < inject_Z (offsetTop sibling) ->
   computePos zero sibling == inject_Z (offsetTop sibling) - zero /\
   0 < computePos zero sibling).
Proof.
  intros Hh.
  assert (0 <= inject_Z (offsetHeight sibling)) as Hq.
  { change 0 with (inject_Z 0). rewrite <- Zle_Qle. exact Hh. }
  unfold computePos.
  split; intros Hside;
    case_Qltb (inject_Z (offsetTop sibling)) zero; split; lra.
Qed.

Lemma computePos_sides_witness :
  computePos 100 (item 40 1) < 0 /\ 0 < computePos 100 (item 40 3).
Proof.
  split.
  - apply (proj1 (computePos_sides 100 (item 40 1) ltac:(discriminate))).
    reflexivity.
  - apply (proj2 (computePos_sides 100 (item 40 3) ltac:(discriminate))).
    reflexivity.
Defined.

(** ** The splice index and the preview *)

Lemma scanUp_stops (l1 l2 : list OtherNode) (o : OtherNode) (d : Q) :
  d < pos o ->
  forall i, (scanUp (l1 ++ o :: l2) d i <= i + length l1)%nat.
Proof.
  intros Ho. induction l1 as [|a l1 IH]; intros i; simpl.
  - case_Qltb d (pos o); [lia | contradiction].
  - destruct (Qltb d (pos a)); [lia|]. specialize (IH (S i)). lia.
Qed.

(** With the siblings above on the negative side and the siblings below on
    the positive side, a drag upwards never moves the node down the list
    and a drag downwards never moves it up: the splice index is at most
    the original position for a negative movement and at least that for a
    non-negative one. *)
Theorem computeSpliceIndex_direction (above below : list OtherNode) (d : Q) :
  (forall o, In o above -> pos o < 0) ->
  (forall o, In o below -> 0 < pos o) ->
  (d < 0 -> (computeSpliceIndex (above ++ below) d <= length above)%nat) /\
  (0 <= d -> (length above <= computeSpliceIndex (above ++ below) d)%nat).
Proof.
  intros Ha Hb. unfold computeSpliceIndex. split; intros Hd.
  - case_Qltb d 0; [|lra].
    destruct below as [|o below].
    + rewrite app_nil_r. pose proof (scanUp_bounds above d 0). lia.
    + assert (d < pos o) as Ho by (specialize (Hb o (or_introl eq_refl)); lra).
      pose proof (scanUp_stops above below o d Ho 0). lia.
  - case_Qltb d 0; [lra|].
    destruct (scanDown_spec (above ++ below) d) as [Hskip _].
    destruct (Nat.le_gt_cases (length above)
                (scanDown (rev (above ++ below)) d)) as [Hle|Hgt]; [exact Hle|].
    exfalso.
    destruct (nth_error above (scanDown (rev (above ++ below)) d)) as [o|] eqn:En.
    + apply (Hskip _ o (Nat.le_refl _)).
      * rewrite nth_error_app1 by exact Hgt. exact En.
      * apply nth_error_In in En. specialize (Ha o En). lra.
    + apply nth_error_None in En. lia.
Qed.

Lemma computeSpliceIndex_direction_witness :
  (computeSpliceIndex sample_snapshot (-25) <= 2)%nat /\
  (2 <= computeSpliceIndex sample_snapshot 25)%nat.
Proof.
  assert (forall o, In o (firstn 2 sample_snapshot) -> pos o < 0) as Ha
    by (intros o [<-|[<-|[]]]; reflexivity).
  assert (forall o, In o (skipn 2 sample_snapshot) -> 0 < pos o) as Hb
    by (intros o [<-|[<-|[]]]; reflexivity).
  split.
  - apply (proj1 (computeSpliceIndex_direction _ _ (-25) Ha Hb)). reflexivity.
  - apply (proj2 (computeSpliceIndex_direction _ _ 25 Ha Hb)). discriminate.
Defined.

(** The payload of the reorder event is consistent: [insertBefore] is the
    node at the splice index of the snapshot, and it is [null] exactly
    when the splice index is the sibling count. *)
Theorem reorderDetail_consistent (otherNodes : list OtherNode) (oi : nat) (d : Q) :
  let detail := reorderDetail otherNodes oi d in
  originalIndex detail = oi /\
  (spliceIndex detail <= length otherNodes)%nat /\
  insertBefore detail = option_map o_node (nth_error otherNodes (spliceIndex detail)) /\
  (insertBefore detail = None <-> spliceIndex detail = length otherNodes).
Proof.
  unfold reorderDetail. simpl.
  pose proof (computeSpliceIndex_le otherNodes d) as B.
  split_all; try reflexivity; try assumption.
  destruct (nth_error otherNodes (computeSpliceIndex otherNodes d)) eqn:En.
  - split; [discriminate|]. intros Heq.
    assert (nth_error otherNodes (computeSpliceIndex otherNodes d) <> None) as Hn
      by congruence.
    apply nth_error_Some in Hn. lia.
  - split; [|reflexivity]. intros _. apply nth_error_None in En. lia.
Qed.

(** In the preview a sibling is displaced by exactly one item height,
    against the direction of the drag, and only when the dragged centre
    has passed its frozen position; without vertical movement nothing is
    displaced. *)
Theorem siblingOffset_against_drag (height : Q) (o : OtherNode) (d : Q) :
  0 < height ->
  (0 < siblingOffset height o d ->
   siblingOffset height o d = height /\ d < pos o /\ pos o < 0) /\
  (siblingOffset height o d < 0 ->
   siblingOffset height o d = - height /\ 0 < pos o /\ pos o < d) /\
  (d == 0 -> siblingOffset height o d = 0).
Proof.
  intros Hh. unfold siblingOffset.
  case_Qltb (pos o) 0; case_Qltb d 0; case_Qltb d (pos o);
    case_Qltb 0 (pos o); case_Qltb 0 d; case_Qltb (pos o) d; simpl;
    split_all; intros; split_all; try reflexivity; lra.
Qed.

Lemma siblingOffset_against_drag_witness :
  siblingOffset 40 (mkOther (item 40 1) (-20)) (-25) = 40.
Proof.
  apply (proj1 (siblingOffset_against_drag 40 (mkOther (item 40 1) (-20)) (-25)
                  eq_refl)).
  reflexivity.
Defined.

(** The preview agrees with the drop: a sibling on the far side of the
    splice index is never displaced.  Dragging up, the siblings before the
    splice index stay; dragging down or not at all, the siblings from the
    splice index on stay. *)
Theorem preview_agrees_with_drop (height : Q) (otherNodes : list OtherNode)
    (d : Q) (j : nat) (o : OtherNode) :
  nth_error otherNodes j = Some o ->
  (d < 0 -> (j < computeSpliceIndex otherNodes d)%nat ->
   siblingOffset height o d = 0) /\
  (0 <= d -> (computeSpliceIndex otherNodes d <= j)%nat ->
   siblingOffset height o d = 0).
Proof.
  intros Hj.
  unfold siblingOffset, computeSpliceIndex. split; intros Hd Hside.
  - case_Qltb d 0; [|lra].
    destruct (scanUp_spec otherNodes d 0) as [Hskip _].
    rewrite Nat.sub_0_r in Hskip. specialize (Hskip j o Hside Hj).
    case_Qltb (pos o) 0; case_Qltb d 0; case_Qltb d (pos o);
      case_Qltb 0 (pos o); case_Qltb 0 d; case_Qltb (pos o) d; simpl;
      try reflexivity; lra.
  - case_Qltb d 0; [lra|].
    destruct (scanDown_spec otherNodes d) as [Hskip _].
    specialize (Hskip j o Hside Hj).
    case_Qltb (pos o) 0; case_Qltb d 0; case_Qltb d (pos o);
      case_Qltb 0 (pos o); case_Qltb 0 d; case_Qltb (pos o) d; simpl;
      try reflexivity; lra.
Qed.

Lemma preview_agrees_with_drop_witness :
  siblingOffset 40 (mkOther (mkNode 0 1 0 40 0 0) (-60)) (-25) = 0.
Proof.
  apply (proj1 (preview_agrees_with_drop 40 sample_snapshot (-25) 0
                  (mkOther (mkNode 0 1 0 40 0 0) (-60)) eq_refl)).
  - reflexivity.
  - vm_compute. lia.
Defined.

(** ** Autoscroll *)

Lemma Math_max_spec (a b : Q) :
  (a < b /\ Math_max a b = b) \/ (b <= a /\ Math_max a b = a).
Proof.
  unfold Math_max. case_Qltb a b; [left | right]; split; try reflexivity; lra.
Qed.

Lemma Math_min_spec (a b : Q) :
  (b < a /\ Math_min a b = b) \/ (a <= b /\ Math_min a b = a).
Proof.
  unfold Math_min. case_Qltb b a; [left | right]; split; try reflexivity; lra.
Qed.

Ltac case_minmax :=
  repeat match goal with
         | |- context [Math_max ?a ?b] =>
             let H := fresh "Hmax" in
             destruct (Math_max_spec a b) as [[? H]|[? H]]; rewrite H in *; clear H
         | |- context [Math_min ?a ?b] =>
             let H := fresh "Hmin" in
             destruct (Math_min_spec a b) as [[? H]|[? H]]; rewrite H in *; clear H
         | _ : context [Math_max ?a ?b] |- _ =>
             let H := fresh "Hmax" in
             destruct (Math_max_spec a b) as [[? H]|[? H]]; rewrite H in *; clear H
         | _ : context [Math_min ?a ?b] |- _ =>
             let H := fresh "Hmin" in
             destruct (Math_min_spec a b) as [[? H]|[? H]]; rewrite H in *; clear H
         end.

(** One frame scrolls by at most 40px: downwards (a positive step) when
    the dragged node is within 40px of the visible bottom edge, upwards
    when it is within 40px of the visible top edge and not of the bottom
    one, and not at all otherwise. *)
Theorem autoscrollOffset_range (g : ScrollGeometry) :
  let bottomOffset :=
    fsub (Math_min (containerBottom g) (innerHeight g)) (targetBottom g) in
  let topOffset := fsub (targetTop g) (Math_max (containerTop g) 0) in
  - 40 <= autoscrollOffset g <= 40 /\
  (bottomOffset < 40 -> 0 < autoscrollOffset g) /\
  (40 <= bottomOffset -> topOffset < 40 -> autoscrollOffset g < 0) /\
  (40 <= bottomOffset -> 40 <= topOffset -> autoscrollOffset g = 0).
Proof.
  unfold autoscrollOffset.
  set (bottomOffset :=
         fsub (Math_min (containerBottom g) (innerHeight g)) (targetBottom g)).
  set (topOffset := fsub (targetTop g) (Math_max (containerTop g) 0)).
  assert (Hb : bottomOffset < 40 -> 0 < fsub 40 bottomOffset).
  { intros H. apply fsub_positive;
      [apply (integer_grid 40) | apply fl_grid | exact H]. }
  assert (Ht : topOffset < 40 -> fsub topOffset 40 < 0).
  { intros H. apply fsub_negative;
      [apply fl_grid | apply (integer_grid 40) | exact H]. }
  simpl.
  case_Qltb bottomOffset 40; [specialize (Hb E) | case_Qltb topOffset 40];
    [| specialize (Ht E0) |];
    case_minmax; split_all; intros; try reflexivity; lra.
Qed.

Lemma autoscrollOffset_range_witness :
  0 < autoscrollOffset (mkGeometry 0 300 200 290 600 300) /\
  autoscrollOffset
    (mkGeometry (fl (805 # 100)) 600 (fl (4805 # 100)) (fl (8805 # 100)) 600 300) = 0.
Proof.
  split.
  - apply (autoscrollOffset_range (mkGeometry 0 300 200 290 600 300)).
    vm_compute. reflexivity.
  - apply (autoscrollOffset_range
             (mkGeometry (fl (805 # 100)) 600 (fl (4805 # 100)) (fl (8805 # 100))
                         600 300));
      vm_compute; discriminate.
Defined.

(** The scroll position [updateScrolling] assigns is never negative,
    never beyond the maximum derived from the scroll height captured at
    the start of the gesture (when there is room to scroll at all), and is
    the current position when the dragged node is at least 40px away from
    both visible edges and the current position is within these bounds. *)
Theorem updateScrolling_clamped (g : ScrollGeometry) (origHeight current : Q) :
  let maxScrollTop := origHeight - Math_min (clientHeight g) (innerHeight g) in
  0 <= updateScrolling g origHeight current /\
  (0 <= maxScrollTop -> updateScrolling g origHeight current <= maxScrollTop) /\
  (autoscrollOffset g = 0 -> 0 <= current <= maxScrollTop ->
   updateScrolling g origHeight current == current).
Proof.
  unfold updateScrolling.
  set (maxScrollTop := origHeight - Math_min (clientHeight g) (innerHeight g)).
  simpl. split_all.
  - case_minmax; lra.
  - intros Hroom. case_minmax; lra.
  - intros -> Hin. case_minmax; lra.
Qed.

Lemma updateScrolling_clamped_witness :
  updateScrolling (mkGeometry 0 300 100 140 600 300) 1000 50 == 50.
Proof.
  apply (updateScrolling_clamped (mkGeometry 0 300 100 140 600 300) 1000 50).
  - reflexivity.
  - split; discriminate.
Defined.

(** ** Resolving the target of a pointer-down *)

(** [findTargetNode] answers the node on the path from the event target
    whose parent is the container, the first such node, together with its
    ancestors; it answers [null] exactly when no proper ancestor of the
    event target is the container, so also when the event target is the
    container itself. *)
Theorem findTargetNode_child (chain : list Ancestor) :
  (forall n up,
     findTargetNode chain = Some (n, up) ->
     exists skipped parent rest,
       chain = skipped ++ n :: up /\ up = parent :: rest /\
       a_isContainer parent = true /\
       forall a, In a (tl (skipped ++ [n])) -> a_isContainer a = false) /\
  (findTargetNode chain = None <->
   forall a, In a (tl chain) -> a_isContainer a = false).
Proof.
  induction chain as [|n0 chain IH]; simpl.
  - split; [discriminate|]. split; [contradiction | reflexivity].
  - destruct IH as [IHsome IHnone].
    destruct chain as [|p rest].
    + split; [discriminate|]. split; [contradiction | reflexivity].
    + destruct (a_isContainer p) eqn:Ep.
      * split.
        -- intros n up [= <- <-]. exists [], p, rest. simpl. tauto.
        -- split; [discriminate|]. intros Hall.
           specialize (Hall p (or_introl eq_refl)). congruence.
      * split.
        -- intros n up Hfound.
           destruct (IHsome n up Hfound) as (skipped & parent & rest' & Hc & Hu & Hp & Hs).
           exists (n0 :: skipped), parent, rest'. simpl. rewrite Hc.
           split_all; try assumption; try reflexivity.
           intros a Ha. destruct skipped as [|s skipped]; simpl in *.
           ++ destruct Ha as [<-|[]]. injection Hc as <- _. exact Ep.
           ++ injection Hc as <- _. destruct Ha as [<-|Ha]; [exact Ep | auto].
        -- rewrite IHnone. simpl. split.
           ++ intros Hall a [<-|Ha]; [exact Ep | auto].
           ++ intros Hall a Ha. apply Hall. right. exact Ha.
Qed.

(** ** The invariants are kept *)

Lemma steady_frame (e e' : Slip) :
  steady e ->
  state e' = state e -> target e' = target e ->
  (nextRef e <= nextRef e')%nat ->
  (startPosition e <> None -> startPosition e' <> None) ->
  (latestPosition e <> None -> latestPosition e' <> None) ->
  (previousPosition e <> None -> previousPosition e' <> None) ->
  (forall t, In t (timers e') -> timer_cb t = HoldTimer -> In t (timers e)) ->
  steady e'.
Proof.
  intros (s & Hs & Hr & Htag & Hsess & Hpos & Htim) Hs' Ht' Hr' Hsp Hlp Hpp Hti.
  exists s. rewrite Hs', Ht'. split_all; try assumption.
  - lia.
  - intros Htg. destruct (Hpos Htg) as (H1 & H2 & H3). auto.
  - intros t Hin Hcb. apply Htim; auto.
Qed.

Lemma sound_frame (e e' : Slip) :
  sound e ->
  state e' = state e -> target e' = target e ->
  (nextRef e <= nextRef e')%nat ->
  (startPosition e <> None -> startPosition e' <> None) ->
  (latestPosition e <> None -> latestPosition e' <> None) ->
  (previousPosition e <> None -> previousPosition e' <> None) ->
  (forall t, In t (timers e') -> timer_cb t = HoldTimer -> In t (timers e)) ->
  sound e'.
Proof.
  intros [Hst Hidle] Hs' Ht' Hr' Hsp Hlp Hpp Hti. split.
  - apply (steady_frame e e'); assumption.
  - rewrite Hs', Ht'. exact Hidle.
Qed.

(** The frame conditions of an engine that differs from [e] in fields the
    invariants do not read, or only replaces samples by samples. *)
Ltac same_frame :=
  first [ apply sound_frame with (e := _) | apply steady_frame with (e := _) ].

Lemma sound_consistent (e : Slip) : steady e -> consistent e.
Proof.
  intros (s & Hs & _ & _ & Hsess & _) s' oi others mot Hs' Hb.
  rewrite Hs in Hs'. injection Hs' as <-. apply Hsess. congruence.
Qed.

Lemma tagged_has_ctor (s : State) (c : Ctor) :
  tagged s -> has_ctor s c = true -> ctor s = Some c.
Proof.
  unfold tagged, has_ctor. intros Htag Hc.
  destruct (ctor s) as [c'|]; [|discriminate].
  destruct c', c; simpl in Hc; congruence.
Qed.

Lemma tagged_not_ctor (s : State) (c : Ctor) :
  tagged s -> has_ctor s c = false -> ctor s <> Some c.
Proof.
  unfold has_ctor. intros Htag Hc Heq. rewrite Heq in Hc.
  destruct c; discriminate.
Qed.

(** [setState(idle)] on a sound engine: it returns, the engine is idle and
    sound, and nothing was dispatched. *)
Lemma setState_idle_sound (e : Slip) :
  sound e ->
  exists e',
    setState idle e = Ok (tt, e') /\ sound e' /\ inState idle e' /\
    target e' = None /\ samePointer e e' /\
    dispatched (trace e') = dispatched (trace e).
Proof.
  intros Hsound. pose proof Hsound as [Hst Hidle].
  pose proof Hst as (s & Hs & Hr & Htag & Hsess & Hpos & Htim).
  destruct (has_ctor s idle) eqn:Hc.
  - exists e. rewrite (setState_same idle e s Hs Hc).
    pose proof (tagged_has_ctor s idle Htag Hc) as Hctor.
    split_all; try reflexivity; try assumption.
    + exists s. auto.
    + apply (Hidle s Hs). unfold tagged in Htag.
      destruct (body s); congruence.
    + unfold samePointer. tauto.
  - destruct (setState_idle_from e (sound_consistent e Hst))
      as [e' (Hrun & Hs' & Ht' & Hr' & Hp' & Hd' & Hx' & Hti')].
    { intros s' Hs0. congruence. }
    exists e'. split; [exact Hrun|]. split; [split|].
    + exists (mkState (nextRef e) (Some idle) IdleState).
      split_all; simpl; try assumption; try reflexivity.
      * lia.
      * congruence.
      * congruence.
      * intros t Hin Hcb. exfalso.
        destruct (Hti' t Hin Hcb) as [Hin0 Hne].
        apply (Hne s (timer_id t) Hs); [|reflexivity]. apply Htim; assumption.
    + intros s' _ _. exact Ht'.
    + split_all; try assumption.
      eexists. split; [exact Hs' | reflexivity].
Qed.

(** The idle state a new instance starts in. *)
Lemma construct_sound (w : World) :
  exists e, construct w = Ok (tt, e) /\ sound e /\ inState idle e.
Proof.
  unfold construct.
  destruct (setState_idle_from (blank w))
    as [e' (Hrun & Hs' & Ht' & Hr' & Hp' & Hd' & Hx' & Hti')].
  { intros s oi others mot Hs. discriminate. }
  { intros s Hs. discriminate. }
  exists e'. split; [exact Hrun|]. split.
  - split.
    + exists (mkState 0 (Some idle) IdleState). simpl in *.
      split_all; try assumption; try reflexivity; try congruence.
      * lia.
      * intros t Hin Hcb. destruct (Hti' t Hin Hcb) as [[] _].
    + intros s _ _. exact Ht'.
  - eexists. split; [exact Hs' | reflexivity].
Qed.

(** [setState(reorder)] from a sound engine in another state: the engine
    ends in the reorder state, sound, with nothing dispatched. *)
Lemma setState_reorder_sound (e : Slip) (s : State) (tg : Target) :
  sound e -> state e = Some s -> has_ctor s reorder = false ->
  target e = Some tg ->
  exists e',
    setState reorder e = Ok (tt, e') /\ sound e' /\ inState reorder e' /\
    samePointer e e' /\
    dispatched (trace e') = dispatched (trace e).
Proof.
  intros [Hst Hidle] Hs Hc Ht.
  pose proof Hst as (s0 & Hs0 & Hr & Htag & Hsess & Hpos & Htim).
  rewrite Hs in Hs0. injection Hs0 as <-.
  destruct (setState_reorder_from e tg Ht)
    as [e' (Hrun & Hs' & Ht' & Hr' & Hp' & Hd' & Hx' & Hti')].
  { intros s' Hs'. rewrite Hs in Hs'. injection Hs' as <-. exact Hc. }
  exists e'. split; [exact Hrun|].
  pose proof Hp' as (Hp1 & Hp2 & Hp3 & _).
  split; [split|].
  - eexists. split; [exact Hs'|]. rewrite Ht', Hr', Hp1, Hp2, Hp3.
    split_all; simpl; try reflexivity.
    + lia.
    + discriminate.
    + intros _. apply Hpos. congruence.
    + intros t Hin Hcb. exfalso.
      destruct (Hti' t Hin Hcb) as [Hin0 Hne].
      apply (Hne s (timer_id t) Hs); [|reflexivity]. apply Htim; assumption.
  - intros s' Hs1 Hb. rewrite Hs' in Hs1. injection Hs1 as <-. discriminate.
  - split_all; try assumption. eexists. split; [exact Hs' | reflexivity].
Qed.

(** The second half of [setState(undecided)], with a session: whatever the
    listeners answer, the constructor returns, and the engine ends with an
    undecided state and its hold timer, an undecided state without a
    timer, or the reorder state the constructor entered on its own. *)
Lemma enterState_undecided_runs (e1 : Slip) (s : State) (tg : Target) :
  state e1 = Some s -> (ref s < nextRef e1)%nat -> target e1 = Some tg ->
  exists e',
    enterState undecided (callCtor undecided) e1 = Ok (tt, e') /\
    (exists tg', target e' = Some tg' /\ origScrollTop tg' = origScrollTop tg) /\
    samePointer e1 e' /\ (nextRef e1 < nextRef e')%nat /\
    ((state e' = Some (mkState (nextRef e1) (Some undecided)
                               (UndecidedState (Some (nextTimer e1)))) /\
      timers e' = timers e1 ++ [mkTimer (nextTimer e1) HoldTimer 300]) \/
     (state e' = Some (mkState (nextRef e1) (Some undecided) (UndecidedState None)) /\
      timers e' = timers e1) \/
     (exists oi others,
        state e' = Some (mkState (nextRef e1) (Some reorder)
                                 (ReorderState oi others None)) /\
        forall t, In t (timers e') -> timer_cb t = HoldTimer -> In t (timers e1))).
Proof.
  intros Hs Hr Ht.
  destruct e1 as [st tg0 ut mh sp lp pp cps w nr nt ts tr].
  simpl in Hs, Hr, Ht. subst st tg0.
  unfold enterState, callCtor, undecidedStateInit, measureTarget, samePointer.
  unfold_m. cbn -[setStateTo reorderStateInit].
  destruct (listeners w (originalTarget tg) ev_beforewait) eqn:Ewait;
    cbn -[setStateTo reorderStateInit].
  - rewrite Nat.eqb_refl. eexists. split; [reflexivity|]. simpl.
    split_all; try reflexivity.
    + eexists. split; reflexivity.
    + lia.
    + left. split; reflexivity.
  - destruct (listeners w (originalTarget tg) ev_beforereorder) eqn:Ereorder;
      cbn -[setStateTo reorderStateInit].
    + destruct (has_ctor s reorder) eqn:Hc.
      * match goal with
        | |- context [setStateTo reorder reorderStateInit ?mid] =>
            pose proof (setState_same reorder mid s eq_refl Hc) as Hrun
        end.
        unfold setState in Hrun. simpl callCtor in Hrun. rewrite Hrun.
        cbn. rewrite Nat.eqb_refl. eexists. split; [reflexivity|]. simpl.
        split_all; try reflexivity.
        -- eexists. split; reflexivity.
        -- lia.
        -- right. left. split; reflexivity.
      * match goal with
        | |- context [setStateTo reorder reorderStateInit ?mid] =>
            destruct (setState_reorder_from mid (measured tg) eq_refl)
              as [e3 (Hrun & Hs3 & Ht3 & Hr3 & Hp3 & Hd3 & Hx3 & Hti3)]
        end.
        { simpl. intros s' [= <-]. exact Hc. }
        unfold setState in Hrun. simpl callCtor in Hrun. rewrite Hrun.
        cbn. rewrite Hs3. simpl in *.
        assert (Nat.eqb nr (ref s) = false) as -> by (apply Nat.eqb_neq; lia).
        eexists. split; [reflexivity|]. simpl. rewrite Hs3, Ht3, Hr3.
        destruct Hp3 as (Hp1 & Hp2 & Hp3 & Hp4 & Hp5). simpl in *.
        split_all; try assumption.
        -- eexists. split; reflexivity.
        -- lia.
        -- right. right. eexists _, _. split; [reflexivity|].
           intros t Hin Hcb. apply (Hti3 t Hin Hcb).
    + rewrite Nat.eqb_refl. eexists. split; [reflexivity|]. simpl.
      split_all; try reflexivity.
      * eexists. split; reflexivity.
      * lia.
      * right. left. split; reflexivity.
Qed.

(** [setState(undecided)] once a session and its samples are in place,
    whatever the state before: it returns and leaves a sound engine that
    is not idle. *)
Lemma setState_undecided_sound (e : Slip) (tg : Target) :
  steady e -> target e = Some tg ->
  exists e',
    setState undecided e = Ok (tt, e') /\ sound e' /\
    (inState undecided e' \/ inState reorder e') /\
    samePointer e e' /\
    exists tg', target e' = Some tg' /\ origScrollTop tg' = origScrollTop tg.
Proof.
  intros Hst Ht.
  pose proof Hst as (s & Hs & Hr & Htag & Hsess & Hpos & Htim).
  assert (target e <> None) as Htg by congruence.
  destruct (Hpos Htg) as (Hsp & Hlp & Hpp).
  destruct (has_ctor s undecided) eqn:Hc.
  - pose proof (tagged_has_ctor s undecided Htag Hc) as Hctor.
    exists e. rewrite (setState_same undecided e s Hs Hc).
    split; [reflexivity|]. split; [split; [exact Hst|]|].
    + intros s' Hs' Hb. rewrite Hs in Hs'. injection Hs' as <-.
      unfold tagged in Htag. rewrite Hb in Htag. congruence.
    + split_all.
      * left. exists s. auto.
      * unfold samePointer. tauto.
      * exists tg. auto.
  - destruct (leaveState_runs s e)
      as [e1 (Hrun1 & Hs1 & Ht1 & Hr1 & Hp1 & Hd1 & Hx1 & Hti1)].
    { intros oi others mot _. exact Htg. }
    rewrite Hs in Hs1. rewrite Ht in Ht1.
    destruct (enterState_undecided_runs e1 s tg Hs1)
      as [e' (Hrun & [tg' [Ht' Ho']] & Hp' & Hr' & Hcases)];
      [lia | exact Ht1 |].
    assert (setState undecided e = Ok (tt, e')) as Hset.
    { unfold setState, setStateTo. unfold bind at 1. unfold gets at 1.
      rewrite Hs, Hc. unfold bind at 1. rewrite Hrun1. exact Hrun. }
    assert (forall t, In t (timers e1) -> timer_cb t <> HoldTimer) as Hnone.
    { intros t Hin Hcb. destruct (Hti1 t Hin Hcb) as [Hin0 _].
      specialize (Htim t Hin0 Hcb). unfold tagged in Htag. rewrite Htim in Htag.
      unfold has_ctor in Hc. rewrite Htag in Hc. discriminate. }
    destruct Hp1 as (Hq1 & Hq2 & Hq3 & Hq4 & Hq5).
    pose proof Hp' as (Hp1 & Hp2 & Hp3 & Hp4 & Hp5).
    assert (samePointer e e') as Hsame
      by (unfold samePointer; split_all; congruence).
    assert (forall s', state e' = Some s' -> (ref s' < nextRef e')%nat ->
                       tagged s' -> body s' <> IdleState ->
                       (forall t, In t (timers e') -> timer_cb t = HoldTimer ->
                                  body s' = UndecidedState (Some (timer_id t))) ->
                       sound e') as Hmk.
    { intros s' Hs' Href Htag' Hb' Htim'. split.
      - exists s'. split_all; try assumption.
        + intros _. congruence.
        + intros _. rewrite Hp1, Hp2, Hp3, Hq1, Hq2, Hq3. auto.
      - intros s'' Hs'' Hb''. rewrite Hs' in Hs''. injection Hs'' as <-.
        contradiction. }
    exists e'. split; [exact Hset|].
    destruct Hcases as [[Hst' Hti']|[[Hst' Hti']|(oi & others & Hst' & Hti')]].
    + split; [|split_all].
      * apply (Hmk _ Hst'); simpl; try reflexivity; try discriminate.
        -- lia.
        -- intros t Hin Hcb. rewrite Hti' in Hin.
           apply in_app_or in Hin as [Hin|[<-|[]]]; [|reflexivity].
           exfalso. apply (Hnone t Hin Hcb).
      * left. eexists. split; [exact Hst' | reflexivity].
      * exact Hsame.
      * exists tg'. auto.
    + split; [|split_all].
      * apply (Hmk _ Hst'); simpl; try reflexivity; try discriminate.
        -- lia.
        -- intros t Hin Hcb. rewrite Hti' in Hin.
           exfalso. apply (Hnone t Hin Hcb).
      * left. eexists. split; [exact Hst' | reflexivity].
      * exact Hsame.
      * exists tg'. auto.
    + split; [|split_all].
      * apply (Hmk _ Hst'); simpl; try reflexivity; try discriminate.
        -- lia.
        -- intros t Hin Hcb. exfalso. apply (Hnone t (Hti' t Hin Hcb) Hcb).
      * right. eexists. split; [exact Hst' | reflexivity].
      * exact Hsame.
      * exists tg'. auto.
Qed.

Lemma getAbsoluteMovement_runs (e : Slip) :
  target e <> None -> startPosition e <> None -> latestPosition e <> None ->
  exists move, getAbsoluteMovement e = Ok (move, e).
Proof.
  intros Ht Hs Hl. unfold getAbsoluteMovement, getTotalMovement. unfold_m.
  destruct (target e); [|congruence].
  destruct (latestPosition e); [|congruence].
  destruct (startPosition e); [|congruence].
  eexists. reflexivity.
Qed.

Lemma getTotalMovement_runs (e : Slip) :
  target e <> None -> startPosition e <> None -> latestPosition e <> None ->
  exists move, getTotalMovement e = Ok (Some move, e).
Proof.
  intros Ht Hs Hl. unfold getTotalMovement.
  destruct (target e); [|congruence].
  destruct (latestPosition e); [|congruence].
  destruct (startPosition e); [|congruence].
  eexists. reflexivity.
Qed.

(** The velocity sample is either kept or replaced by the latest one. *)
Lemma resample_cases (e : Slip) :
  latestPosition e <> None -> previousPosition e <> None ->
  resample e = Ok (tt, e) \/
  resample e = Ok (tt, set_positions (startPosition e) (latestPosition e)
                                     (latestPosition e) e).
Proof.
  intros Hl Hp. unfold resample. unfold_m.
  destruct (latestPosition e) as [latest|] eqn:El; [|congruence].
  destruct (previousPosition e) as [previous|] eqn:Ep; [|congruence].
  destruct (Qltb 100 (fsub (time latest) (time previous))); [right | left];
    cbn; rewrite ?El; reflexivity.
Qed.

Lemma resample_sound (e : Slip) :
  sound e -> latestPosition e <> None -> previousPosition e <> None ->
  exists e', resample e = Ok (tt, e') /\ sound e' /\
             state e' = state e /\ target e' = target e /\
             trace e' = trace e.
Proof.
  intros Hsound Hl Hp.
  destruct (resample_cases e Hl Hp) as [Hrun|Hrun]; rewrite Hrun.
  - exists e. auto.
  - eexists. split; [reflexivity|]. split; [|simpl; auto].
    apply (sound_frame e); simpl; auto.
Qed.

Ltac by_frame H :=
  apply (sound_frame _ _ H); simpl;
  try reflexivity; try lia; auto; try (intros; discriminate).

Lemma updatePosition_with_session (p : Point) (e : Slip) (s : State) (tg : Target) :
  state e = Some s -> target e = Some tg ->
  updatePosition p e =
  ((if has_onMove s then
      r <- call_onMove s ;;
      if is_false r then emit PreventDefault else ret tt
    else ret tt) ;;
   resample) (moved p e).
Proof.
  intros Hs Ht. unfold updatePosition. rewrite Ht.
  unfold bind at 1. unfold modify at 1. fold (moved p e).
  unfold bind at 1. unfold deref at 1.
  change (state (moved p e)) with (state e). rewrite Hs.
  unfold resample, bind.
  destruct (has_onMove s); [|reflexivity].
  destruct (call_onMove s (moved p e)) as [[r e1]|]; [|reflexivity].
  destruct (is_false r); reflexivity.
Qed.

Lemma updatePosition_sound (p : Point) (e : Slip) :
  sound e ->
  exists e', updatePosition p e = Ok (tt, e') /\ sound e'.
Proof.
  intros Hsound. pose proof Hsound as [Hst Hidle].
  pose proof Hst as (s & Hs & Hr & Htag & Hsess & Hpos & Htim).
  destruct (target e) as [tg|] eqn:Ht;
    [|exists e; split; [apply updatePosition_idle; exact Ht | exact Hsound]].
  assert (Some tg <> None) as Htg by discriminate.
  destruct (Hpos Htg) as (Hsp & Hlp & Hpp).
  rewrite (updatePosition_with_session p e s tg Hs Ht).
  assert (sound (moved p e)) as Hsound0.
  { apply (sound_frame e); simpl; auto. intros _. discriminate. }
  unfold bind at 1.
  destruct (body s) as [|ht|oi others mot] eqn:Hb.
  - specialize (Hidle s Hs Hb). congruence.
  - unfold has_onMove, call_onMove. rewrite Hb.
    destruct (getAbsoluteMovement_runs (moved p e)) as [move Hmove];
      simpl; try (rewrite Ht); auto; try discriminate.
    unfold undecided_onMove. unfold bind at 1. unfold bind at 1.
    rewrite Hmove. unfold bind at 1.
    destruct (Qltb 20 (y move)).
    + destruct (setState_idle_sound (moved p e) Hsound0)
        as [e1 (Hrun & Hsound1 & _ & _ & Hp1 & _)].
      rewrite Hrun. destruct Hp1 as (_ & Hl1 & Hp1 & _). simpl in Hl1, Hp1.
      destruct (Qltb (fmul (y move) literal_1_2) (x move)); unfold ret, emit, modify; simpl.
      * destruct (resample_sound (set_trace (PreventDefault :: trace e1) e1))
          as [e' (Hres & Hsound' & _)];
          [by_frame Hsound1 | simpl; congruence | simpl; congruence |].
        exists e'. auto.
      * destruct (resample_sound e1 Hsound1) as [e' (Hres & Hsound' & _)];
          [congruence | congruence |].
        exists e'. auto.
    + destruct (Qltb (fmul (y move) literal_1_2) (x move)); unfold ret, emit, modify; simpl.
      * destruct (resample_sound (set_trace (PreventDefault :: trace (moved p e))
                                            (moved p e)))
          as [e' (Hres & Hsound' & _)];
          [by_frame Hsound0 | simpl; discriminate | simpl; assumption |].
        exists e'. auto.
      * destruct (resample_sound (moved p e) Hsound0) as [e' (Hres & Hsound' & _)];
          [simpl; discriminate | simpl; assumption |].
        exists e'. auto.
  - unfold has_onMove, call_onMove. rewrite Hb.
    unfold reorder_onMove, bind, emit, modify, ret. simpl.
    match goal with
    | |- context [resample ?mid] =>
        destruct (resample_sound mid) as [e' (Hres & Hsound' & _)];
          [by_frame Hsound0 | simpl; discriminate | simpl; assumption |]
    end.
    exists e'. auto.
Qed.

Lemma endGesture_sound (e : Slip) :
  sound e ->
  exists e', endGesture e = Ok (tt, e') /\ sound e'.
Proof.
  intros Hsound. pose proof Hsound as [Hst Hidle].
  pose proof Hst as (s & Hs & Hr & Htag & Hsess & Hpos & Htim).
  unfold endGesture. unfold bind at 1. unfold deref at 1. rewrite Hs.
  unfold has_onEnd, call_onEnd.
  destruct (body s) as [|ht|oi others mot] eqn:Hb.
  - exists e. auto.
  - assert (target e <> None) as Htg by (apply Hsess; congruence).
    destruct (target e) as [tg|] eqn:Ht; [|congruence].
    unfold undecided_onEnd. unfold_m. rewrite Ht. cbn -[setState].
    match goal with
    | |- context [setState idle ?mid] =>
        destruct (setState_idle_sound mid) as [e1 (Hrun & Hsound1 & _)];
          [by_frame Hsound; rewrite Ht; auto |]
    end.
    rewrite Hrun.
    destruct (listeners (world e) (originalTarget tg) ev_tap); simpl.
    + exists e1. auto.
    + eexists. split; [reflexivity|]. by_frame Hsound1.
  - assert (target e <> None) as Htg by (apply Hsess; congruence).
    destruct (Hpos Htg) as (Hsp & Hlp & Hpp).
    destruct (getTotalMovement_runs e Htg Hsp Hlp) as [move Hmove].
    destruct (target e) as [tg|] eqn:Ht; [|congruence].
    unfold reorder_onEnd. unfold bind at 1. unfold bind at 1. rewrite Hmove.
    unfold_m. rewrite Ht. cbn -[setState].
    match goal with
    | |- context [setState idle ?mid] =>
        destruct (setState_idle_sound mid) as [e1 (Hrun & Hsound1 & _)];
          [by_frame Hsound; rewrite Ht; auto |]
    end.
    rewrite Hrun. simpl.
    eexists. split; [reflexivity|]. by_frame Hsound1.
Qed.

Lemma in_drop_timer_hold (id : nat) (ts : list Timer) (t : Timer) :
  In t (drop_timer id ts) -> In t ts.
Proof. intros H. apply in_drop_timer in H. tauto. Qed.

(** [reorder.onLeave] re-arms the grace timer and nothing else. *)
Lemma reorder_onLeave_runs (e : Slip) (s : State) (oi : nat)
    (others : list OtherNode) (mot : option nat) :
  state e = Some s -> body s = ReorderState oi others mot ->
  exists e',
    reorder_onLeave s mot e = Ok (tt, e') /\
    state e' = Some (mkState (ref s) (ctor s)
                             (ReorderState oi others (Some (nextTimer e)))) /\
    timers e' =
      match mot with
      | Some id => drop_timer id (timers e)
      | None => timers e
      end ++ [mkTimer (nextTimer e) (MouseOutsideTimer (ref s)) 700] /\
    nextTimer e' = S (nextTimer e) /\
    target e' = target e /\ nextRef e' = nextRef e /\ samePointer e e' /\
    dispatched (trace e') = dispatched (trace e).
Proof.
  intros Hs Hb.
  destruct e as [st tg ut mh sp lp pp cps w nr nt ts tr]. simpl in Hs. subst st.
  unfold reorder_onLeave, set_mouseOutsideTimer, samePointer. rewrite Hb.
  unfold_m. destruct mot as [id|]; cbn;
    (eexists; split; [reflexivity|]); simpl; split_all; reflexivity.
Qed.

Lemma onMouseLeave_sound (atDocument : bool) (e : Slip) :
  sound e ->
  exists e', onMouseLeave atDocument e = Ok (tt, e') /\ sound e'.
Proof.
  intros Hsound. pose proof Hsound as [Hst Hidle].
  pose proof Hst as (s & Hs & Hr & Htag & Hsess & Hpos & Htim).
  unfold onMouseLeave. unfold bind at 1. unfold gets at 1.
  destruct (usingTouch e); [exists e; auto|].
  destruct atDocument; [|exists e; auto].
  unfold bind at 1. unfold deref at 1. rewrite Hs.
  unfold has_onLeave, call_onLeave.
  destruct (body s) as [|ht|oi others mot] eqn:Hb.
  - exists e. auto.
  - unfold undecided_onLeave.
    destruct (setState_idle_sound e Hsound) as [e1 (Hrun & Hsound1 & _)].
    exists e1. auto.
  - destruct (reorder_onLeave_runs e s oi others mot Hs Hb)
      as [e' (Hrun & Hs' & Hti' & Hnt' & Ht' & Hr' & Hp' & Hd')].
    exists e'. split; [exact Hrun|].
    destruct Hp' as (Hp1 & Hp2 & Hp3 & _).
    split.
    + eexists. split; [exact Hs'|]. rewrite Ht', Hr', Hp1, Hp2, Hp3. simpl.
      unfold tagged in *. rewrite Hb in Htag. simpl.
      split_all; try assumption.
      * intros _. apply Hsess. congruence.
      * intros t Hin Hcb. exfalso. rewrite Hti' in Hin.
        apply in_app_or in Hin as [Hin|[<-|[]]]; [|discriminate].
        assert (In t (timers e)) as Hin0
          by (destruct mot; [eapply in_drop_timer_hold|]; eassumption).
        specialize (Htim t Hin0 Hcb). congruence.
    + intros s' Hs1 Hb'. rewrite Hs' in Hs1. injection Hs1 as <-. discriminate.
Qed.

Lemma holdTimerFired_sound (e : Slip) (id : nat) :
  sound e ->
  (exists s, state e = Some s /\ body s = UndecidedState (Some id)) ->
  exists e', holdTimerFired e = Ok (tt, e') /\ sound e'.
Proof.
  intros Hsound (s & Hs & Hb). pose proof Hsound as [Hst Hidle].
  pose proof Hst as (s0 & Hs0 & Hr & Htag & Hsess & Hpos & Htim).
  rewrite Hs in Hs0. injection Hs0 as <-.
  assert (target e <> None) as Htg by (apply Hsess; congruence).
  destruct (Hpos Htg) as (Hsp & Hlp & Hpp).
  destruct (getAbsoluteMovement_runs e Htg Hsp Hlp) as [move Hmove].
  destruct (target e) as [tg|] eqn:Ht; [|congruence].
  unfold holdTimerFired. unfold bind at 1. rewrite Hmove.
  unfold bind at 1. unfold gets at 1.
  destruct (canPreventScrolling e && Qltb (x move) 15 && Qltb (y move) 25);
    [|exists e; auto].
  unfold_m. rewrite Ht. cbn -[setState].
  destruct (listeners (world e) (originalTarget tg) ev_beforereorder).
  - match goal with
    | |- context [setState reorder ?mid] =>
        destruct (setState_reorder_sound mid s tg) as [e1 (Hrun & Hsound1 & _)];
          [by_frame Hsound; rewrite Ht; auto | exact Hs | | exact Ht |]
    end.
    { unfold tagged in Htag. rewrite Hb in Htag. unfold has_ctor.
      rewrite Htag. reflexivity. }
    exists e1. auto.
  - eexists. split; [reflexivity|]. by_frame Hsound.
Qed.

Lemma animateDone_sound (n : DomNode) (e : Slip) :
  sound e -> exists e', animateDone n e = Ok (tt, e') /\ sound e'.
Proof.
  intros Hsound. destruct (animateDone_runs n e) as [tr [Hrun _]].
  rewrite Hrun. eexists. split; [reflexivity|]. by_frame Hsound.
Qed.

Lemma fireTimer_sound (id : nat) (e : Slip) :
  sound e ->
  exists e', fireTimer id e = Ok (tt, e') /\ sound e'.
Proof.
  intros Hsound. pose proof Hsound as [Hst Hidle].
  pose proof Hst as (s & Hs & Hr & Htag & Hsess & Hpos & Htim).
  unfold fireTimer. unfold bind at 1. unfold gets at 1.
  destruct (find (fun t => (timer_id t =? id)%nat) (timers e)) as [t|] eqn:Ef;
    [|exists e; auto].
  apply find_some in Ef as [Hin Hid]. apply Nat.eqb_eq in Hid.
  set (e0 := set_timers (nextTimer e) (drop_timer id (timers e)) e).
  assert (sound e0) as Hsound0.
  { apply (sound_frame e); simpl; auto.
    intros t' Hin' _. eapply in_drop_timer_hold; eassumption. }
  unfold bind, modify. fold e0.
  destruct (timer_cb t) as [|owner|n] eqn:Hcb; simpl.
  - apply (holdTimerFired_sound e0 id Hsound0).
    exists s. split; [exact Hs|]. rewrite <- Hid. apply Htim; assumption.
  - unfold mouseOutsideTimerFired. unfold bind at 1. unfold gets at 1.
    change (state e0) with (state e). rewrite Hs.
    destruct (ref s =? owner)%nat; unfold bind.
    + unfold set_mouseOutsideTimer.
      destruct (body s) as [|ht|oi others mot] eqn:Hb; unfold ret, modify;
        try (apply setState_idle_sound in Hsound0 as [e1 (Hrun & Hsound1 & _)];
             exists e1; split; [exact Hrun | exact Hsound1]).
      match goal with
      | |- context [cancel ?mid] =>
          assert (sound mid) as Hmid
      end.
      { split.
        - eexists. split; [reflexivity|]. simpl.
          unfold tagged in *. rewrite Hb in Htag. simpl.
          split_all; try assumption.
          + intros _. apply Hsess. congruence.
          + intros t' Hin' Hcb'. exfalso.
            apply in_drop_timer_hold in Hin'.
            specialize (Htim t' Hin' Hcb'). congruence.
        - simpl. intros s' [= <-]. discriminate. }
      apply setState_idle_sound in Hmid as [e1 (Hrun & Hsound1 & _)].
      exists e1. split; [exact Hrun | exact Hsound1].
    + unfold ret.
      apply setState_idle_sound in Hsound0 as [e1 (Hrun & Hsound1 & _)].
      exists e1. split; [exact Hrun | exact Hsound1].
  - apply animateDone_sound. exact Hsound0.
Qed.

Lemma siblingTransforms_quiet (height move_y : Q) (others : list OtherNode) :
  dispatched (rev (map (siblingTransform height move_y) others)) = [].
Proof.
  apply dispatched_none. intros ef Hin. apply in_rev in Hin.
  apply in_map_iff in Hin as [o [<- _]]. unfold siblingTransform.
  destruct (Qeq_bool (siblingOffset height o move_y) 0); discriminate.
Qed.

(** The frame callback on a sound engine: it returns, keeps the engine
    sound and in its state, dispatches nothing and arms no timer; without
    a session it changes nothing. *)
Lemma frameCallback_runs (owner : nat) (staleNodes : list OtherNode)
    (staleTimer : option nat) (g : ScrollGeometry) (e : Slip) :
  sound e ->
  exists e',
    frameCallback owner staleNodes staleTimer g e = Ok (tt, e') /\
    sound e' /\
    (target e = None -> e' = e) /\
    (forall c, inState c e -> inState c e') /\
    target e' = target e /\
    dispatched (trace e') = dispatched (trace e) /\
    (forall t, In t (timers e') -> In t (timers e)).
Proof.
  intros Hsound. pose proof Hsound as [Hst Hidle].
  pose proof Hst as (s & Hs & Hr & Htag & Hsess & Hpos & Htim).
  unfold frameCallback. unfold bind at 1. unfold gets at 1.
  destruct (target e) as [tg|] eqn:Ht.
  2:{ exists e. split_all; auto. }
  assert (Some tg <> None) as Htg by discriminate.
  destruct (Hpos Htg) as (Hsp & Hlp & Hpp).
  destruct e as [st tg0 ut mh sp lp pp cps w nr nt ts tr].
  simpl in *. subst st tg0.
  destruct sp as [sp|]; [|congruence]. destruct lp as [lp|]; [|congruence].
  unfold frameClosure, getTotalMovement, set_mouseOutsideTimer. unfold_m. cbn.
  destruct (ref s =? owner)%nat; [destruct (body s) as [|ht|oi others mot] eqn:Hb|].
  1,2,4: destruct staleTimer as [id|]; cbn; rewrite emits_eq; cbn;
    (eexists; split; [reflexivity|]);
    (split; [apply (sound_frame _ _ Hsound); simpl; auto;
             intros t Hin _; eapply in_drop_timer_hold; eassumption|]);
    simpl; rewrite dispatched_app, siblingTransforms_quiet;
    split_all; try reflexivity; try discriminate; auto;
    intros t Hin; eapply in_drop_timer_hold; eassumption.
  destruct mot as [id|]; cbn; rewrite ?Hb; cbn; rewrite emits_eq; cbn;
    (eexists; split; [reflexivity|]); simpl;
    rewrite dispatched_app, siblingTransforms_quiet.
  - split; [split|].
    + eexists. split; [reflexivity|]. simpl.
      unfold tagged in *. rewrite Hb in Htag. simpl.
      split_all; try assumption; try discriminate.
      intros t Hin Hcb. exfalso. apply in_drop_timer_hold in Hin.
      specialize (Htim t Hin Hcb). congruence.
    + simpl. intros s' [= <-]. discriminate.
    + split_all; try reflexivity; try discriminate.
      * intros c (s' & [= <-] & Hc). eexists. split; [reflexivity | exact Hc].
      * intros t Hin. eapply in_drop_timer_hold; eassumption.
  - split; [apply (sound_frame _ _ Hsound); simpl; auto|].
    split_all; try reflexivity; try discriminate; auto.
Qed.

(** [setTarget] on a sound engine.  Without a child of the container on
    the path of the event it cancels; otherwise it installs the session,
    its scroll offsets those of the scroll container it picked. *)
Lemma setTarget_runs (ev : PointerDown) (e : Slip) :
  sound e ->
  exists found e',
    setTarget ev e = Ok (found, e') /\
    (found = false ->
     findTargetNode (e_target ev :: e_ancestors ev) = None /\
     sound e' /\ inState idle e' /\
     dispatched (trace e') = dispatched (trace e)) /\
    (found = true ->
     findTargetNode (e_target ev :: e_ancestors ev) <> None /\
     exists tg,
       target e' = Some tg /\ origScrollTop tg = scrollTop (world e') /\
       originalTarget tg = a_node (e_target ev) /\
       state e' = state e /\ nextRef e' = nextRef e /\ timers e' = timers e /\
       trace e' = trace e /\ usingTouch e' = usingTouch e /\
       canPreventScrolling e' = canPreventScrolling e).
Proof.
  intros Hsound. unfold setTarget.
  destruct (findTargetNode (e_target ev :: e_ancestors ev)) as [[n up]|] eqn:Ef.
  - unfold_m. cbn. eexists true, _. split; [reflexivity|].
    split; [discriminate|]. intros _. split; [discriminate|].
    eexists. simpl. split_all; reflexivity.
  - destruct (setState_idle_sound e Hsound) as [e1 (Hrun & Hsound1 & Hin & _ & _ & Hd)].
    unfold bind. rewrite Hrun. eexists false, e1. split; [reflexivity|].
    split; [|discriminate]. intros _. auto.
Qed.

(** After a successful [setTarget] and [startAtPosition]: a sound engine
    in the undecided or the reorder state. *)
Lemma startAtPosition_sound (p : Point) (e : Slip) (tg : Target) :
  (exists s, state e = Some s /\ (ref s < nextRef e)%nat /\ tagged s /\
             forall t, In t (timers e) -> timer_cb t = HoldTimer ->
                       body s = UndecidedState (Some (timer_id t))) ->
  target e = Some tg ->
  exists e',
    startAtPosition p e = Ok (tt, e') /\ sound e' /\
    (inState undecided e' \/ inState reorder e') /\
    startPosition e' = Some p /\ latestPosition e' = Some p /\
    previousPosition e' = Some p /\ world e' = world e /\
    canPreventScrolling e' = canPreventScrolling e /\
    exists tg', target e' = Some tg' /\ origScrollTop tg' = origScrollTop tg.
Proof.
  intros (s & Hs & Hr & Htag & Htim) Ht.
  unfold startAtPosition. unfold bind, modify.
  destruct (setState_undecided_sound (set_positions (Some p) (Some p) (Some p) e) tg)
    as [e' (Hrun & Hsound & Hin & Hp & Htg)].
  - exists s. simpl. split_all; try assumption; try discriminate.
    + intros _. congruence.
    + intros _. split_all; discriminate.
  - exact Ht.
  - exists e'. destruct Hp as (Hp1 & Hp2 & Hp3 & Hp4 & Hp5). simpl in *.
    split_all; assumption.
Qed.

Lemma started_from (p : Point) (e0 e1 e2 : Slip) (tg : Target) :
  sound e0 ->
  target e1 = Some tg -> origScrollTop tg = scrollTop (world e1) ->
  state e1 = state e0 -> nextRef e1 = nextRef e0 -> timers e1 = timers e0 ->
  state e2 = state e1 -> target e2 = target e1 -> nextRef e2 = nextRef e1 ->
  timers e2 = timers e1 -> world e2 = world e1 ->
  exists e', startAtPosition p e2 = Ok (tt, e') /\ sound e' /\ started p e' /\
             canPreventScrolling e' = canPreventScrolling e2.
Proof.
  intros [Hst _] Ht Ho Hs Hr Hti Hs2 Ht2 Hr2 Hti2 Hw2.
  destruct Hst as (s & Hs0 & Href & Htag & _ & _ & Htim).
  destruct (startAtPosition_sound p e2 tg)
    as [e' (Hrun & Hsound & Hin & Hp1 & Hp2 & Hp3 & Hw & Hc & tg' & Ht' & Ho')].
  - exists s. rewrite Hs2, Hs, Hr2, Hr, Hti2, Hti. auto.
  - congruence.
  - exists e'. split; [exact Hrun|]. split; [exact Hsound|].
    unfold started. split_all; try assumption.
    exists tg'. split; [exact Ht'|]. congruence.
Qed.

(** A mouse-down on a sound engine. *)
Lemma onMouseDown_runs (button : nat) (ev : PointerDown) (e : Slip) :
  sound e ->
  exists e',
    onMouseDown button ev e = Ok (tt, e') /\ sound e' /\
    (usingTouch e = true \/ button <> 0%nat -> e' = e) /\
    (usingTouch e = false -> button = 0%nat ->
     (findTargetNode (e_target ev :: e_ancestors ev) = None ->
      inState idle e' /\ dispatched (trace e') = dispatched (trace e)) /\
     (findTargetNode (e_target ev :: e_ancestors ev) <> None ->
      started (e_sample ev) e' /\ canPreventScrolling e' = true)).
Proof.
  intros Hsound. unfold onMouseDown. unfold bind at 1. unfold gets at 1.
  destruct (usingTouch e) eqn:Etouch; simpl.
  { exists e. split_all; auto; discriminate. }
  destruct (Nat.eqb_spec button 0) as [->|Hb]; simpl.
  2:{ exists e. split_all; auto; congruence. }
  destruct (setTarget_runs ev e Hsound) as (found & e1 & Hrun & Hmiss & Hhit).
  unfold bind at 1. rewrite Hrun. destruct found.
  - destruct (Hhit eq_refl) as (Hsome & tg & H1 & H2 & H3 & H4 & H5 & H6 & H7).
    unfold addMouseHandlers. unfold bind at 1. unfold bind at 1. unfold gets at 1.
    assert (forall e2, state e2 = state e1 -> target e2 = target e1 ->
                       nextRef e2 = nextRef e1 -> timers e2 = timers e1 ->
                       world e2 = world e1 ->
              exists e', startAtPosition (e_sample ev) e2 = Ok (tt, e') /\
                         sound e' /\ started (e_sample ev) e' /\
                         canPreventScrolling e' = canPreventScrolling e2) as Hstart
      by (intros e2; apply (started_from _ e e1 e2 tg Hsound); assumption).
    destruct (mouseHandlersAttached e1); unfold ret, modify, bind at 1;
      match goal with
      | |- context [startAtPosition _ ?e2] =>
          destruct (Hstart e2) as [e' (Hrun' & Hsound' & Hstarted & Hcan)];
            try reflexivity
      end;
      exists e'; (split; [exact Hrun'|]); (split; [exact Hsound'|]);
      (split; [intros [?|Hne]; [congruence | exfalso; apply Hne; reflexivity]|]);
      intros _ _;
      (split; [intros Hnone; exfalso; apply Hsome; exact Hnone
              | intros _; split; [exact Hstarted | exact Hcan]]).
  - destruct (Hmiss eq_refl) as (Hnone & Hsound1 & Hin & Hd).
    exists e1. split; [reflexivity|]. split; [exact Hsound1|].
    split; [intros [?|Hne]; [congruence | exfalso; apply Hne; reflexivity]|].
    intros _ _. split; [auto | intros Hsome; exfalso; apply Hsome; exact Hnone].
Qed.

(** A touch-start on a sound engine. *)
Lemma onTouchStart_runs (moreTouches : nat) (ev : PointerDown) (e : Slip) :
  sound e ->
  exists e',
    onTouchStart moreTouches ev e = Ok (tt, e') /\ sound e' /\
    ((0 < moreTouches)%nat \/
     findTargetNode (e_target ev :: e_ancestors ev) = None ->
     inState idle e' /\ dispatched (trace e') = dispatched (trace e)) /\
    (moreTouches = 0%nat ->
     findTargetNode (e_target ev :: e_ancestors ev) <> None ->
     started (e_sample ev) e' /\ canPreventScrolling e' = true).
Proof.
  intros Hsound. unfold onTouchStart. unfold bind at 1. unfold modify at 1.
  unfold bind at 1. unfold modify at 1.
  set (e0 := set_canPreventScrolling true (set_usingTouch true e)).
  assert (sound e0) as Hsound0 by (by_frame Hsound).
  destruct moreTouches as [|more]; simpl.
  - destruct (setTarget_runs ev e0 Hsound0) as (found & e1 & Hrun & Hmiss & Hhit).
    unfold bind at 1. rewrite Hrun. destruct found.
    + destruct (Hhit eq_refl) as (Hsome & tg & H1 & H2 & H3 & H4 & H5 & H6 & H7 & H8 & H9).
      destruct (started_from (e_sample ev) e0 e1 e1 tg Hsound0)
        as [e' (Hrun' & Hsound' & Hstarted & Hcan)]; try assumption; try reflexivity.
      exists e'. split; [exact Hrun'|]. split; [exact Hsound'|].
      split; [intros [?|Hnone]; [lia | exfalso; apply Hsome; exact Hnone]|].
      intros _ _. split; [exact Hstarted|]. rewrite Hcan, H9. reflexivity.
    + destruct (Hmiss eq_refl) as (Hnone & Hsound1 & Hin & Hd).
      exists e1. split; [reflexivity|]. split; [exact Hsound1|].
      split; [auto | intros _ Hsome; exfalso; apply Hsome; exact Hnone].
  - destruct (setState_idle_sound e0 Hsound0) as [e1 (Hrun & Hsound1 & Hin & _ & _ & Hd)].
    exists e1. split; [exact Hrun|]. split; [exact Hsound1|].
    split; [auto | discriminate].
Qed.

Lemma handle_sound (i : Input) (e : Slip) :
  sound e -> exists e', handle i e = Ok (tt, e') /\ sound e'.
Proof.
  intros Hsound. destruct i as [p|p|button|touches|atDocument| |id]; simpl.
  - apply updatePosition_sound. exact Hsound.
  - unfold onTouchMove. unfold bind.
    destruct (updatePosition_sound p e Hsound) as [e1 [Hrun Hsound1]].
    rewrite Hrun. eexists. split; [reflexivity|]. by_frame Hsound1.
  - unfold onMouseUp. unfold bind, gets.
    destruct (usingTouch e || negb (button =? 0)%nat); [exists e; auto|].
    apply endGesture_sound. exact Hsound.
  - unfold onTouchEnd. destruct (1 <? touches)%nat.
    + destruct (setState_idle_sound e Hsound) as [e1 (Hrun & Hsound1 & _)].
      exists e1. auto.
    + apply endGesture_sound. exact Hsound.
  - apply onMouseLeave_sound. exact Hsound.
  - destruct (setState_idle_sound e Hsound) as [e1 (Hrun & Hsound1 & _)].
    exists e1. auto.
  - apply fireTimer_sound. exact Hsound.
Qed.

Lemma deliver_sound (ev : Event) (e : Slip) :
  sound e -> exists e', deliver ev e = Ok (tt, e') /\ sound e'.
Proof.
  intros Hsound. destruct ev as [i|button d|more d|owner nodes timer g]; simpl.
  - apply handle_sound. exact Hsound.
  - destruct (onMouseDown_runs button d e Hsound) as [e' [Hrun [Hsound' _]]].
    exists e'. auto.
  - destruct (onTouchStart_runs more d e Hsound) as [e' [Hrun [Hsound' _]]].
    exists e'. auto.
  - destruct (frameCallback_runs owner nodes timer g e Hsound)
      as [e' (Hrun & Hsound' & _)].
    exists e'. auto.
Qed.

(** No handler ever raises.  From [new Slip(container)] on, whatever
    events, timers and animation frames arrive in whatever order, every
    handler returns, and the engine keeps its invariants: there is an
    active state object tagged with its constructor, a session exists
    exactly when the state is not idle, a session has its three position
    samples, and a pending hold timer is the one of the active undecided
    state. *)
Theorem engine_never_raises (w : World) (events : list Event) :
  exists e0 e,
    construct w = Ok (tt, e0) /\
    deliverAll events e0 = Ok (tt, e) /\
    sound e /\
    (forall s, state e = Some s -> (body s = IdleState <-> target e = None)).
Proof.
  destruct (construct_sound w) as [e0 (Hrun0 & Hsound0 & _)].
  exists e0.
  assert (forall evs e1, sound e1 ->
            exists e, deliverAll evs e1 = Ok (tt, e) /\ sound e) as Hall.
  { induction evs as [|ev evs IH]; intros e1 Hsound1; simpl.
    - exists e1. auto.
    - destruct (deliver_sound ev e1 Hsound1) as [e2 [Hrun2 Hsound2]].
      destruct (IH e2 Hsound2) as [e [Hrun Hsound]].
      exists e. unfold bind. rewrite Hrun2. auto. }
  destruct (Hall events e0 Hsound0) as [e [Hrun Hsound]].
  exists e. split_all; try assumption.
  - destruct Hsound as [(s0 & Hs0 & _ & _ & Hsess & _) Hidle].
    intros s Hs. split.
    + apply Hidle. exact Hs.
    + intros Hnone. rewrite Hs0 in Hs. injection Hs as <-.
      destruct (body s0) eqn:Hb; [reflexivity| |];
        exfalso; apply Hsess; [discriminate | exact Hnone | discriminate | exact Hnone].
Qed.

(** ** What the handlers do to a gesture *)

Ltac sound_sample :=
  split;
  [ eexists; split; [reflexivity|]; simpl; split_all;
    try reflexivity; try discriminate; try lia;
    try (intros _; split_all; discriminate);
    try (intros t Hin; simpl in Hin;
         intuition (subst; first [reflexivity | discriminate]))
  | intros s Hs; simpl in Hs; injection Hs as <-; discriminate ].

Lemma sample_undecided_sound : sound sample_undecided.
Proof. sound_sample. Defined.

Lemma sample_reorder_sound (latest : Point) : sound (sample_reorder latest).
Proof. sound_sample. Defined.

Lemma sample_resampled_sound : sound sample_resampled.
Proof.
  apply (sound_frame (sample_reorder origin));
    try reflexivity; try apply sample_reorder_sound;
    try (intros _; discriminate); try (simpl; lia).
Defined.

Lemma idle_no_hold (e : Slip) :
  sound e -> inState idle e ->
  forall t, In t (timers e) -> timer_cb t <> HoldTimer.
Proof.
  intros [(s & Hs & _ & Htag & _ & _ & Htim) _] (s' & Hs' & Hc) t Hin Hcb.
  rewrite Hs in Hs'. injection Hs' as <-.
  specialize (Htim t Hin Hcb). unfold tagged in Htag. rewrite Htim in Htag.
  congruence.
Qed.

Lemma tagged_body (e : Slip) (c : Ctor) (s : State) :
  sound e -> state e = Some s -> ctor s = Some c ->
  match c with
  | idle => body s = IdleState
  | undecided => exists ht, body s = UndecidedState ht
  | reorder => exists oi others mot, body s = ReorderState oi others mot
  end.
Proof.
  intros [(s0 & Hs0 & _ & Htag & _) _] Hs Hc.
  rewrite Hs in Hs0. injection Hs0 as <-. unfold tagged in Htag.
  destruct (body s) as [|ht|oi others mot];
    rewrite Hc in Htag; injection Htag as ->; eauto.
Qed.

(** Cancelling ends any gesture without a word to the host: [cancel()],
    and a touch-end while other fingers are still down, leave the engine
    idle and without session or pending hold timer, and dispatch nothing,
    neither a reorder nor a tap event. *)
Theorem cancel_ends_gesture (e : Slip) :
  sound e ->
  exists e',
    cancel e = Ok (tt, e') /\
    (forall touches, (1 < touches)%nat -> onTouchEnd touches e = Ok (tt, e')) /\
    inState idle e' /\ target e' = None /\
    dispatched (trace e') = dispatched (trace e) /\
    (forall t, In t (timers e') -> timer_cb t <> HoldTimer).
Proof.
  intros Hsound.
  destruct (setState_idle_sound e Hsound) as [e' (Hrun & Hsound' & Hin & Ht & _ & Hd)].
  exists e'. split_all; try assumption.
  - intros touches Hmany. unfold onTouchEnd.
    apply Nat.ltb_lt in Hmany. rewrite Hmany. exact Hrun.
  - apply idle_no_hold; assumption.
Qed.

Lemma cancel_ends_gesture_witness :
  exists e', cancel (sample_reorder origin) = Ok (tt, e') /\
             dispatched (trace e') = [].
Proof.
  destruct (cancel_ends_gesture (sample_reorder origin) (sample_reorder_sound origin))
    as [e' (Hrun & _ & _ & _ & Hd & _)].
  exists e'. split; assumption.
Defined.

(** A release in the undecided state is a tap: one tap event goes to the
    original event target, the engine returns to idle without session or
    pending hold timer, and when a listener rejects the tap the default
    action of the releasing event is prevented. *)
Theorem release_is_tap (e : Slip) (tg : Target) :
  sound e -> inState undecided e -> target e = Some tg ->
  exists e',
    endGesture e = Ok (tt, e') /\
    onTouchEnd 0 e = Ok (tt, e') /\
    (usingTouch e = false -> onMouseUp 0 e = Ok (tt, e')) /\
    inState idle e' /\ target e' = None /\
    dispatched (trace e') =
      (originalTarget tg, ev_tap, None) :: dispatched (trace e) /\
    (forall t, In t (timers e') -> timer_cb t <> HoldTimer) /\
    (listeners (world e) (originalTarget tg) ev_tap = false ->
     hd_error (trace e') = Some PreventDefault).
Proof.
  intros Hsound (s & Hs & Hc) Ht.
  destruct (tagged_body e undecided s Hsound Hs Hc) as [ht Hb].
  assert (exists e',
            endGesture e = Ok (tt, e') /\ sound e' /\ inState idle e' /\
            target e' = None /\
            dispatched (trace e') =
              (originalTarget tg, ev_tap, None) :: dispatched (trace e) /\
            (listeners (world e) (originalTarget tg) ev_tap = false ->
             hd_error (trace e') = Some PreventDefault))
    as [e' (Hrun & Hsound' & Hin & Ht' & Hd & Hprevent)].
  { unfold endGesture. unfold bind at 1. unfold deref at 1. rewrite Hs.
    unfold has_onEnd, call_onEnd. rewrite Hb.
    unfold undecided_onEnd. unfold_m. rewrite Ht. cbn -[setState].
    match goal with
    | |- context [setState idle ?mid] =>
        destruct (setState_idle_sound mid)
          as [e1 (Hrun & Hsound1 & Hin1 & Ht1 & _ & Hd1)];
          [by_frame Hsound|]
    end.
    rewrite Hrun.
    destruct (listeners (world e) (originalTarget tg) ev_tap); simpl.
    - exists e1. split_all; try assumption; try reflexivity. discriminate.
    - eexists. split; [reflexivity|].
      split; [by_frame Hsound1|].
      split; [destruct Hin1 as (s1 & Hs1 & Hc1); exists s1; auto|].
      split; [exact Ht1|]. split; [exact Hd1|].
      intros _. reflexivity. }
  exists e'. split_all; try assumption.
  - unfold onMouseUp. unfold bind, gets. intros ->. exact Hrun.
  - apply idle_no_hold; assumption.
Qed.

Lemma release_is_tap_witness :
  exists e',
    endGesture sample_undecided = Ok (tt, e') /\
    dispatched (trace e') = [(item 40 2, ev_tap, None)].
Proof.
  destruct (release_is_tap sample_undecided (measured sample_target)
              sample_undecided_sound (ex_intro _ _ (conj eq_refl eq_refl)) eq_refl)
    as [e' (Hrun & _ & _ & _ & _ & Hd & _)].
  exists e'. split; assumption.
Defined.

(** When the mouse leaves the document in the undecided state the gesture
    is abandoned at once: the engine goes idle, the hold timer is gone,
    nothing is dispatched.  In touch mode, or for a leave inside the
    document, the handler does nothing. *)
Theorem mouse_leave_abandons (e : Slip) :
  sound e -> inState undecided e ->
  (usingTouch e = true -> forall a, onMouseLeave a e = Ok (tt, e)) /\
  onMouseLeave false e = Ok (tt, e) /\
  (usingTouch e = false ->
   exists e',
     onMouseLeave true e = Ok (tt, e') /\
     inState idle e' /\ target e' = None /\
     dispatched (trace e') = dispatched (trace e) /\
     (forall t, In t (timers e') -> timer_cb t <> HoldTimer)).
Proof.
  intros Hsound (s & Hs & Hc).
  destruct (tagged_body e undecided s Hsound Hs Hc) as [ht Hb].
  unfold onMouseLeave. unfold_m. split_all.
  - intros -> a. reflexivity.
  - destruct (usingTouch e); reflexivity.
  - intros ->. rewrite Hs. unfold has_onLeave, call_onLeave. rewrite Hb.
    unfold undecided_onLeave.
    destruct (setState_idle_sound e Hsound) as [e' (Hrun & Hsound' & Hin & Ht & _ & Hd)].
    exists e'. split_all; try assumption. apply idle_no_hold; assumption.
Qed.

Lemma mouse_leave_abandons_witness :
  exists e', onMouseLeave true sample_undecided = Ok (tt, e') /\ inState idle e'.
Proof.
  destruct (proj2 (proj2 (mouse_leave_abandons sample_undecided
                            sample_undecided_sound
                            (ex_intro _ _ (conj eq_refl eq_refl))))
                  eq_refl)
    as [e' (Hrun & Hin & _)].
  exists e'. split; assumption.
Defined.

Lemma find_last_timer (ts : list Timer) (t : Timer) (id : nat) :
  timer_id t = id ->
  (forall t', In t' ts -> timer_id t' <> id) ->
  find (fun t' => Nat.eqb (timer_id t') id) (ts ++ [t]) = Some t.
Proof.
  intros Hid Hts. induction ts as [|a ts IH]; simpl.
  - rewrite Hid, Nat.eqb_refl. reflexivity.
  - assert (Nat.eqb (timer_id a) id = false) as ->
      by (apply Nat.eqb_neq; apply Hts; left; reflexivity).
    apply IH. intros t' Hin. apply Hts. right. exact Hin.
Qed.

(** When the mouse leaves the document during a drag, the drag is not
    cancelled at once: the reorder state stays, with one grace timer of
    700ms armed in place of the previous one.  When that timer fires the
    engine goes idle and the session ends, and no reorder event is
    dispatched. *)
Theorem leave_during_drag (e : Slip) (s : State) (oi : nat)
    (others : list OtherNode) (mot : option nat) :
  sound e -> state e = Some s -> body s = ReorderState oi others mot ->
  usingTouch e = false ->
  (forall t, In t (timers e) -> (timer_id t < nextTimer e)%nat) ->
  exists e1,
    onMouseLeave true e = Ok (tt, e1) /\
    state e1 = Some (mkState (ref s) (ctor s)
                             (ReorderState oi others (Some (nextTimer e)))) /\
    timers e1 =
      match mot with
      | Some id => drop_timer id (timers e)
      | None => timers e
      end ++ [mkTimer (nextTimer e) (MouseOutsideTimer (ref s)) 700] /\
    dispatched (trace e1) = dispatched (trace e) /\
    exists e2,
      fireTimer (nextTimer e) e1 = Ok (tt, e2) /\
      inState idle e2 /\ target e2 = None /\
      dispatched (trace e2) = dispatched (trace e).
Proof.
  intros Hsound Hs Hb Htouch Hids.
  pose proof Hsound as [(s0 & Hs0 & Hr & Htag & Hsess & Hpos & Htim) Hidle].
  rewrite Hs in Hs0. injection Hs0 as <-.
  assert (target e <> None) as Htg by (apply Hsess; congruence).
  assert (ctor s = Some reorder) as Hc
    by (unfold tagged in Htag; rewrite Hb in Htag; exact Htag).
  destruct (reorder_onLeave_runs e s oi others mot Hs Hb)
    as [e1 (Hrun & Hs1 & Hti1 & Hnt1 & Ht1 & Hr1 & Hp1 & Hd1)].
  exists e1. split_all; try assumption.
  { unfold onMouseLeave. unfold_m. rewrite Htouch, Hs.
    unfold has_onLeave, call_onLeave. rewrite Hb. exact Hrun. }
  set (rest := match mot with
               | Some id => drop_timer id (timers e)
               | None => timers e
               end) in *.
  assert (forall t', In t' rest -> timer_id t' <> nextTimer e) as Hrest.
  { intros t' Hin. subst rest.
    assert (In t' (timers e)) as Hin0
      by (destruct mot; [eapply in_drop_timer_hold|]; eassumption).
    specialize (Hids t' Hin0). lia. }
  unfold fireTimer. unfold bind at 1. unfold gets at 1.
  rewrite Hti1,
    (find_last_timer rest (mkTimer (nextTimer e) (MouseOutsideTimer (ref s)) 700)
                     (nextTimer e) eq_refl Hrest).
  unfold bind at 1. unfold modify at 1. simpl runCallback.
  unfold mouseOutsideTimerFired. unfold bind at 1. unfold gets at 1.
  cbn [state set_timers]. rewrite Hs1. cbn [ref]. rewrite Nat.eqb_refl.
  unfold set_mouseOutsideTimer. cbn [body ref ctor].
  unfold bind, modify.
  match goal with
  | |- context [cancel ?mid] =>
      destruct (setState_idle_from mid)
        as [e2 (Hrun2 & Hs2 & Ht2 & _ & _ & Hd2 & _)]
  end.
  - intros s' oi' others' mot' _ _. simpl. congruence.
  - simpl. intros s' [= <-]. unfold has_ctor. simpl. rewrite Hc. reflexivity.
  - exists e2. split; [exact Hrun2|]. split_all.
    + eexists. split; [exact Hs2 | reflexivity].
    + exact Ht2.
    + rewrite Hd2. simpl. exact Hd1.
Qed.

Lemma leave_during_drag_witness :
  exists e1 e2,
    onMouseLeave true (sample_reorder origin) = Ok (tt, e1) /\
    fireTimer 2 e1 = Ok (tt, e2) /\ inState idle e2.
Proof.
  destruct (leave_during_drag (sample_reorder origin) _ _ _ None
              (sample_reorder_sound origin) eq_refl eq_refl eq_refl)
    as [e1 (Hrun & _ & _ & _ & e2 & Hrun2 & Hin & _)].
  - intros t [].
  - exists e1, e2. split_all; assumption.
Defined.

(** A touch move uses up the one chance to prevent scrolling: after any
    touch move the hold timer, should the engine still be undecided when
    it fires, does nothing, so the gesture cannot become a drag. *)
Theorem touch_move_disarms_hold (p : Point) (e : Slip) :
  sound e ->
  exists e',
    onTouchMove p e = Ok (tt, e') /\
    canPreventScrolling e' = false /\
    (inState undecided e' -> runCallback HoldTimer e' = Ok (tt, e')).
Proof.
  intros Hsound.
  destruct (updatePosition_sound p e Hsound) as [e1 [Hrun Hsound1]].
  unfold onTouchMove. unfold bind, modify. rewrite Hrun.
  eexists. split; [reflexivity|]. split; [reflexivity|].
  intros (s & Hs & Hc). simpl in Hs.
  assert (sound (set_canPreventScrolling false e1)) as Hsound'
    by (by_frame Hsound1).
  destruct (tagged_body _ undecided s Hsound' Hs Hc) as [ht Hb].
  destruct Hsound' as [(s0 & Hs0 & _ & _ & Hsess & Hpos & _) _].
  simpl in Hs0. rewrite Hs in Hs0. injection Hs0 as <-.
  assert (target (set_canPreventScrolling false e1) <> None) as Htg
    by (apply Hsess; congruence).
  destruct (Hpos Htg) as (Hsp & Hlp & _).
  destruct (getAbsoluteMovement_runs _ Htg Hsp Hlp) as [move Hmove].
  simpl runCallback. unfold holdTimerFired. unfold bind at 1. rewrite Hmove.
  reflexivity.
Qed.

(** Pointer-down.  A mouse-down in touch mode or with another button than
    the primary one changes nothing.  A pointer-down that is not on a
    child of the container, or a touch-start with more than one finger
    down, cancels: the engine is idle and nothing was dispatched.  Any
    other pointer-down starts a gesture: the engine is in the undecided
    state, or in the reorder state when the listeners skipped the wait,
    with its samples at the pointer-down and scrolling still preventable. *)
Theorem pointer_down_outcome (ev : PointerDown) (e : Slip) :
  sound e ->
  let found := findTargetNode (e_target ev :: e_ancestors ev) in
  (forall button,
     exists e',
       onMouseDown button ev e = Ok (tt, e') /\
       (usingTouch e = true \/ button <> 0%nat -> e' = e) /\
       (usingTouch e = false -> button = 0%nat -> found = None ->
        inState idle e' /\ dispatched (trace e') = dispatched (trace e)) /\
       (usingTouch e = false -> button = 0%nat -> found <> None ->
        started (e_sample ev) e' /\ canPreventScrolling e' = true)) /\
  (forall moreTouches,
     exists e',
       onTouchStart moreTouches ev e = Ok (tt, e') /\
       ((0 < moreTouches)%nat \/ found = None ->
        inState idle e' /\ dispatched (trace e') = dispatched (trace e)) /\
       (moreTouches = 0%nat -> found <> None ->
        started (e_sample ev) e' /\ canPreventScrolling e' = true)).
Proof.
  intros Hsound found. subst found. split.
  - intros button.
    destruct (onMouseDown_runs button ev e Hsound) as [e' (Hrun & _ & Hskip & Hgo)].
    exists e'. split_all; try assumption.
    + intros Ht Hb Hnone. apply (Hgo Ht Hb). exact Hnone.
    + intros Ht Hb Hsome. apply (Hgo Ht Hb). exact Hsome.
  - intros more.
    destruct (onTouchStart_runs more ev e Hsound) as [e' (Hrun & _ & Hstop & Hgo)].
    exists e'. split_all; assumption.
Qed.

(** A gesture starts without movement: right after the pointer-down that
    started it, the total movement is zero in both directions and in
    time, whatever the scroll position. *)
Theorem gesture_starts_at_rest (p : Point) (e : Slip) :
  started p e ->
  exists move,
    getTotalMovement e = Ok (Some move, e) /\
    x move == 0 /\ y move == 0 /\ time move == 0.
Proof.
  intros (_ & Hsp & Hlp & _ & tg & Ht & Ho).
  unfold getTotalMovement. rewrite Ht, Hlp, Hsp.
  eexists. split; [reflexivity|]. cbn [x y time]. rewrite Ho.
  rewrite !fsub_same by reflexivity. split_all; reflexivity.
Qed.

(** ** The position samples *)

Lemma updatePosition_before_resample (p : Point) (e : Slip) (tg : Target) :
  sound e -> target e = Some tg ->
  exists e1,
    updatePosition p e = resample e1 /\
    startPosition e1 = startPosition e /\ latestPosition e1 = Some p /\
    previousPosition e1 = previousPosition e.
Proof.
  intros Hsound Ht. pose proof Hsound as [Hst Hidle].
  pose proof Hst as (s & Hs & Hr & Htag & Hsess & Hpos & Htim).
  assert (target e <> None) as Htg by congruence.
  destruct (Hpos Htg) as (Hsp & Hlp & Hpp).
  rewrite (updatePosition_with_session p e s tg Hs Ht).
  assert (sound (moved p e)) as Hsound0.
  { apply (sound_frame e); simpl; auto. intros _. discriminate. }
  unfold bind at 1.
  destruct (body s) as [|ht|oi others mot] eqn:Hb.
  - specialize (Hidle s Hs Hb). congruence.
  - unfold has_onMove, call_onMove. rewrite Hb.
    destruct (getAbsoluteMovement_runs (moved p e)) as [move Hmove];
      simpl; try (rewrite Ht); auto; try discriminate.
    unfold undecided_onMove. unfold bind at 1. unfold bind at 1.
    rewrite Hmove. unfold bind at 1.
    destruct (Qltb 20 (y move)).
    + destruct (setState_idle_sound (moved p e) Hsound0)
        as [e1 (Hrun & _ & _ & _ & Hp1 & _)].
      rewrite Hrun. destruct Hp1 as (Hs1 & Hl1 & Hp1 & _). simpl in Hs1, Hl1, Hp1.
      destruct (Qltb (fmul (y move) literal_1_2) (x move)); unfold ret, emit, modify; simpl;
        eexists; (split; [reflexivity|]); simpl; auto.
    + destruct (Qltb (fmul (y move) literal_1_2) (x move)); unfold ret, emit, modify; simpl;
        eexists; (split; [reflexivity|]); simpl; auto.
  - unfold has_onMove, call_onMove. rewrite Hb.
    unfold reorder_onMove, bind, emit, modify, ret. simpl.
    eexists. split; [reflexivity|]. simpl. auto.
Qed.

(** During a gesture every move stores the new sample as the latest one,
    leaves the start sample alone, and replaces the velocity sample by the
    new one exactly when the difference of their time stamps, the double
    [pos.time - previousPosition.time] the code computes, exceeds 100;
    afterwards that difference between the latest and the velocity sample
    is at most 100. *)
Theorem velocity_sample (p previous : Point) (e : Slip) (tg : Target) :
  sound e -> target e = Some tg -> previousPosition e = Some previous ->
  exists e' kept,
    updatePosition p e = Ok (tt, e') /\
    latestPosition e' = Some p /\ startPosition e' = startPosition e /\
    previousPosition e' = Some kept /\
    fsub (time p) (time kept) <= 100 /\
    (100 < fsub (time p) (time previous) -> kept = p) /\
    (fsub (time p) (time previous) <= 100 -> kept = previous).
Proof.
  intros Hsound Ht Hp.
  destruct (updatePosition_before_resample p e tg Hsound Ht)
    as [e1 (Hrun & Hs1 & Hl1 & Hp1)].
  rewrite Hrun. rewrite Hp in Hp1.
  unfold resample. unfold_m. rewrite Hl1, Hp1.
  case_Qltb 100 (fsub (time p) (time previous)).
  - eexists _, p. split; [reflexivity|]. cbn [latestPosition startPosition
      previousPosition set_positions]. rewrite Hl1.
    rewrite (fsub_same (time p) (time p)) by reflexivity.
    split_all; try reflexivity; try assumption; try lra.
  - exists e1, previous.
    split_all; try reflexivity; try assumption; try lra;
      try (intros; contradiction).
Qed.

Lemma velocity_sample_witness :
  (exists e',
     updatePosition (mkPoint 3 4 250) (sample_reorder origin) = Ok (tt, e') /\
     previousPosition e' = Some (mkPoint 3 4 250)) /\
  (exists e',
     updatePosition (mkPoint 3 4 (fl (1002 # 10))) sample_resampled = Ok (tt, e') /\
     previousPosition e' = Some (mkPoint 0 0 (fl (2 # 10)))).
Proof.
  split.
  - destruct (velocity_sample (mkPoint 3 4 250) origin (sample_reorder origin)
                (measured sample_target) (sample_reorder_sound origin)
                eq_refl eq_refl)
      as (e' & kept & Hrun & _ & _ & Hp & _ & Hnew & _).
    exists e'. split; [exact Hrun|].
    rewrite Hp, Hnew; [reflexivity | vm_compute; reflexivity].
  - destruct (velocity_sample (mkPoint 3 4 (fl (1002 # 10)))
                (mkPoint 0 0 (fl (2 # 10))) sample_resampled
                (measured sample_target) sample_resampled_sound
                eq_refl eq_refl)
      as (e' & kept & Hrun & _ & _ & Hp & _ & _ & Hold).
    exists e'. split; [exact Hrun|].
    rewrite Hp, Hold; [reflexivity | vm_compute; discriminate].
Defined.

(** ** The animation frame *)

(** The frame callback is purely visual: on a sound engine it returns,
    without a session it changes nothing at all, and with one it leaves
    the engine in its state with its session, dispatches nothing and arms
    no timer. *)
Theorem frame_is_visual (owner : nat) (staleNodes : list OtherNode)
    (staleTimer : option nat) (g : ScrollGeometry) (e : Slip) :
  sound e ->
  exists e',
    frameCallback owner staleNodes staleTimer g e = Ok (tt, e') /\
    (target e = None -> e' = e) /\
    (forall c, inState c e -> inState c e') /\
    target e' = target e /\
    dispatched (trace e') = dispatched (trace e) /\
    (forall t, In t (timers e') -> In t (timers e)).
Proof.
  intros Hsound.
  destruct (frameCallback_runs owner staleNodes staleTimer g e Hsound)
    as [e' (Hrun & _ & H1 & H2 & H3 & H4 & H5)].
  exists e'. split_all; assumption.
Qed.




Lemma frame_is_visual_witness :
  exists e',
    frameCallback 2 [] None sample_geometry (sample_reorder origin) = Ok (tt, e') /\
    inState reorder e'.
Proof.
  destruct (frame_is_visual 2 [] None sample_geometry (sample_reorder origin)
              (sample_reorder_sound origin))
    as [e' (Hrun & _ & Hin & _)].
  exists e'. split; [exact Hrun|]. apply Hin. eexists. split; reflexivity.
Defined.



(** ** The scroll container *)

(** The scroll container of a session is the nearest ancestor of the
    dragged node that is the document body or can scroll (more content
    than height, overflow not visible), and the document body when there
    is none. *)
Theorem findScrollContainer_nearest (up : list Ancestor) (body : Ancestor) :
  (exists skipped rest,
     up = skipped ++ findScrollContainer up body :: rest /\
     stopsScroll (findScrollContainer up body) = true /\
     forall a, In a skipped -> stopsScroll a = false) \/
  (findScrollContainer up body = body /\
   forall a, In a up -> stopsScroll a = false).
Proof.
  induction up as [|a up IH].
  - right. split; [reflexivity | contradiction].
  - destruct (stopsScroll a) eqn:Ea.
    + left. exists [], up.
      assert (findScrollContainer (a :: up) body = a) as ->.
      { simpl. unfold stopsScroll in Ea.
        destruct (a_isBody a); [reflexivity|]. simpl in Ea. rewrite Ea. reflexivity. }
      split_all; [reflexivity | exact Ea | contradiction].
    + assert (findScrollContainer (a :: up) body = findScrollContainer up body) as ->.
      { simpl. unfold stopsScroll in Ea.
        apply orb_false_iff in Ea as [-> ->]. reflexivity. }
      destruct IH as [(skipped & rest & Hup & Hstop & Hskip)|[Hbody Hall]].
      * left. exists (a :: skipped), rest. simpl. rewrite <- Hup.
        split_all; [reflexivity | exact Hstop |].
        intros a' [<-|Hin]; [exact Ea | auto].
      * right. split; [exact Hbody|].
        intros a' [<-|Hin]; [exact Ea | auto].
Qed.

Lemma sample_rest_sound : sound sample_rest.
Proof.
  split.
  - eexists. split; [reflexivity|]. simpl.
    split_all; try reflexivity; try lia; try congruence; try (intros t []).
  - intros s _ _. reflexivity.
Defined.

Lemma touch_move_disarms_hold_witness :
  exists e',
    onTouchMove (mkPoint 1 1 10) sample_undecided = Ok (tt, e') /\
    canPreventScrolling e' = false.
Proof.
  destruct (touch_move_disarms_hold (mkPoint 1 1 10) sample_undecided
              sample_undecided_sound)
    as [e' (Hrun & Hcan & _)].
  exists e'. split; assumption.
Defined.

Lemma pointer_down_outcome_witness :
  exists e',
    onMouseDown 0 sample_down sample_rest = Ok (tt, e') /\
    started (mkPoint 10 90 0) e'.
Proof.
  destruct (proj1 (pointer_down_outcome sample_down sample_rest sample_rest_sound)
                  0%nat)
    as [e' (Hrun & _ & _ & Hgo)].
  exists e'. split; [exact Hrun|].
  apply Hgo; try reflexivity. discriminate.
Defined.

Lemma gesture_starts_at_rest_witness :
  exists move,
    getTotalMovement sample_undecided = Ok (Some move, sample_undecided) /\
    y move == 0.
Proof.
  destruct (gesture_starts_at_rest origin sample_undecided)
    as (move & Hrun & _ & Hy & _).
  - unfold started. split_all; try reflexivity.
    + left. eexists. split; reflexivity.
    + eexists. split; reflexivity.
  - exists move. split; assumption.
Defined.

Lemma findTargetNode_child_witness :
  exists up,
    findTargetNode (e_target sample_down :: e_ancestors sample_down) =
      Some (e_target sample_down, up) /\
    exists parent rest, up = parent :: rest /\ a_isContainer parent = true.
Proof.
  exists (e_ancestors sample_down). split; [reflexivity|].
  destruct (proj1 (findTargetNode_child
                     (e_target sample_down :: e_ancestors sample_down))
                  (e_target sample_down) (e_ancestors sample_down) eq_refl)
    as (skipped & parent & rest & _ & Hup & Hparent & _).
  exists parent, rest. split; assumption.
Defined.
